(** * justbuild analysis engine: expressions, JSON file maps and target analysis

    A shallow embedding of
      - src/buildtool/build_engine/expression/expression.cpp
      - src/buildtool/build_engine/base_maps/json_file_map.hpp
      - src/buildtool/build_engine/target_map/target_map.cpp
    together with the properties of these functions that the engine relies on. *)

From Stdlib Require Import ZArith String Ascii List Bool Lia.
From Stdlib Require Import Sorting.Permutation Sorting.Sorted.
From Stdlib Require Import Structures.OrderedTypeEx.
From Stdlib Require Import Floats.SpecFloat.
From stdpp Require Import base option gmap strings pretty.

Import ListNotations.
#[local] Set Warnings "-register-all".

(** Forget the variables that the goal does not mention, so that a decision
    procedure does not take a function for an implication. *)
Ltac forget_unused :=
  repeat match goal with
         | x : ?T |- _ =>
             lazymatch type of T with
             | Prop => fail
             | _ => clear x
             end
         end.
Ltac props := forget_unused; tauto.
Ltac props_split := forget_unused; intuition.
Local Open Scope string_scope.
Local Open Scope list_scope.

(** ** Byte strings and their order

    [std::string] is a byte string; [operator<] on it is the lexicographic
    order on unsigned bytes, which is [String.compare]. *)

Module StrOrd.

Definition lt (a b : string) : Prop := String.ltb a b = true.

End StrOrd.

(** ** Linked maps *)

(** Modelled from the spec: [LinkedMap], the container behind
    [Expression::map_t], whose header (linked_map.hpp) is not among the
    embedded sources.  The spec describes it as an insertion-order-irrelevant mapping from
    strings to values with fast [Find] and deterministic iteration over the
    entries in key-sorted order.  It is built from a [std::unordered_map]
    ([underlying_map_t]); here the unordered map is the list of its entries
    in the order of insertion ([emplace] keeps the first binding of a key) and
    the linked map is the vector of its items in ascending key order. *)
Module LinkedMap.
Section WithValue.
Context {V : Type}.

Definition underlying_map_t : Type := list (string * V).
Definition t : Type := list (string * V).

Fixpoint Find (k : string) (m : list (string * V)) : option V :=
  match m with
  | [] => None
  | (k', v) :: r => if String.eqb k k' then Some v else Find k r
  end.

Definition contains (k : string) (m : list (string * V)) : bool :=
  match Find k m with Some _ => true | None => false end.

(** [std::unordered_map::emplace]: no effect when the key is bound. *)
Definition emplace (k : string) (v : V) (m : underlying_map_t)
  : underlying_map_t :=
  if contains k m then m else m ++ [(k, v)].

(** One step of sorting the items by key. *)
Fixpoint insert_item (kv : string * V) (items : t) : t :=
  match items with
  | [] => [kv]
  | kv' :: r =>
      if String.ltb (fst kv) (fst kv') then kv :: items
      else kv' :: insert_item kv r
  end.

(** The items of the map, sorted by key. *)
Definition make (m : underlying_map_t) : t := fold_right insert_item [] m.

Definition keys (m : list (string * V)) : list string := List.map fst m.
Definition values (m : list (string * V)) : list V := List.map snd m.
Definition size (m : t) : nat := List.length m.
Definition empty (m : t) : bool := match m with [] => true | _ => false end.

Definition key_lt (a b : string * V) : Prop := StrOrd.lt (fst a) (fst b).

End WithValue.
Arguments underlying_map_t : clear implicits.
Arguments t : clear implicits.

End LinkedMap.

(** ** Numbers

    [Expression::number_t] is [double]; its values are the binary64 numbers,
    [spec_float] with precision 53 and maximal exponent 1024. *)

Module Number.

Definition prec : Z := 53.
Definition emax : Z := 1024.

(** [static_cast<double>(n)] for an integer: round to nearest, ties to even. *)
Definition of_Z (n : Z) : spec_float := binary_normalize prec emax n 0 false.

Definition is_nan (x : spec_float) : bool :=
  match x with S754_nan => true | _ => false end.

(** [std::isfinite] *)
Definition is_finite (x : spec_float) : bool :=
  match x with S754_zero _ | S754_finite _ _ _ => true | _ => false end.

(** [operator==] on [double] *)
Definition eqb (x y : spec_float) : bool := SFeqb x y.

(** [static_cast<std::int64_t>(n)] for an unsigned 64-bit [n]. *)
Definition to_int64 (n : Z) : Z := ((n + 2 ^ 63) mod 2 ^ 64 - 2 ^ 63)%Z.

Definition shr_nonneg (mrs : shr_record) : Prop := (0 <= shr_m mrs)%Z.


End Number.

(** ** JSON values

    [nlohmann::json] restricted to the values of JSON: null, booleans, the
    three representations of a number, strings, arrays and objects.  An
    object is a [std::map]: its members are kept in ascending key order and
    [emplace] leaves a bound key alone. *)

Inductive json : Type :=
| j_null
| j_boolean (b : bool)
| j_number_integer (n : Z)
| j_number_unsigned (n : Z)
| j_number_float (x : spec_float)
| j_string (s : string)
| j_array (l : list json)
| j_object (m : list (string * json)).

Module Json.

Definition is_null (j : json) : bool := match j with j_null => true | _ => false end.
Definition is_boolean (j : json) : bool := match j with j_boolean _ => true | _ => false end.
Definition is_number (j : json) : bool :=
  match j with
  | j_number_integer _ | j_number_unsigned _ | j_number_float _ => true
  | _ => false
  end.
Definition is_string (j : json) : bool := match j with j_string _ => true | _ => false end.
Definition is_array (j : json) : bool := match j with j_array _ => true | _ => false end.
Definition is_object (j : json) : bool := match j with j_object _ => true | _ => false end.

(** [nlohmann::json::object()] *)
Definition object : json := j_object [].

(** [std::map::emplace] on the members of an object. *)
Fixpoint emplace (k : string) (v : json) (o : list (string * json))
  : list (string * json) :=
  match o with
  | [] => [(k, v)]
  | (k', v') :: r =>
      if String.ltb k k' then (k, v) :: o
      else if String.eqb k k' then o
      else (k', v') :: emplace k v r
  end.

Definition emplace_all (kvs : list (string * json)) : list (string * json) :=
  fold_left (fun o kv => emplace (fst kv) (snd kv) o) kvs [].

(** Induction over a JSON value and the values nested in it. *)
Section Induction.
  Variable P : json -> Prop.
  Hypothesis Hnull : P j_null.
  Hypothesis Hbool : forall b, P (j_boolean b).
  Hypothesis Hint : forall n, P (j_number_integer n).
  Hypothesis Huns : forall n, P (j_number_unsigned n).
  Hypothesis Hfloat : forall x, P (j_number_float x).
  Hypothesis Hstring : forall s, P (j_string s).
  Hypothesis Harray : forall l, List.Forall P l -> P (j_array l).
  Hypothesis Hobject :
    forall m, List.Forall (fun kv => P (snd kv)) m -> P (j_object m).

Fixpoint json_nested_ind (j : json) : P j :=
  match j with
  | j_null => Hnull
  | j_boolean b => Hbool b
  | j_number_integer n => Hint n
  | j_number_unsigned n => Huns n
  | j_number_float x => Hfloat x
  | j_string s => Hstring s
  | j_array l =>
      Harray l
        ((fix go (l : list json) : List.Forall P l :=
            match l with
            | [] => @List.Forall_nil _ P
            | x :: r => @List.Forall_cons _ P x r (json_nested_ind x) (go r)
            end) l)
  | j_object m =>
      Hobject m
        ((fix go (m : list (string * json))
           : List.Forall (fun kv => P (snd kv)) m :=
            match m with
            | [] => @List.Forall_nil _ _
            | kv :: r =>
                @List.Forall_cons _ _ kv r (json_nested_ind (snd kv)) (go r)
            end) m)
  end.
End Induction.

(** No number in the value is an infinity or a NaN. *)
Fixpoint finite (j : json) : bool :=
  match j with
  | j_number_float x => Number.is_finite x
  | j_array l => forallb finite l
  | j_object m => forallb (fun kv => finite (snd kv)) m
  | _ => true
  end.

(** Every integer in the value has a magnitude of at most 2^53, the range
    in which every integer is a double. *)
Fixpoint exact (j : json) : bool :=
  match j with
  | j_number_integer n | j_number_unsigned n => Z.leb (Z.abs n) (2 ^ 53)
  | j_array l => forallb exact l
  | j_object m => forallb (fun kv => exact (snd kv)) m
  | _ => true
  end.

(** The keys of every object are pairwise different, as in a [std::map]. *)
Fixpoint wf (j : json) : Prop :=
  match j with
  | j_array l => List.fold_right (fun x acc => wf x /\ acc) True l
  | j_object m =>
      List.NoDup (List.map fst m)
      /\ List.fold_right (fun kv acc => wf (snd kv) /\ acc) True m
  | _ => True
  end.

(** [operator==] of [nlohmann::json]: numbers of different representation
      are compared after conversion, arrays element by element, and objects
      as sets of members. *)
Fixpoint eqb (a b : json) {struct a} : bool :=
  match a, b with
  | j_null, j_null => true
  | j_boolean x, j_boolean y => Bool.eqb x y
  | j_number_integer x, j_number_integer y => Z.eqb x y
  | j_number_unsigned x, j_number_unsigned y => Z.eqb x y
  | j_number_float x, j_number_float y => Number.eqb x y
  | j_number_integer x, j_number_float y => Number.eqb (Number.of_Z x) y
  | j_number_float x, j_number_integer y => Number.eqb x (Number.of_Z y)
  | j_number_unsigned x, j_number_float y => Number.eqb (Number.of_Z x) y
  | j_number_float x, j_number_unsigned y => Number.eqb x (Number.of_Z y)
  | j_number_unsigned x, j_number_integer y => Z.eqb (Number.to_int64 x) y
  | j_number_integer x, j_number_unsigned y => Z.eqb x (Number.to_int64 y)
  | j_string x, j_string y => String.eqb x y
  | j_array x, j_array y =>
      (fix go (x y : list json) : bool :=
         match x, y with
         | [], [] => true
         | a :: x', b :: y' => eqb a b && go x' y'
         | _, _ => false
         end) x y
  | j_object x, j_object y =>
      forallb (fun kva =>
                 existsb (fun kvb =>
                            String.eqb (fst kva) (fst kvb)
                            && eqb (snd kva) (snd kvb)) y) x
      && forallb (fun kvb =>
                    existsb (fun kva =>
                               String.eqb (fst kva) (fst kvb)
                               && eqb (snd kva) (snd kvb)) x) y
  | _, _ => false
  end.


End Json.

(** ** Artifacts, results, nodes and names

    The headers of these types are not among the embedded sources; the data
    model of the spec gives their shape. *)

(** Modelled from the spec: the object type of a known artifact. *)
Module ObjectType.
Inductive t : Type := File | Executable | Tree.
End ObjectType.

(** Modelled from the spec: an artifact description is [local(path, repo)],
    [known(digest, size, object-type)], [action(action-id, output-path)] or
    [tree(tree-id)]. *)
Inductive ArtifactDescription : Type :=
| Local (path : string) (repo : string)
| Known (digest : string) (size : nat) (object_type : ObjectType.t)
| Action (action_id : string) (output_path : string)
| TreeArtifact (tree_id : string).

(** [ArtifactDescription::IsTree] *)
Definition IsTree (a : ArtifactDescription) : bool :=
  match a with TreeArtifact _ => true | _ => false end.

(** Modelled from the spec: a target result holds the artifacts, the
    provided map, the runfiles and the flag [is_cacheable]; [E] is the type
    of expressions. *)
Record TargetResult_ (E : Type) : Type := mkTargetResult {
  artifact_stage : E;
  provides : E;
  runfiles : E;
  is_cacheable : bool
}.
Arguments mkTargetResult {E}.
Arguments artifact_stage {E}.
Arguments provides {E}.
Arguments runfiles {E}.
Arguments is_cacheable {E}.

(** Modelled from the spec: a target node is [value(target-result)] or
    [abstract(node-type, string-fields, target-fields)]. *)
Inductive TargetNode_ (E : Type) : Type :=
| Value (value : E)
| Abstract (node_type : string) (string_fields : E) (target_fields : E).
Arguments Value {E}.
Arguments Abstract {E}.

(** Modelled from the spec: the kind of a reference is target, file or
    tree. *)
Inductive ReferenceType : Type := kTarget | kFile | kTree.

(** Modelled from the spec: a named target is
    [(repo, module, name, ref-kind)]. *)
Record NamedTarget : Type := mkNamedTarget {
  repository : string;
  module : string;
  name : string;
  reference_t : ReferenceType
}.

(** Modelled from the spec: an entity name is named or anonymous
    [(rule-map, target-node-expression)]. *)
Inductive EntityName_ (E : Type) : Type :=
| Named (n : NamedTarget)
| Anonymous (rule_map : E) (target_node : E).
Arguments Named {E}.
Arguments Anonymous {E}.

(** ** Expressions (expression.hpp)

    The variant [data_] of an expression.  An [ExpressionPtr] held by a list,
    a map, a result, a node or a name is never null, so it is the expression
    itself; [map_t] holds the items of its linked map. *)

Inductive Expression : Type :=
| none_t
| bool_t (b : bool)
| number_t (x : spec_float)
| string_t (s : string)
| name_t (n : EntityName_ Expression)
| result_t (r : TargetResult_ Expression)
| node_t (n : TargetNode_ Expression)
| artifact_t (a : ArtifactDescription)
| list_t (l : list Expression)
| map_t (m : LinkedMap.t Expression).

Definition ExpressionPtr : Type := Expression.
Definition TargetResult : Type := TargetResult_ Expression.
Definition TargetNode : Type := TargetNode_ Expression.
Definition EntityName : Type := EntityName_ Expression.

Inductive JsonMode : Type := SerializeAll | SerializeAllButNodes | NullForNonJson.

Definition IsNone (e : Expression) : bool := match e with none_t => true | _ => false end.
Definition IsBool (e : Expression) : bool := match e with bool_t _ => true | _ => false end.
Definition IsNumber (e : Expression) : bool := match e with number_t _ => true | _ => false end.
Definition IsString (e : Expression) : bool := match e with string_t _ => true | _ => false end.
Definition IsName (e : Expression) : bool := match e with name_t _ => true | _ => false end.
Definition IsResult (e : Expression) : bool := match e with result_t _ => true | _ => false end.
Definition IsNode (e : Expression) : bool := match e with node_t _ => true | _ => false end.
Definition IsArtifact (e : Expression) : bool := match e with artifact_t _ => true | _ => false end.
Definition IsList (e : Expression) : bool := match e with list_t _ => true | _ => false end.
Definition IsMap (e : Expression) : bool := match e with map_t _ => true | _ => false end.

Definition kEmptyList : Expression := list_t [].
Definition kEmptyMapExpr : Expression := map_t [].
Definition kNone : Expression := none_t.

(** [Expression::map_t{m}] for an unordered map [m]. *)
Definition map_of (m : LinkedMap.underlying_map_t Expression) : Expression :=
  map_t (LinkedMap.make m).

(** Induction over an expression and the entries of its lists and maps. *)
Section ExpressionInduction.
Variable P : Expression -> Prop.
Hypothesis Hnone : P none_t.
Hypothesis Hbool : forall b, P (bool_t b).
Hypothesis Hnumber : forall x, P (number_t x).
Hypothesis Hstring : forall s, P (string_t s).
Hypothesis Hname : forall n, P (name_t n).
Hypothesis Hresult : forall r, P (result_t r).
Hypothesis Hnode : forall n, P (node_t n).
Hypothesis Hartifact : forall a, P (artifact_t a).
Hypothesis Hlist : forall l, List.Forall P l -> P (list_t l).
Hypothesis Hmap :
  forall m, List.Forall (fun kv => P (snd kv)) m -> P (map_t m).

Fixpoint Expression_nested_ind (e : Expression) : P e :=
  match e with
  | none_t => Hnone
  | bool_t b => Hbool b
  | number_t x => Hnumber x
  | string_t s => Hstring s
  | name_t n => Hname n
  | result_t r => Hresult r
  | node_t n => Hnode n
  | artifact_t a => Hartifact a
  | list_t l =>
      Hlist l
        ((fix go (l : list Expression) : List.Forall P l :=
            match l with
            | [] => @List.Forall_nil _ P
            | x :: r => @List.Forall_cons _ P x r (Expression_nested_ind x) (go r)
            end) l)
  | map_t m =>
      Hmap m
        ((fix go (m : list (string * Expression))
           : List.Forall (fun kv => P (snd kv)) m :=
            match m with
            | [] => @List.Forall_nil _ _
            | kv :: r =>
                @List.Forall_cons _ _ kv r (Expression_nested_ind (snd kv)) (go r)
            end) m)
  end.
End ExpressionInduction.

(** ** Paths

    The operations of [std::filesystem::path] that the engine uses, for the
    generic format with ["/"] as the only separator and no root name. *)

Module Path.

Definition slash : ascii := "/"%char.

(** The segments between the slashes: ["a//b/"] has ["a"], [""], ["b"], [""]. *)
Fixpoint split (s : string) : list string :=
  match s with
  | EmptyString => [EmptyString]
  | String c r =>
      if Ascii.eqb c slash then EmptyString :: split r
      else match split r with
           | [] => [String c EmptyString]
           | seg :: segs => String c seg :: segs
           end
  end.

(** The file names of a path: its non-empty segments. *)
Definition filenames (s : string) : list string :=
  List.filter (fun seg => negb (String.eqb seg "")) (split s).

Definition is_absolute (s : string) : bool :=
  match s with
  | String c _ => Ascii.eqb c slash
  | EmptyString => false
  end.

Fixpoint ends_with_slash (s : string) : bool :=
  match s with
  | EmptyString => false
  | String c EmptyString => Ascii.eqb c slash
  | String _ r => ends_with_slash r
  end.

(** [*p.begin()]: the root directory of an absolute path, else the first
    file name; the empty path for the empty path. *)
Definition begin (s : string) : string :=
  if is_absolute s then "/"
  else match filenames s with
       | [] => ""
       | f :: _ => f
       end.

Fixpoint join (names : list string) : string :=
  match names with
  | [] => ""
  | [f] => f
  | f :: r => f +:+ "/" +:+ join r
  end.

(** One step of the normalisation, on the stack of the names kept so far
    (the last one first): a dot is removed; a dot-dot removes the name before
    it, is removed itself right after the root directory, and is kept
    otherwise. *)
Definition normal_step (absolute : bool) (stack : list string) (f : string)
  : list string :=
  if String.eqb f "." then stack
  else if String.eqb f ".." then
    match stack with
    | [] => if absolute then [] else [f]
    | top :: below => if String.eqb top ".." then f :: stack else below
    end
  else f :: stack.

(** [path::lexically_normal] *)
Definition lexically_normal (s : string) : string :=
  if String.eqb s "" then ""
  else
    let absolute := is_absolute s in
    let names := filenames s in
    let stack := fold_left (normal_step absolute) names [] in
    let trailing :=
      ends_with_slash s
      || match List.rev names with
         | last :: _ => String.eqb last "." || String.eqb last ".."
         | [] => false
         end in
    match stack with
    | [] => if absolute then "/" else "."
    | top :: _ =>
        (if absolute then "/" else "") +:+ join (List.rev stack)
        +:+ (if trailing && negb (String.eqb top "..") then "/" else "")
    end.

(** [operator/] *)
Definition append (p q : string) : string :=
  if is_absolute q then q
  else if String.eqb p "" then q
  else if ends_with_slash p then p +:+ q
  else p +:+ "/" +:+ q.

End Path.

(** ** Configurations *)

(** Modelled from the spec: configuration.hpp is not among the
    embedded sources.  A configuration is an insertion-order-irrelevant mapping from
    variable names to expressions; [Prune] restricts its domain, [Update]
    lays a map over it, and [VariableFixed] holds for the variables it
    binds. *)
Module Configuration.

Record t : Type := mk { config_map : LinkedMap.t Expression }.

Definition empty : t := mk [].

Definition Prune (vars : list string) (c : t) : t :=
  mk (List.filter (fun kv => existsb (String.eqb (fst kv)) vars) (config_map c)).

Definition Update (overlay : Expression) (c : t) : t :=
  match overlay with
  | map_t m =>
      mk (LinkedMap.make
            (m ++ List.filter (fun kv => negb (LinkedMap.contains (fst kv) m))
                    (config_map c)))
  | _ => c
  end.

Definition VariableFixed (x : string) (c : t) : bool :=
  LinkedMap.contains x (config_map c).

End Configuration.

(** ** The data of the target map (target_map.hpp and its collaborators) *)

(** Modelled from the spec: [BuildMaps::Base::ModuleName], the key
    [(repository, module)] of the JSON file maps. *)
Module ModuleName.
Record t : Type := mk { repository : string; module : string }.
End ModuleName.

(** Modelled from the spec: [FileRoot], with the two questions the JSON file
    maps ask of a root, whether a path is a file and what a file holds. *)
Module FileRoot.
Record t : Type := mk {
  IsFile : string -> bool;
  ReadFile : string -> option string
}.
End FileRoot.

(** Modelled from the spec: [BuildMaps::Target::ConfiguredTarget], a target
    and the configuration it is analysed in. *)
Module ConfiguredTarget.
Record t : Type := mk { target : EntityName; config : Configuration.t }.
End ConfiguredTarget.

(** Modelled from the spec: action_description.hpp is not among the
    embedded sources.  An action has inputs, outputs (files and directories),
    a command, an environment, an optional [may_fail] message, a [no_cache]
    flag and an identifier, the hash of its serialised specification. *)
Module ActionDescription.
Record t : Type := mk {
  outputs : list string;
  output_dirs : list string;
  cmd : list string;
  env : Expression;
  may_fail : option string;
  no_cache : bool;
  inputs : Expression;
  Id : string
}.
End ActionDescription.

(** Modelled from the spec: tree.hpp is not among the embedded sources.  A
    tree holds the artifacts at their normalised paths; its identifier is a
    digest of its content. *)
Module Tree.
Record t : Type := mk {
  artifacts : LinkedMap.underlying_map_t ArtifactDescription
}.
End Tree.

(** Modelled from the spec: [AnalysedTarget] is
    [(result, actions, blobs, trees, effective-vars, tainted)]. *)
Module AnalysedTarget.
Record t : Type := mk {
  Result : TargetResult;
  Actions : list ActionDescription.t;
  Blobs : list string;
  Trees : list Tree.t;
  Vars : gset string;
  Tainted : gset string
}.
Definition Artifacts (a : t) : Expression := artifact_stage (Result a).
Definition RunFiles (a : t) : Expression := runfiles (Result a).
Definition Provides (a : t) : Expression := provides (Result a).
End AnalysedTarget.

(** Modelled from the spec: [BuildMaps::Base::UserRule], with the fields
    that [withDependencies] reads. *)
Module UserRule.
Record t : Type := mk {
  ConfigFields : list string;
  StringFields : list string;
  TargetFields : list string;
  ConfigVars : list string;
  Tainted : gset string;
  Expression_ : Expression
}.
End UserRule.

(** [TargetData] of target_map.cpp. *)
Module TargetData.
Record t : Type := mk {
  target_vars : list string;
  config_exprs : LinkedMap.underlying_map_t Expression;
  string_exprs : LinkedMap.underlying_map_t Expression;
  target_exprs : LinkedMap.underlying_map_t Expression;
  tainted_expr : Expression;
  parse_target_names : bool
}.
End TargetData.

(** What a reader of an async map does with its key: it sets the value, or
    logs a fatal error and sets nothing. *)
Inductive Outcome (V : Type) : Type :=
| SetValue (v : V)
| LogFatal (msg : string).
Arguments SetValue {V}.
Arguments LogFatal {V}.

Definition fails {V : Type} (o : Outcome V) : Prop := exists msg, o = LogFatal msg.

(** ** Evaluation

    The exceptions of the evaluator, the run-scoped collectors that [ACTION],
    [BLOB] and [TREE] append to, and the computations that may throw and
    append. *)

Inductive Exception : Type :=
| EvaluationError (msg : string)
| ExpressionTypeError (msg : string)
| bad_variant_access.

Definition is_EvaluationError (e : Exception) : bool :=
  match e with EvaluationError _ => true | _ => false end.

Record Collectors : Type := mkCollectors {
  actions : list ActionDescription.t;
  blobs : list string;
  trees : list Tree.t
}.

Definition no_collected : Collectors := mkCollectors [] [] [].

Definition M (A : Type) : Type := Collectors -> Exception + (A * Collectors).

Definition ret {A} (a : A) : M A := fun c => inr (a, c).
Definition throw {A} (e : Exception) : M A := fun _ => inl e.
Definition bind {A B} (m : M A) (f : A -> M B) : M B :=
  fun c => match m c with
           | inl e => inl e
           | inr (a, c') => f a c'
           end.

#[export] Instance M_ret : MRet M := @ret.
#[export] Instance M_bind : MBind M := fun A B f m => bind m f.

(** [SubExprEvaluator] and the functions of a [FunctionMap]. *)
Definition SubExprEvaluator : Type := Expression -> Configuration.t -> M Expression.
Definition FunctionType : Type :=
  SubExprEvaluator -> Expression -> Configuration.t -> M Expression.
Definition FunctionMap : Type := list (string * FunctionType).

(** The typed accessors of an expression throw on a value of another type. *)
Definition type_error {A} (expected : string) : M A :=
  throw (ExpressionTypeError ("Expression is not of type '" +:+ expected +:+ "'.")).

Definition Map (e : Expression) : M (LinkedMap.t Expression) :=
  match e with map_t m => ret m | _ => type_error "map" end.
Definition List_ (e : Expression) : M (list Expression) :=
  match e with list_t l => ret l | _ => type_error "list" end.
Definition String_ (e : Expression) : M string :=
  match e with string_t s => ret s | _ => type_error "string" end.
Definition Artifact (e : Expression) : M ArtifactDescription :=
  match e with artifact_t a => ret a | _ => type_error "artifact" end.
Definition Result (e : Expression) : M TargetResult :=
  match e with result_t r => ret r | _ => type_error "result" end.
Definition Node (e : Expression) : M TargetNode :=
  match e with node_t n => ret n | _ => type_error "node" end.
Definition Name (e : Expression) : M EntityName :=
  match e with name_t n => ret n | _ => type_error "name" end.

(** [expr[key]] *)
Definition Index (expr : Expression) (key : string) : M Expression :=
  m ← Map expr;
  match LinkedMap.Find key m with
  | Some value => ret value
  | None =>
      throw (ExpressionTypeError ("Map does not contain key '" +:+ key +:+ "'."))
  end.

(** [expr->Get(key, default_value)] *)
Definition Get (expr : Expression) (key : string) (default_value : Expression)
  : M Expression :=
  m ← Map expr;
  match LinkedMap.Find key m with
  | Some value => ret value
  | None => ret default_value
  end.

(** [empty()] of a vector. *)
Definition is_empty {A} (l : list A) : bool :=
  match l with [] => true | _ => false end.

(** [std::sort] on a vector of strings. *)
Fixpoint sort_insert (x : string) (l : list string) : list string :=
  match l with
  | [] => [x]
  | y :: r => if String.ltb y x then y :: sort_insert x r else x :: l
  end.

Definition sort (l : list string) : list string := fold_right sort_insert [] l.

(** [std::set_intersection] of two sorted ranges. *)
Fixpoint set_intersection (a b : list string) : list string :=
  match a with
  | [] => []
  | x :: a' =>
      (fix second (b : list string) : list string :=
         match b with
         | [] => []
         | y :: b' =>
             if String.ltb x y then set_intersection a' b
             else if String.ltb y x then second b'
             else x :: set_intersection a' b'
         end) b
  end.

(** ** The result registry *)

(** Modelled from the spec: result_map.hpp is not among the
    embedded sources.  The registry maps a target and its effective configuration to an
    analysed target; [Add] returns the existing entry if one is present,
    otherwise it installs the candidate and returns it.  [same_key] compares
    two keys. *)
Module ResultTargetMap.

Definition key : Type := (EntityName * Configuration.t)%type.
Definition t : Type := list (key * AnalysedTarget.t).

Fixpoint Find (same_key : key -> key -> bool) (k : key) (m : t)
  : option AnalysedTarget.t :=
  match m with
  | [] => None
  | (k', v) :: r => if same_key k k' then Some v else Find same_key k r
  end.

Definition Add (same_key : key -> key -> bool) (m : t)
  (target : EntityName) (conf : Configuration.t) (candidate : AnalysedTarget.t)
  : AnalysedTarget.t * t :=
  match Find same_key (target, conf) m with
  | Some existing => (existing, m)
  | None => (candidate, m ++ [((target, conf), candidate)])
  end.

End ResultTargetMap.

(** ** Collaborators of the expression *)

(** Modelled from the spec: the hash generator (hash_generator.hpp) offers
    the single-shot [Run] and an incremental hasher with [Update] and
    [Finalize]; [Finalize] may fail. *)
Record HashGenerator : Type := mkHashGenerator {
  Hasher : Type;
  Run : string -> string;
  IncrementalHasher : Hasher;
  Update : Hasher -> string -> Hasher;
  Finalize : Hasher -> option string
}.

(** [std::unordered_map::emplace] of a sequence of entries, one by one. *)
Definition emplace_entries {V : Type} (kvs : list (string * V))
  : LinkedMap.underlying_map_t V :=
  fold_left (fun u kv => LinkedMap.emplace (fst kv) (snd kv) u) kvs [].


(** ** The data of rule application *)

(** Modelled from the spec: an anonymous definition of a rule references
    another field, a provider key and a rule map. *)
Module AnonymousDefinition.
Record t : Type := mk {
  target : string;
  provider : string;
  rule_map : ExpressionPtr
}.
End AnonymousDefinition.

(** Modelled from the spec: the fields of [BuildMaps::Base::UserRule] that
    [withRuleDefinition] reads besides those of [UserRule.t]: the implicit
    targets and their expressions, the anonymous definitions and the config
    transitions; the implicit targets and the anonymous definitions in the
    order in which the rule iterates over them. *)
Module RuleFields.
Record t : Type := mk {
  ImplicitTargets : list (string * list EntityName);
  ImplicitTargetExps : LinkedMap.underlying_map_t Expression;
  AnonymousDefinitions : list (string * AnonymousDefinition.t);
  ConfigTransitions : LinkedMap.underlying_map_t Expression
}.
End RuleFields.

(** Modelled from the spec: [Configuration{expr}], the configuration that a
    map expression describes. *)
Definition Configuration_of (expr : Expression) : Configuration.t :=
  match expr with
  | map_t m => Configuration.mk m
  | _ => Configuration.empty
  end.

(** The keys that [withRuleDefinition] builds: the keys of the dependencies
    to request, the keys by which [withDependencies] finds them again, and
    for the target of every anonymous definition the positions of its
    dependencies among the keys. *)
Module Requests.
Record t : Type := mk {
  dependency_keys : list ConfiguredTarget.t;
  transition_keys : list ConfiguredTarget.t;
  anon_positions : list (string * list nat)
}.
End Requests.

(** How a part of [withRuleDefinition] ends: it goes on with a value; it
    logs a fatal error and returns; an exception of the expressions leaves
    it; [at] throws [std::out_of_range]; or it does what the language leaves
    undefined, dereferencing a null pointer or reading a vector beyond its
    end, possibly after the evaluator logged the error that left the null
    pointer. *)
Inductive Step (A : Type) : Type :=
| Done (a : A)
| Logged (msg : string)
| Thrown (e : Exception)
| out_of_range
| Undefined (logged : option string).
Arguments Done {A}.
Arguments Logged {A}.
Arguments Thrown {A}.
Arguments out_of_range {A}.
Arguments Undefined {A}.

#[export] Instance Step_ret : MRet Step := @Done.
#[export] Instance Step_bind : MBind Step :=
  fun A B f m =>
    match m with
    | Done a => f a
    | Logged msg => Logged msg
    | Thrown e => Thrown e
    | out_of_range => out_of_range
    | Undefined logged => Undefined logged
    end.

(** A part that never leaves the language: it goes on, logs, or throws an
    exception of the expressions. *)
Definition defined {A : Type} (s : Step A) : Prop :=
  match s with
  | Done _ | Logged _ | Thrown _ => True
  | out_of_range | Undefined _ => False
  end.

(** The only exception that leaves a part is a type error of the
    expressions. *)
Definition throws_type_errors {A : Type} (s : Step A) : Prop :=
  match s with
  | Thrown (ExpressionTypeError _) => True
  | Thrown _ => False
  | _ => True
  end.

(** [positions.emplace_back(pos)] on the entry of [name]. *)
Fixpoint push_position (name : string) (pos : nat)
  (positions : list (string * list nat)) : list (string * list nat) :=
  match positions with
  | [] => []
  | (name', l) :: rest =>
      if String.eqb name name' then (name', l ++ [pos]) :: rest
      else (name', l) :: push_position name pos rest
  end.
Section Engine.
#[local] Set Default Proof Using "Type".

(** The hash generator [hash_gen_] of the expressions. *)
Variable hash_gen_ : HashGenerator.
(** [nlohmann::json::dump] *)
Variable dump : json -> string.
(** [ArtifactDescription::ToJson], [TargetNode::ToJson], [EntityName::ToJson] *)
Variable Artifact_ToJson : ArtifactDescription -> json.
Variable Node_ToJson : TargetNode -> json.
Variable Name_ToJson : EntityName -> json.
(** [ToHexString] of utils/cpp/hex_string.hpp *)
Variable ToHexString : string -> string.
(** [TargetNode::IsCacheable] *)
Variable Node_IsCacheable : TargetNode -> bool.

(** *** expression.cpp *)

(** The hash of a node: [ComputeHash] hashes ["#"] and the serialisation of
    the node ([Node_hash_ComputeHash] below). *)
Definition Node_hash (n : TargetNode) : string :=
  Run hash_gen_ ("#" +:+ dump (Node_ToJson n)).

(** [Expression::ToJson] *)
Fixpoint ToJson (mode : JsonMode) (e : Expression) : json :=
  match e with
  | bool_t b => j_boolean b
  | number_t x => j_number_float x
  | string_t s => j_string s
  | artifact_t a =>
      match mode with
      | NullForNonJson => j_null
      | _ => Artifact_ToJson a
      end
  | result_t r =>
      match mode with
      | NullForNonJson => j_null
      | _ =>
          match r with
          | mkTargetResult a p rf _ =>
              (* the map of the three stages, serialised as a map *)
              j_object
                (Json.emplace_all
                   (LinkedMap.make
                      (emplace_entries
                         [("artifact_stage", ToJson SerializeAllButNodes a);
                          ("runfiles", ToJson SerializeAllButNodes rf);
                          ("provides", ToJson SerializeAllButNodes p)])))
          end
      end
  | node_t n =>
      match mode with
      | SerializeAll => Node_ToJson n
      | SerializeAllButNodes =>
          j_object
            (Json.emplace_all
               [("type", j_string "NODE");
                ("id", j_string (ToHexString (Node_hash n)))])
      | NullForNonJson => j_null
      end
  | list_t l => j_array (List.map (ToJson mode) l)
  | map_t m =>
      j_object
        (Json.emplace_all
           (List.map (fun p => (fst p, ToJson mode (snd p))) m))
  | name_t n =>
      match mode with
      | NullForNonJson => j_null
      | _ => Name_ToJson n
      end
  | none_t => j_null
  end.

(** [Expression::IsCacheable] *)
Fixpoint IsCacheable (e : Expression) : bool :=
  match e with
  | name_t _ => false
  | result_t r => is_cacheable r
  | node_t n => Node_IsCacheable n
  | list_t l => forallb IsCacheable l
  | map_t m => forallb (fun entry => IsCacheable (snd entry)) m
  | _ => true
  end.

(** [Expression::ToString] *)
Definition ToString (e : Expression) : string := dump (ToJson SerializeAll e).

(** [Expression::FromJson].  Every value of [json] takes one of the
    branches; the closing [return ExpressionPtr{nullptr}] of the source is
    left to the binary and discarded values of the library, which are no
    JSON values. *)
Fixpoint FromJson (j : json) : ExpressionPtr :=
  match j with
  | j_null => none_t
  | j_boolean b => bool_t b
  | j_number_integer n => number_t (Number.of_Z n)
  | j_number_unsigned n => number_t (Number.of_Z n)
  | j_number_float x => number_t x
  | j_string s => string_t s
  | j_array l => list_t (List.map FromJson l)
  | j_object m =>
      map_of (emplace_entries (List.map (fun el => (fst el, FromJson (snd el))) m))
  end.

(** The sigil that [ComputeHash] puts before the serialisation of an atom. *)
Definition hash_prefix (e : Expression) : string :=
  match e with
  | artifact_t _ => "@"
  | result_t _ => "="
  | node_t _ => "#"
  | name_t _ => "$"
  | _ => ""
  end.

(** The two loops of [ComputeHash]: every element of a list, and every item
    of a map in the order of its keys, is hashed by [to_hash] and fed to the
    hasher.  [None] stands for [std::terminate] after a failed [Finalize]. *)
Definition update_list (to_hash : Expression -> option string)
  : Hasher hash_gen_ -> list Expression -> option (Hasher hash_gen_) :=
  fix loop hasher l :=
    match l with
    | [] => Some hasher
    | el :: rest =>
        match to_hash el with
        | Some h => loop (Update hash_gen_ hasher h) rest
        | None => None
        end
    end.

Definition update_map (to_hash : Expression -> option string)
  : Hasher hash_gen_ -> list (string * Expression) -> option (Hasher hash_gen_) :=
  fix loop hasher m :=
    match m with
    | [] => Some hasher
    | el :: rest =>
        let hasher := Update hash_gen_ hasher (Run hash_gen_ (fst el)) in
        match to_hash (snd el) with
        | Some h => loop (Update hash_gen_ hasher h) rest
        | None => None
        end
    end.

(** [Expression::ComputeHash].  [ToHash] publishes the result of
    [ComputeHash] once and returns it ever after, so it is the same
    function. *)
Fixpoint ComputeHash (e : Expression) : option string :=
  match e with
  | list_t l =>
      let hasher := Update hash_gen_ (IncrementalHasher hash_gen_) "[" in
      match update_list ComputeHash hasher l with
      | Some hasher => Finalize hash_gen_ hasher
      | None => None
      end
  | map_t m =>
      let hasher := Update hash_gen_ (IncrementalHasher hash_gen_) "{" in
      match update_map ComputeHash hasher m with
      | Some hasher => Finalize hash_gen_ hasher
      | None => None
      end
  | _ => Some (Run hash_gen_ (hash_prefix e +:+ ToString e))
  end.

Definition ToHash (e : Expression) : option string := ComputeHash e.

(** [Expression::ToIdentifier] *)
Definition ToIdentifier (e : Expression) : option string :=
  option_map ToHexString (ToHash e).

(** *** The hash in the words of the spec

    The digest obtained by feeding the opening bracket and then a sequence of
    parts, each a digest or the failure that ended the process. *)
Fixpoint feed (hasher : Hasher hash_gen_) (parts : list (option string))
  : option (Hasher hash_gen_) :=
  match parts with
  | [] => Some hasher
  | Some h :: rest => feed (Update hash_gen_ hasher h) rest
  | None :: _ => None
  end.

Definition digest_of_feed (bracket : string) (parts : list (option string))
  : option string :=
  match feed (Update hash_gen_ (IncrementalHasher hash_gen_) bracket) parts with
  | Some hasher => Finalize hash_gen_ hasher
  | None => None
  end.

(** The parts of a map: for each entry the digest of the key, then the hash
    of the value. *)
Definition map_parts (items : list (string * Expression)) : list (option string) :=
  List.flat_map
    (fun el => [Some (Run hash_gen_ (fst el)); ToHash (snd el)]) items.

(** *** Cacheability in the words of the spec: an expression contains a
    non-cacheable leaf, reached through list elements and map values. *)
Inductive ContainsNonCacheable : Expression -> Prop :=
| cnc_name n : ContainsNonCacheable (name_t n)
| cnc_result r : is_cacheable r = false -> ContainsNonCacheable (result_t r)
| cnc_node n : Node_IsCacheable n = false -> ContainsNonCacheable (node_t n)
| cnc_list l e :
    List.In e l -> ContainsNonCacheable e -> ContainsNonCacheable (list_t l)
| cnc_map m k e :
    List.In (k, e) m -> ContainsNonCacheable e -> ContainsNonCacheable (map_t m).

(** *** json_file_map.hpp *)

(** [nlohmann::json::parse(content, nullptr, false)]; [None] is the
    discarded value of a text that is not JSON. *)
Variable json_parse : string -> option json.

(** The reader of [CreateJsonFileMap<get_root, get_name, kMandatory>]. *)
Definition json_file_reader
  (get_root : string -> option FileRoot.t)
  (get_name : string -> option string)
  (kMandatory : bool) (key : ModuleName.t) : Outcome json :=
  match get_root (ModuleName.repository key), get_name (ModuleName.repository key) with
  | Some root, Some json_file_name =>
      let module := Path.lexically_normal (ModuleName.module key) in
      if Path.is_absolute module || String.eqb (Path.begin module) ".." then
        LogFatal ("Modules have to live inside their repository, but found "
                  +:+ ModuleName.module key +:+ ".")
      else
        let json_file_path := Path.append module json_file_name in
        if negb (FileRoot.IsFile root json_file_path) then
          if kMandatory then
            LogFatal ("JSON file " +:+ json_file_path +:+ " does not exist.")
          else SetValue Json.object
        else
          match FileRoot.ReadFile root json_file_path with
          | None => LogFatal ("cannot read JSON file " +:+ json_file_path +:+ ".")
          | Some file_content =>
              match json_parse file_content with
              | None =>
                  LogFatal ("JSON file " +:+ json_file_path
                            +:+ " does not contain valid JSON.")
              | Some json =>
                  if negb (Json.is_object json) then
                    LogFatal ("JSON in " +:+ json_file_path +:+ " is not an object.")
                  else SetValue json
              end
          end
  | _, _ =>
      LogFatal ("Cannot determine root or JSON file name for repository "
                +:+ ModuleName.repository key +:+ ".")
  end.

(** *** target_map.cpp *)

(** The helpers of target_map/utils.hpp, which is not among the embedded
    sources: the conflict check on a map of artifacts, the evaluation of the
    tainted expression into a set, the lookup of a dependency, the keys of a
    map as an expression; the construction of an action, the identifier of a
    tree, the hash of a blob; the default of [is_cacheable] in a target
    result; the comparison of configured targets and of the keys of the
    registry. *)
Variable tree_conflict : Expression -> option string.
Variable getTainted :
  gset string -> Configuration.t -> Expression -> string + gset string.
Variable obtainTarget :
  SubExprEvaluator -> Expression -> Configuration.t ->
  list (ConfiguredTarget.t * AnalysedTarget.t) -> M AnalysedTarget.t.
Variable obtainTargetByName :
  SubExprEvaluator -> Expression -> Configuration.t -> EntityName ->
  list (ConfiguredTarget.t * AnalysedTarget.t) -> M AnalysedTarget.t.
Variable keys_expr : Expression -> Expression.
Variable createAction :
  list string -> list string -> list string -> Expression -> option string ->
  bool -> Expression -> ActionDescription.t.
Variable Tree_Id : Tree.t -> string.
Variable Blob_ComputeHash : string -> string.
Variable default_is_cacheable : Expression -> Expression -> Expression -> bool.
Variable ConfiguredTarget_eqb : ConfiguredTarget.t -> ConfiguredTarget.t -> bool.
Variable same_key : ResultTargetMap.key -> ResultTargetMap.key -> bool.

(** The evaluator (evaluator.hpp): [expr.Evaluate(config, functions, logger)]
    yields the value and what the functions collected, or the message handed
    to the logger. *)
Variable Evaluate :
  Expression -> Configuration.t -> FunctionMap -> Collectors ->
  string + (Expression * Collectors).

Definition ensure (b : bool) (e : Exception) : M unit :=
  if b then ret tt else throw e.

Fixpoint for_each {A} (f : A -> M unit) (l : list A) : M unit :=
  match l with
  | [] => ret tt
  | x :: r => f x;; for_each f r
  end.

(** The loop of [ReadActionOutputExpr]: the strings of the list, or [error]
    at the first entry that is not a string. *)
Fixpoint read_strings (error : Exception) (l : list Expression)
  : M (list string) :=
  match l with
  | [] => ret []
  | string_t out_path :: rest =>
      outputs ← read_strings error rest; ret (out_path :: outputs)
  | _ :: _ => throw error
  end.

(** [ReadActionOutputExpr] *)
Definition ReadActionOutputExpr (out_exp : Expression) (field_name : string)
  : M (list string) :=
  let error :=
    EvaluationError (field_name +:+ " has to be a list of strings, but found "
                     +:+ ToString out_exp) in
  match out_exp with
  | list_t l => read_strings error l
  | _ => throw error
  end.

Definition add_action (action : ActionDescription.t) : M unit :=
  fun c => inr (tt, mkCollectors (actions c ++ [action]) (blobs c) (trees c)).
Definition add_blob (blob : string) : M unit :=
  fun c => inr (tt, mkCollectors (actions c) (blobs c ++ [blob]) (trees c)).
Definition add_tree (tree : Tree.t) : M unit :=
  fun c => inr (tt, mkCollectors (actions c) (blobs c) (trees c ++ [tree])).

(** The check of [may_fail] and [no_cache]: a list of strings the rule is
    tainted with. *)
Definition check_taint_list (rule : UserRule.t) (field : string)
  (sep : string) (exp : Expression) : M (list Expression) :=
  let not_a_list :=
    EvaluationError (field +:+ " has to be a list of" +:+ sep
                     +:+ "strings, but found " +:+ ToString exp) in
  match exp with
  | list_t l =>
      for_each
        (fun entry =>
           match entry with
           | string_t s =>
               ensure (bool_decide (s ∈ UserRule.Tainted rule))
                 (EvaluationError
                    (field +:+ " contains entry " +:+ ToString entry
                     +:+ " the the rule is not tainted with"))
           | _ => throw not_a_list
           end) l;;
      ret l
  | _ => throw not_a_list
  end.

(** The function [ACTION] of the main expression. *)
Definition ACTION (rule : UserRule.t) : FunctionType :=
  fun eval expr env =>
    let empty_map_exp := kEmptyMapExpr in
    inputs_arg ← Get expr "inputs" empty_map_exp;
    inputs_exp ← eval inputs_arg env;
    inputs_map ←
      match inputs_exp with
      | map_t m => ret m
      | _ =>
          throw (EvaluationError
                   ("inputs has to be a map of artifacts, but found "
                    +:+ ToString inputs_exp))
      end;
    for_each
      (fun entry : string * Expression =>
         ensure (IsArtifact (snd entry))
           (EvaluationError
              ("inputs has to be a map of Artifacts, but found "
               +:+ ToString (snd entry) +:+ " for " +:+ fst entry)))
      inputs_map;;
    match tree_conflict inputs_exp with
    | Some conflict =>
        throw (EvaluationError ("inputs conflicts on subtree " +:+ conflict))
    | None => ret tt
    end;;
    outs_arg ← Get expr "outs" (list_t []);
    outs_exp ← eval outs_arg env;
    outputs ← ReadActionOutputExpr outs_exp "outs";
    out_dirs_arg ← Get expr "out_dirs" (list_t []);
    out_dirs_exp ← eval out_dirs_arg env;
    output_dirs ← ReadActionOutputExpr out_dirs_exp "out_dirs";
    ensure (negb (is_empty outputs && is_empty output_dirs))
      (EvaluationError "either outs or out_dirs must be specified for ACTION");;
    let outputs := sort outputs in
    let output_dirs := sort output_dirs in
    let dups := set_intersection outputs output_dirs in
    ensure (is_empty dups)
      (EvaluationError "outs and out_dirs for ACTION must be disjoint");;
    cmd_arg ← Get expr "cmd" (list_t []);
    cmd_exp ← eval cmd_arg env;
    ensure (IsList cmd_exp)
      (EvaluationError
         ("cmd has to be a list of strings, but found " +:+ ToString cmd_exp));;
    cmd_list ← List_ cmd_exp;
    ensure (negb (is_empty cmd_list))
      (EvaluationError "cmd must not be an empty list");;
    cmd ← ReadActionOutputExpr cmd_exp "cmd";
    env_arg ← Get expr "env" empty_map_exp;
    env_exp ← eval env_arg env;
    ensure (IsMap env_exp)
      (EvaluationError
         ("env has to be a map of string, but found " +:+ ToString env_exp));;
    env_map ← Map env_exp;
    for_each
      (fun entry : string * Expression =>
         ensure (IsString (snd entry))
           (EvaluationError
              ("env has to be a map of string, but found " +:+ ToString env_exp)))
      env_map;;
    may_fail_exp ← Get expr "may_fail" (list_t []);
    may_fail_list ← check_taint_list rule "may_fail" " " may_fail_exp;
    may_fail ←
      (if is_empty may_fail_list then ret None
       else
         fail_arg ← Get expr "fail_message" (string_t "action failed");
         fail_msg ← eval fail_arg env;
         match fail_msg with
         | string_t s => ret (Some s)
         | _ =>
             throw (EvaluationError
                      ("fail_message has to evalute to a string, but got "
                       +:+ ToString fail_msg))
         end);
    no_cache_exp ← Get expr "no_cache" (list_t []);
    no_cache_list ← check_taint_list rule "no_cache" "" no_cache_exp;
    let no_cache := negb (is_empty no_cache_list) in
    let action :=
      createAction outputs output_dirs cmd env_exp may_fail no_cache inputs_exp in
    let action_id := ActionDescription.Id action in
    add_action action;;
    let result :=
      emplace_entries
        (List.map (fun out => (out, artifact_t (Action action_id out)))
           (outputs ++ output_dirs)) in
    ret (map_of result).

(** The function [FIELD]. *)
Definition FIELD (params : LinkedMap.underlying_map_t Expression) : FunctionType :=
  fun eval expr env =>
    name_arg ← Index expr "name";
    name ← eval name_arg env;
    match name with
    | string_t s =>
        match LinkedMap.Find s params with
        | Some value => ret value
        | None => throw (EvaluationError ("FIELD '" +:+ s +:+ "' unknown"))
        end
    | _ =>
        throw (EvaluationError
                 ("FIELD argument 'name' should evaluate to a string, but got "
                  +:+ ToString name))
    end.

Definition DEP_ARTIFACTS
  (deps_by_transition : list (ConfiguredTarget.t * AnalysedTarget.t))
  : FunctionType :=
  fun eval expr env =>
    target ← obtainTarget eval expr env deps_by_transition;
    ret (AnalysedTarget.Artifacts target).

Definition DEP_RUNFILES
  (deps_by_transition : list (ConfiguredTarget.t * AnalysedTarget.t))
  : FunctionType :=
  fun eval expr env =>
    target ← obtainTarget eval expr env deps_by_transition;
    ret (AnalysedTarget.RunFiles target).

Definition DEP_PROVIDES
  (deps_by_transition : list (ConfiguredTarget.t * AnalysedTarget.t))
  : FunctionType :=
  fun eval expr env =>
    target ← obtainTarget eval expr env deps_by_transition;
    let provided := AnalysedTarget.Provides target in
    provider_arg ← Index expr "provider";
    provider ← eval provider_arg env;
    key ← String_ provider;
    provided_map ← Map provided;
    match LinkedMap.Find key provided_map with
    | Some provided_value => ret provided_value
    | None =>
        default_arg ← Get expr "default" kEmptyList;
        eval default_arg env
    end.

(** The function [BLOB]. *)
Definition BLOB : FunctionType :=
  fun eval expr env =>
    data_arg ← Get expr "data" (string_t "");
    data ← eval data_arg env;
    match data with
    | string_t s =>
        add_blob s;;
        ret (artifact_t (Known (Blob_ComputeHash s) (String.length s) ObjectType.File))
    | _ =>
        throw (EvaluationError
                 ("BLOB data has to be a string, but got " +:+ ToString data))
    end.

(** The loop of [TREE] over the items of its argument, in the order of the
    keys: it ends with the artifact returned for the path ["."] or [""]
    ([inl]), or with the artifacts staged at their normalised paths
    ([inr]). *)
Fixpoint TREE_stage (size : nat) (items : list (string * Expression))
  (artifacts : LinkedMap.underlying_map_t ArtifactDescription)
  : M (Expression + LinkedMap.underlying_map_t ArtifactDescription) :=
  match items with
  | [] => ret (inr artifacts)
  | (input_path, artifact) :: rest =>
      match artifact with
      | artifact_t a =>
          let norm_path := Path.lexically_normal input_path in
          if String.eqb norm_path "." || String.eqb norm_path "" then
            if Nat.ltb 1 size then
              throw (EvaluationError
                       "input path '.' or '' for TREE is only allowed for trees with single input artifact")
            else if negb (IsTree a) then
              throw (EvaluationError
                       "input path '.' or '' for TREE must be tree artifact")
            else ret (inl artifact)
          else TREE_stage size rest (LinkedMap.emplace norm_path a artifacts)
      | _ =>
          throw (EvaluationError
                   ("TREE argument has to be a map of artifacts, but found "
                    +:+ ToString artifact +:+ " for " +:+ input_path))
      end
  end.

(** The function [TREE]. *)
Definition TREE : FunctionType :=
  fun eval expr env =>
    arg ← Get expr "$1" kEmptyMapExpr;
    val ← eval arg env;
    match val with
    | map_t m =>
        staged ← TREE_stage (LinkedMap.size m) m [];
        match staged with
        | inl artifact => ret artifact
        | inr artifacts =>
            match tree_conflict val with
            | Some conflict =>
                throw (EvaluationError ("TREE conflicts on subtree " +:+ conflict))
            | None =>
                let tree := Tree.mk artifacts in
                let tree_id := Tree_Id tree in
                add_tree tree;;
                ret (artifact_t (TreeArtifact tree_id))
            end
        end
    | _ =>
        throw (EvaluationError
                 ("TREE argument has to be a map of artifacts, but found "
                  +:+ ToString val))
    end.

(** The function [VALUE_NODE]. *)
Definition VALUE_NODE : FunctionType :=
  fun eval expr env =>
    arg ← Get expr "$1" kNone;
    val ← eval arg env;
    if IsResult val then ret (node_t (Value val))
    else throw (EvaluationError "argument '$1' for VALUE_NODE not a RESULT type.").

(** [check_entries] of [ABSTRACT_NODE]: every value is a list of entries of
    the right type; the answer is the first key that is also bound in
    [disjoint_map], at which the check stops. *)
Fixpoint check_entries (map : list (string * Expression))
  (type_check : Expression -> bool) (fields_name type_name : string)
  (disjoint_map : option Expression) : M (option string) :=
  match map with
  | [] => ret None
  | (key, list) :: rest =>
      match list with
      | list_t l =>
          for_each
            (fun entry =>
               ensure (type_check entry)
                 (EvaluationError
                    ("list entry for " +:+ key +:+ " in argument '" +:+ fields_name
                     +:+ "' for ABSTRACT_NODE is not a " +:+ type_name +:+ ":"
                     +:+ String "010"%char (ToString entry)))) l;;
          match disjoint_map with
          | Some other =>
              other_map ← Map other;
              if LinkedMap.contains key other_map then ret (Some key)
              else check_entries rest type_check fields_name type_name disjoint_map
          | None =>
              check_entries rest type_check fields_name type_name disjoint_map
          end
      | _ =>
          throw (EvaluationError
                   ("value for key " +:+ key +:+ " in argument '" +:+ fields_name
                    +:+ "' for ABSTRACT_NODE is not a list."))
      end
  end.

(** The function [ABSTRACT_NODE]. *)
Definition ABSTRACT_NODE : FunctionType :=
  fun eval expr env =>
    type_arg ← Get expr "node_type" kNone;
    type ← eval type_arg env;
    ensure (IsString type)
      (EvaluationError "argument 'node_type' for ABSTRACT_NODE not a string.");;
    string_fields_arg ← Get expr "string_fields" kEmptyMapExpr;
    string_fields ← eval string_fields_arg env;
    ensure (IsMap string_fields)
      (EvaluationError "argument 'string_fields' for ABSTRACT_NODE not a map.");;
    target_fields_arg ← Get expr "target_fields" kEmptyMapExpr;
    target_fields ← eval target_fields_arg env;
    ensure (IsMap target_fields)
      (EvaluationError "argument 'target_fields' for ABSTRACT_NODE not a map.");;
    string_map ← Map string_fields;
    dup_key ← check_entries string_map IsString "string_fields" "string"
                (Some target_fields);
    match dup_key with
    | Some key =>
        throw (EvaluationError
                 ("string_fields and target_fields are not disjoint maps, found duplicate key: "
                  +:+ key +:+ "."))
    | None => ret tt
    end;;
    target_map ← Map target_fields;
    check_entries target_map IsNode "target_fields" "target node" None;;
    node_type ← String_ type;
    ret (node_t (Abstract node_type string_fields target_fields)).

(** [TargetResult{artifacts, provides, runfiles}] *)
Definition make_TargetResult (artifacts provides runfiles : Expression)
  : TargetResult :=
  mkTargetResult artifacts provides runfiles
    (default_is_cacheable artifacts provides runfiles).

(** The function [RESULT]. *)
Definition RESULT : FunctionType :=
  fun eval expr env =>
    let empty_map_exp := kEmptyMapExpr in
    artifacts_arg ← Get expr "artifacts" empty_map_exp;
    artifacts ← eval artifacts_arg env;
    runfiles_arg ← Get expr "runfiles" empty_map_exp;
    runfiles ← eval runfiles_arg env;
    provides_arg ← Get expr "provides" empty_map_exp;
    provides ← eval provides_arg env;
    let map_of_artifacts (what : string) (e : Expression) : M unit :=
      ensure (IsMap e)
        (EvaluationError
           (what +:+ " has to be a map of artifacts, but found " +:+ ToString e));;
      m ← Map e;
      for_each
        (fun entry : string * Expression =>
           ensure (IsArtifact (snd entry))
             (EvaluationError
                (what +:+ " has to be a map of artifacts, but found "
                 +:+ ToString (snd entry) +:+ " for " +:+ fst entry))) m in
    map_of_artifacts "artifacts" artifacts;;
    map_of_artifacts "runfiles" runfiles;;
    ensure (IsMap provides)
      (EvaluationError
         ("provides has to be a map, but found " +:+ ToString provides));;
    ret (result_t (make_TargetResult artifacts provides runfiles)).

(** The functions available to the string fields. *)
Definition string_fields_fcts
  (deps_by_transition : list (ConfiguredTarget.t * AnalysedTarget.t))
  (key : ConfiguredTarget.t) : FunctionMap :=
  [("outs",
    fun eval expr env =>
      target ← obtainTargetByName eval expr env (ConfiguredTarget.target key)
                 deps_by_transition;
      ret (keys_expr (AnalysedTarget.Artifacts target)));
   ("runfiles",
    fun eval expr env =>
      target ← obtainTargetByName eval expr env (ConfiguredTarget.target key)
                 deps_by_transition;
      ret (keys_expr (AnalysedTarget.RunFiles target)))].

(** The functions available to the defining expression of a rule. *)
Definition main_exp_fcts (rule : UserRule.t)
  (params : LinkedMap.underlying_map_t Expression)
  (deps_by_transition : list (ConfiguredTarget.t * AnalysedTarget.t))
  : FunctionMap :=
  [("FIELD", FIELD params);
   ("DEP_ARTIFACTS", DEP_ARTIFACTS deps_by_transition);
   ("DEP_RUNFILES", DEP_RUNFILES deps_by_transition);
   ("DEP_PROVIDES", DEP_PROVIDES deps_by_transition);
   ("ACTION", ACTION rule);
   ("BLOB", BLOB);
   ("TREE", TREE);
   ("VALUE_NODE", VALUE_NODE);
   ("ABSTRACT_NODE", ABSTRACT_NODE);
   ("RESULT", RESULT)].

(** [deps_by_transition] of [withDependencies]: the dependency values by
    their transition keys; [emplace] keeps the first value of a key.  The
    callers pass as many values as keys. *)
Definition associate_deps (transition_keys : list ConfiguredTarget.t)
  (dependency_values : list AnalysedTarget.t)
  : list (ConfiguredTarget.t * AnalysedTarget.t) :=
  fold_left
    (fun deps kv =>
       if existsb (fun kv' => ConfiguredTarget_eqb (fst kv) (fst kv')) deps
       then deps else deps ++ [kv])
    (List.combine transition_keys dependency_values) [].

(** The effective dependency on the variables of the configuration. *)
Definition effective_vars_of (data : TargetData.t) (rule : UserRule.t)
  (deps_by_transition : list (ConfiguredTarget.t * AnalysedTarget.t))
  : gset string :=
  list_to_set (TargetData.target_vars data)
  ∪ list_to_set (UserRule.ConfigVars rule)
  ∪ ⋃ (List.map
         (fun dep : ConfiguredTarget.t * AnalysedTarget.t =>
            filter
              (fun x =>
                 Configuration.VariableFixed x (ConfiguredTarget.config (fst dep))
                 = false)
              (AnalysedTarget.Vars (snd dep)))
         deps_by_transition).

(** The evaluation of the string fields; [inl] is the message logged. *)
Fixpoint eval_string_fields (fields : list string) (data : TargetData.t)
  (param_config : Configuration.t) (fcts : FunctionMap)
  (params : LinkedMap.underlying_map_t Expression)
  : string + LinkedMap.underlying_map_t Expression :=
  match fields with
  | [] => inr params
  | field_name :: rest =>
      let field_exp :=
        default none_t (LinkedMap.Find field_name (TargetData.string_exprs data)) in
      match Evaluate field_exp param_config fcts no_collected with
      | inl msg =>
          inl ("While evaluating string field " +:+ field_name +:+ ":"
               +:+ String "010"%char msg)
      | inr (field_value, _) =>
          match field_value with
          | list_t l =>
              match List.find (fun entry => negb (IsString entry)) l with
              | Some entry =>
                  inl ("String field " +:+ field_name
                       +:+ " should be a list of strings, but found entry "
                       +:+ ToString entry)
              | None =>
                  eval_string_fields rest data param_config fcts
                    (LinkedMap.emplace field_name field_value params)
              end
          | _ =>
              inl ("String field " +:+ field_name
                   +:+ " should be a list of strings, but found "
                   +:+ ToString field_value)
          end
      end
  end.

(** [withDependencies]: the last step of rule application, once the
    dependencies are analysed. *)
Definition withDependencies
  (transition_keys : list ConfiguredTarget.t)
  (dependency_values : list AnalysedTarget.t)
  (rule : UserRule.t) (data : TargetData.t) (key : ConfiguredTarget.t)
  (params : LinkedMap.underlying_map_t Expression)
  (result_map : ResultTargetMap.t)
  : Outcome AnalysedTarget.t * ResultTargetMap.t :=
  (* Associate dependency keys with values *)
  let deps_by_transition := associate_deps transition_keys dependency_values in
  (* Compute the effective dependency on config variables *)
  let effective_vars := effective_vars_of data rule deps_by_transition in
  let param_vars := TargetData.target_vars data in
  let config_vars := UserRule.ConfigVars rule in
  let effective_conf :=
    Configuration.Prune (elements effective_vars) (ConfiguredTarget.config key) in
  (* Compute and verify taintedness *)
  match getTainted ∅ (Configuration.Prune param_vars (ConfiguredTarget.config key))
          (TargetData.tainted_expr data) with
  | inl msg => (LogFatal msg, result_map)
  | inr tainted =>
      let tainted := tainted ∪ UserRule.Tainted rule in
      if negb (forallb
                 (fun dep => bool_decide (AnalysedTarget.Tainted dep ⊆ tainted))
                 dependency_values)
      then
        (LogFatal
           "Not tainted with all strings the dependencies are tainted with",
         result_map)
      else
        (* Evaluate string parameters *)
        let param_config :=
          Configuration.Prune param_vars (ConfiguredTarget.config key) in
        match eval_string_fields (UserRule.StringFields rule) data param_config
                (string_fields_fcts deps_by_transition key) params with
        | inl msg => (LogFatal msg, result_map)
        | inr params =>
            (* Evaluate main expression *)
            let expression_config :=
              Configuration.Prune config_vars (ConfiguredTarget.config key) in
            match Evaluate (UserRule.Expression_ rule) expression_config
                    (main_exp_fcts rule params deps_by_transition) no_collected with
            | inl msg =>
                (LogFatal ("While evaluating defining expression of rule:"
                           +:+ String "010"%char msg),
                 result_map)
            | inr (result_t result, collected) =>
                let analysis_result :=
                  AnalysedTarget.mk result (actions collected) (blobs collected)
                    (trees collected) effective_vars tainted in
                let (analysis_result, result_map) :=
                  ResultTargetMap.Add same_key result_map
                    (ConfiguredTarget.target key) effective_conf analysis_result in
                (SetValue analysis_result, result_map)
            | inr (result, _) =>
                (LogFatal ("Defining expression should evaluate to a RESULT, but got: "
                           +:+ ToString result),
                 result_map)
            end
        end
  end.

(** What [withTargetNode] does with its key: it sets the value, logs a fatal
    error, or asks the rule map for a rule, whose continuation goes on with
    [TargetData::FromTargetNode] and [withRuleDefinition]. *)
Inductive ReaderEffect : Type :=
| Set_ (value : AnalysedTarget.t)
| Fatal (msg : string)
| ConsumeRule (rule_name : Expression)
| NoRuleName.

(** [withTargetNode]: the analysis of an anonymous target.  When the rule
    map has no rule for the type of an abstract node, the source logs the
    fatal error and goes on to read the rule name that is not there
    ([NoRuleName]). *)
Definition withTargetNode (key : ConfiguredTarget.t)
  : Exception + list ReaderEffect :=
  match ConfiguredTarget.target key with
  | Named _ => inl bad_variant_access
  | Anonymous rule_map_exp target_node_exp =>
      match target_node_exp, rule_map_exp with
      | node_t target_node, map_t rule_mapping =>
          match target_node with
          | Value val =>
              (* fixed value node, create analysed target from result *)
              match val with
              | result_t result =>
                  inr [Set_ (AnalysedTarget.mk result [] [] [] ∅ ∅)]
              | _ => inl (ExpressionTypeError "Expression is not of type 'result'.")
              end
          | Abstract node_type _ _ =>
              (* abstract target node, lookup rule and instantiate target *)
              match LinkedMap.Find node_type rule_mapping with
              | None =>
                  inr [Fatal ("Cannot resolve type of node "
                              +:+ dump (Node_ToJson target_node)
                              +:+ " via rule map " +:+ ToString rule_map_exp);
                       NoRuleName]
              | Some rule_name => inr [ConsumeRule rule_name]
              end
          end
      | node_t _, _ => inl (ExpressionTypeError "Expression is not of type 'map'.")
      | _, _ => inl (ExpressionTypeError "Expression is not of type 'node'.")
      end
  end.

(** *** The words of the spec

    The notions in which the properties below are stated. *)

Definition string_le (x y : string) : Prop := String.ltb y x = false.

(** An expression that is a list of strings, and its strings. *)
Definition strings_of (e : Expression) : option (list string) :=
  match e with
  | list_t l =>
      (fix strings (l : list Expression) : option (list string) :=
         match l with
         | [] => Some []
         | string_t s :: rest =>
             match strings rest with
             | Some r => Some (s :: r)
             | None => None
             end
         | _ :: _ => None
         end) l
  | _ => None
  end.

Definition raises_EvaluationError {A} (r : Exception + A) : Prop :=
  exists msg, r = inl (EvaluationError msg).

(** What [ACTION] asks of its evaluated arguments. *)
Definition action_outputs_ok (inputs_exp outs_exp out_dirs_exp : Expression)
  : Prop :=
  tree_conflict inputs_exp = None
  /\ exists outs out_dirs,
      strings_of outs_exp = Some outs
      /\ strings_of out_dirs_exp = Some out_dirs
      /\ outs ++ out_dirs <> []
      /\ (forall x, List.In x outs -> ~ List.In x out_dirs).

(** The normalised path names the tree itself. *)
Definition is_dot_path (norm_path : string) : bool :=
  String.eqb norm_path "." || String.eqb norm_path "".

(** The entries that [TREE] stages: the artifacts at their normalised paths,
    in the order of the items. *)
Definition staged_entries (items : list (string * Expression))
  : list (string * ArtifactDescription) :=
  List.flat_map
    (fun item =>
       match snd item with
       | artifact_t a => [(Path.lexically_normal (fst item), a)]
       | _ => []
       end) items.


(** *** The index operators of expression.cpp *)

(** [expr[key]] for a key that is an expression: the key has to be a
    string. *)
Definition Index_key (expr : Expression) (key : ExpressionPtr) : M Expression :=
  s ← String_ key;
  Index expr s.

(** [expr[pos]]: the entry at [pos] when [pos < List().size()], which is
    when [nth_error] finds one. *)
Definition Index_pos (expr : Expression) (pos : nat) : M Expression :=
  l ← List_ expr;
  match List.nth_error l pos with
  | Some value => ret value
  | None =>
      throw (ExpressionTypeError
               ("List pos '" +:+ pretty pos +:+ "' is out of bounds."))
  end.

(** Induction over an expression that also enters the three stages of a
    result, as [ToJson] does. *)
Section ExpressionStagesInduction.
Variable P : Expression -> Prop.
Hypothesis Hnone : P none_t.
Hypothesis Hbool : forall b, P (bool_t b).
Hypothesis Hnumber : forall x, P (number_t x).
Hypothesis Hstring : forall s, P (string_t s).
Hypothesis Hname : forall n, P (name_t n).
Hypothesis Hresult :
  forall a p rf c, P a -> P p -> P rf -> P (result_t (mkTargetResult a p rf c)).
Hypothesis Hnode : forall n, P (node_t n).
Hypothesis Hartifact : forall a, P (artifact_t a).
Hypothesis Hlist : forall l, List.Forall P l -> P (list_t l).
Hypothesis Hmap :
  forall m, List.Forall (fun kv => P (snd kv)) m -> P (map_t m).

Fixpoint Expression_stages_ind (e : Expression) : P e :=
  match e with
  | none_t => Hnone
  | bool_t b => Hbool b
  | number_t x => Hnumber x
  | string_t s => Hstring s
  | name_t n => Hname n
  | result_t (mkTargetResult a p rf c) =>
      Hresult a p rf c (Expression_stages_ind a) (Expression_stages_ind p)
        (Expression_stages_ind rf)
  | node_t n => Hnode n
  | artifact_t a => Hartifact a
  | list_t l =>
      Hlist l
        ((fix go (l : list Expression) : List.Forall P l :=
            match l with
            | [] => @List.Forall_nil _ P
            | x :: r => @List.Forall_cons _ P x r (Expression_stages_ind x) (go r)
            end) l)
  | map_t m =>
      Hmap m
        ((fix go (m : list (string * Expression))
           : List.Forall (fun kv => P (snd kv)) m :=
            match m with
            | [] => @List.Forall_nil _ _
            | kv :: r =>
                @List.Forall_cons _ _ kv r (Expression_stages_ind (snd kv)) (go r)
            end) m)
  end.
End ExpressionStagesInduction.

(** An expression made of JSON data only: none, booleans, numbers, strings,
    lists and maps of such, every map with its items in ascending key order,
    as a linked map holds them. *)
Fixpoint IsJsonData (e : Expression) : Prop :=
  match e with
  | none_t | bool_t _ | number_t _ | string_t _ => True
  | list_t l => List.fold_right (fun x acc => IsJsonData x /\ acc) True l
  | map_t m =>
      Sorted LinkedMap.key_lt m
      /\ List.fold_right (fun kv acc => IsJsonData (snd kv) /\ acc) True m
  | _ => False
  end.

(** *** [TargetData::FromTargetNode] of target_map.cpp *)

(** The loops of [FromTargetNode] over the config fields and over the string
    fields of the rule, which differ in the word [kind] of the message: a
    field that is bound in [target_fields] is logged ([inl]); otherwise its
    expression is the one in [string_fields], or the empty list. *)
Fixpoint node_string_exprs (kind node_type : string) (field_names : list string)
  (string_fields target_fields : LinkedMap.t Expression)
  (exprs : LinkedMap.underlying_map_t Expression)
  : string + LinkedMap.underlying_map_t Expression :=
  match field_names with
  | [] => inr exprs
  | field_name :: rest =>
      match LinkedMap.Find field_name target_fields with
      | Some _ =>
          inl ("Expected " +:+ kind +:+ " field '" +:+ field_name
               +:+ "' in string_fields of abstract node type '" +:+ node_type
               +:+ "', and not in target_fields")
      | None =>
          let expr :=
            default kEmptyList (LinkedMap.Find field_name string_fields) in
          node_string_exprs kind node_type rest string_fields target_fields
            (LinkedMap.emplace field_name expr exprs)
      end
  end.

(** The loop of [FromTargetNode] over the target fields of the rule: every
    node of the field becomes the name of an anonymous target with the rule
    map of the node. *)
Fixpoint node_target_exprs (node_type : string) (field_names : list string)
  (string_fields target_fields : LinkedMap.t Expression)
  (rule_map : ExpressionPtr)
  (exprs : LinkedMap.underlying_map_t Expression)
  : Exception + (string + LinkedMap.underlying_map_t Expression) :=
  match field_names with
  | [] => inr (inr exprs)
  | field_name :: rest =>
      match LinkedMap.Find field_name string_fields with
      | Some _ =>
          inr (inl ("Expected target field '" +:+ field_name
                    +:+ "' in target_fields of abstract node type '" +:+ node_type
                    +:+ "', and not in string_fields"))
      | None =>
          let target_expr :=
            default kEmptyList (LinkedMap.Find field_name target_fields) in
          match target_expr with
          | list_t nodes =>
              let targets :=
                List.map (fun node_expr => name_t (Anonymous rule_map node_expr))
                  nodes in
              node_target_exprs node_type rest string_fields target_fields
                rule_map (LinkedMap.emplace field_name (list_t targets) exprs)
          | _ => inl (ExpressionTypeError "Expression is not of type 'list'.")
          end
      end
  end.

(** [TargetData::FromTargetNode], for the abstract node
    [(node_type, string_fields, target_fields)]: the data of the target,
    or the message logged when it returns no data ([inl]). *)
Definition FromTargetNode (rule : UserRule.t) (node_type : string)
  (string_fields_exp target_fields_exp : Expression) (rule_map : ExpressionPtr)
  : Exception + (string + TargetData.t) :=
  match string_fields_exp, target_fields_exp with
  | map_t string_fields, map_t target_fields =>
      match node_string_exprs "config" node_type (UserRule.ConfigFields rule)
              string_fields target_fields [] with
      | inl msg => inr (inl msg)
      | inr config_exprs =>
          match node_string_exprs "string" node_type (UserRule.StringFields rule)
                  string_fields target_fields [] with
          | inl msg => inr (inl msg)
          | inr string_exprs =>
              match node_target_exprs node_type (UserRule.TargetFields rule)
                      string_fields target_fields rule_map [] with
              | inl e => inl e
              | inr (inl msg) => inr (inl msg)
              | inr (inr target_exprs) =>
                  inr (inr (TargetData.mk [] config_exprs string_exprs
                              target_exprs kEmptyList false))
              end
          end
      end
  | _, _ => inl (ExpressionTypeError "Expression is not of type 'map'.")
  end.

(** *** [withRuleDefinition] of target_map.cpp *)

(** [ParseEntityNameFromExpression] of entity_name.hpp, which is not among
    the embedded sources: the name that an expression denotes relative to
    the current target, or the error it hands to its logger. *)
Variable ParseEntityNameFromExpression :
  Expression -> EntityName -> string + EntityName.

(** [isTransition]: [inl] is the message logged when the answer is no. *)
Definition isTransition (ptr : Expression) : string + unit :=
  match ptr with
  | list_t l =>
      if forallb IsMap l then inr tt
      else inl ("expected list of dicts, but found " +:+ ToString ptr)
  | _ => inl ("expected list, but got " +:+ ToString ptr)
  end.

(** The evaluation of the config fields; [inl] is the message logged. *)
Fixpoint eval_config_fields (fields : list string) (data : TargetData.t)
  (param_config : Configuration.t)
  (params : LinkedMap.underlying_map_t Expression)
  : string + LinkedMap.underlying_map_t Expression :=
  match fields with
  | [] => inr params
  | field_name :: rest =>
      let field_expression :=
        default none_t (LinkedMap.Find field_name (TargetData.config_exprs data)) in
      match Evaluate field_expression param_config [] no_collected with
      | inl msg =>
          inl ("While evaluating config fieled " +:+ field_name +:+ ":"
               +:+ String "010"%char msg)
      | inr (field_value, _) =>
          match field_value with
          | list_t l =>
              match List.find (fun entry => negb (IsString entry)) l with
              | Some _ =>
                  inl ("Config field " +:+ field_name
                       +:+ " should evaluate to a list of strings, but got"
                       +:+ ToString field_value)
              | None =>
                  eval_config_fields rest data param_config
                    (LinkedMap.emplace field_name field_value params)
              end
          | _ =>
              inl ("Config field " +:+ field_name
                   +:+ " should evaluate to a list of strings, but got"
                   +:+ ToString field_value)
          end
      end
  end.

(** The function [FIELD] of the config transitions. *)
Definition config_trans_FIELD (params : LinkedMap.underlying_map_t Expression)
  : FunctionType :=
  fun eval expr env =>
    name_arg ← Index expr "name";
    name ← eval name_arg env;
    match name with
    | string_t s =>
        match LinkedMap.Find s params with
        | Some value => ret value
        | None => throw (EvaluationError ("FIELD " +:+ s +:+ " unknown"))
        end
    | _ =>
        throw (EvaluationError
                 ("FIELD argument 'name' should evaluate to a string, but got "
                  +:+ ToString name))
    end.

Definition config_trans_fcts (params : LinkedMap.underlying_map_t Expression)
  : FunctionMap :=
  [("FIELD", config_trans_FIELD params)].

(** The three loops that evaluate the config transitions, of the target
    fields, of the implicit targets and of the anonymous definitions, which
    differ in the word [what] of the message. *)
Fixpoint eval_transitions (what : string) (names : list string)
  (more : RuleFields.t) (expression_config : Configuration.t)
  (fcts : FunctionMap)
  (config_transitions : LinkedMap.underlying_map_t Expression)
  : Step (LinkedMap.underlying_map_t Expression) :=
  match names with
  | [] => Done config_transitions
  | field_name :: rest =>
      match LinkedMap.Find field_name (RuleFields.ConfigTransitions more) with
      | None => out_of_range
      | Some exp =>
          let transition_logger (msg : string) : string :=
            "While evaluating config transition for " +:+ what +:+ field_name
            +:+ ":" +:+ String "010"%char msg in
          match Evaluate exp expression_config fcts no_collected with
          | inl msg => Logged (transition_logger msg)
          | inr (transition, _) =>
              match isTransition transition with
              | inl msg => Logged (transition_logger msg)
              | inr _ =>
                  eval_transitions what rest more expression_config fcts
                    (LinkedMap.emplace field_name transition config_transitions)
              end
          end
      end
  end.

(** The parsing of the entries of a target field into names. *)
Fixpoint parse_target_names (target_field_name : string) (current : EntityName)
  (deps_names : list Expression) : string + list Expression :=
  match deps_names with
  | [] => inr []
  | dep_name :: rest =>
      match ParseEntityNameFromExpression dep_name current with
      | inl parse_err =>
          inl ("Parsing entry " +:+ ToString dep_name +:+ " in target field "
               +:+ target_field_name +:+ " failed with:"
               +:+ String "010"%char parse_err)
      | inr target =>
          match parse_target_names target_field_name current rest with
          | inl msg => inl msg
          | inr targets => inr (name_t target :: targets)
          end
      end
  end.

(** The inner loop of the requests, over the dependencies of a field under
    one transition: the position is recorded when the field is the target of
    an anonymous definition, and the two keys are appended. *)
Fixpoint request_deps (key : ConfiguredTarget.t) (anon_field : option string)
  (transition : Expression) (deps : list Expression) (r : Requests.t)
  : Exception + Requests.t :=
  match deps with
  | [] => inr r
  | dep :: rest =>
      let positions :=
        match anon_field with
        | Some field_name =>
            push_position field_name (List.length (Requests.dependency_keys r))
              (Requests.anon_positions r)
        | None => Requests.anon_positions r
        end in
      match dep with
      | name_t dep_name =>
          let transitioned_config :=
            Configuration.Update transition (ConfiguredTarget.config key) in
          request_deps key anon_field transition rest
            (Requests.mk
               (Requests.dependency_keys r
                ++ [ConfiguredTarget.mk dep_name transitioned_config])
               (Requests.transition_keys r
                ++ [ConfiguredTarget.mk dep_name (Configuration_of transition)])
               positions)
      | _ => inl (ExpressionTypeError "Expression is not of type 'name'.")
      end
  end.

(** The outer loop of the requests, over the transitions of a field. *)
Fixpoint request_transitions (key : ConfiguredTarget.t)
  (anon_field : option string) (transitions : list Expression)
  (deps : list Expression) (r : Requests.t) : Exception + Requests.t :=
  match transitions with
  | [] => inr r
  | transition :: rest =>
      match request_deps key anon_field transition deps r with
      | inl e => inl e
      | inr r' => request_transitions key anon_field rest deps r'
      end
  end.

(** [anon_positions.find(field_name)]: the field when it has an entry. *)
Definition find_anon_field (field_name : string) (r : Requests.t)
  : option string :=
  if LinkedMap.contains field_name (Requests.anon_positions r)
  then Some field_name else None.

(** [config_transitions[field_name]->List()] *)
Definition transitions_of
  (config_transitions : LinkedMap.underlying_map_t Expression)
  (field_name : string) : Step (list Expression) :=
  match LinkedMap.Find field_name config_transitions with
  | None => Undefined None
  | Some (list_t transitions) => Done transitions
  | Some _ => Thrown (ExpressionTypeError "Expression is not of type 'list'.")
  end.

(** The loop that requests the dependencies of the target fields.  When the
    evaluation of a field fails, the source goes on to read the value that
    is not there. *)
Fixpoint request_target_fields (fields : list string) (data : TargetData.t)
  (key : ConfiguredTarget.t) (param_config : Configuration.t)
  (config_transitions : LinkedMap.underlying_map_t Expression)
  (r : Requests.t) (params : LinkedMap.underlying_map_t Expression)
  : Step (Requests.t * LinkedMap.underlying_map_t Expression) :=
  match fields with
  | [] => Done (r, params)
  | target_field_name :: rest =>
      let deps_expression :=
        default none_t
          (LinkedMap.Find target_field_name (TargetData.target_exprs data)) in
      match Evaluate deps_expression param_config [] no_collected with
      | inl msg =>
          Undefined
            (Some ("While evaluating target parameter " +:+ target_field_name
                   +:+ ":" +:+ String "010"%char msg))
      | inr (deps_names, _) =>
          match deps_names with
          | list_t names =>
              dep_target_exps ←
                (if TargetData.parse_target_names data then
                   match parse_target_names target_field_name
                           (ConfiguredTarget.target key) names with
                   | inl msg => Logged msg
                   | inr targets => Done targets
                   end
                 else Done names);
              let anon_pos := find_anon_field target_field_name r in
              transitions ← transitions_of config_transitions target_field_name;
              match request_transitions key anon_pos transitions dep_target_exps
                      r with
              | inl e => Thrown e
              | inr r' =>
                  request_target_fields rest data key param_config
                    config_transitions r'
                    (LinkedMap.emplace target_field_name (list_t dep_target_exps)
                       params)
              end
          | _ =>
              Logged ("Target parameter " +:+ target_field_name
                      +:+ " should evaluate to a list, but got "
                      +:+ ToString deps_names)
          end
      end
  end.

(** The loop that requests the implicit targets, whose dependencies are
    names already. *)
Fixpoint request_implicit_targets
  (implicit_targets : list (string * list EntityName))
  (key : ConfiguredTarget.t)
  (config_transitions : LinkedMap.underlying_map_t Expression)
  (r : Requests.t) : Step Requests.t :=
  match implicit_targets with
  | [] => Done r
  | (implicit_field_name, implicit_target) :: rest =>
      let anon_pos := find_anon_field implicit_field_name r in
      transitions ← transitions_of config_transitions implicit_field_name;
      match request_transitions key anon_pos transitions
              (List.map name_t implicit_target) r with
      | inl e => Thrown e
      | inr r' => request_implicit_targets rest key config_transitions r'
      end
  end.

(** What [withRuleDefinition] hands to the continuation of its first
    request. *)
Record RuleRequest : Type := mkRuleRequest {
  requests : Requests.t;
  request_params : LinkedMap.underlying_map_t Expression;
  request_transitions_map : LinkedMap.underlying_map_t Expression
}.

(** [withRuleDefinition] up to its first call of the subcaller, which it
    calls with the dependency keys of the requests. *)
Definition withRuleDefinition (rule : UserRule.t) (more : RuleFields.t)
  (data : TargetData.t) (key : ConfiguredTarget.t) : Step RuleRequest :=
  let param_config :=
    Configuration.Prune (TargetData.target_vars data)
      (ConfiguredTarget.config key) in
  (* Evaluate the config_fields *)
  match eval_config_fields (UserRule.ConfigFields rule) data param_config [] with
  | inl msg => Logged msg
  | inr params =>
      (* Evaluate config transitions *)
      let config_trans_fcts := config_trans_fcts params in
      let expression_config :=
        Configuration.Prune (UserRule.ConfigVars rule)
          (ConfiguredTarget.config key) in
      config_transitions ←
        eval_transitions "" (UserRule.TargetFields rule) more expression_config
          config_trans_fcts [];
      config_transitions ←
        eval_transitions "implicit "
          (List.map fst (RuleFields.ImplicitTargets more)) more
          expression_config config_trans_fcts config_transitions;
      config_transitions ←
        eval_transitions "anonymous "
          (List.map fst (RuleFields.AnonymousDefinitions more)) more
          expression_config config_trans_fcts config_transitions;
      (* Request dependencies *)
      let anon_positions :=
        emplace_entries
          (List.map (fun def => (AnonymousDefinition.target (snd def), []))
             (RuleFields.AnonymousDefinitions more)) in
      fields ←
        request_target_fields (UserRule.TargetFields rule) data key param_config
          config_transitions (Requests.mk [] [] anon_positions) params;
      r ←
        request_implicit_targets (RuleFields.ImplicitTargets more) key
          config_transitions (fst fields);
      let params :=
        fold_left (fun u kv => LinkedMap.emplace (fst kv) (snd kv) u)
          (RuleFields.ImplicitTargetExps more) (snd fields) in
      Done (mkRuleRequest r params config_transitions)
  end.

(** The names of the anonymous targets of one definition: for every
    position of its target field, the nodes that the dependency at this
    position provides. *)
Fixpoint provided_names (def : AnonymousDefinition.t)
  (values : list AnalysedTarget.t) (positions : list nat)
  (anon_names : list Expression) : Step (list Expression) :=
  match positions with
  | [] => Done anon_names
  | pos :: rest =>
      match List.nth_error values pos with
      | None => Undefined None
      | Some value =>
          match AnalysedTarget.Provides value with
          | map_t provides =>
              match LinkedMap.Find (AnonymousDefinition.provider def) provides with
              | None =>
                  Logged ("Provider " +:+ AnonymousDefinition.provider def
                          +:+ " in " +:+ AnonymousDefinition.target def
                          +:+ " does not exist")
              | Some exprs =>
                  match exprs with
                  | list_t list =>
                      match List.find (fun node => negb (IsNode node)) list with
                      | Some node =>
                          Logged ("Entry in provider "
                                  +:+ AnonymousDefinition.provider def +:+ " in "
                                  +:+ AnonymousDefinition.target def
                                  +:+ " must be target node but found: "
                                  +:+ ToString node)
                      | None =>
                          provided_names def values rest
                            (anon_names
                             ++ List.map
                                  (fun node =>
                                     name_t
                                       (Anonymous
                                          (AnonymousDefinition.rule_map def) node))
                                  list)
                      end
                  | _ =>
                      Logged ("Provider " +:+ AnonymousDefinition.provider def
                              +:+ " in " +:+ AnonymousDefinition.target def
                              +:+ " must be list of target nodes but found: "
                              +:+ ToString exprs)
                  end
              end
          | _ => Thrown (ExpressionTypeError "Expression is not of type 'map'.")
          end
      end
  end.

(** The loop of the continuation over the anonymous definitions: the keys
    of the anonymous targets are in the dependency keys of [r], and their
    transition keys are appended to those of the first request. *)
Fixpoint request_anonymous (defs : list (string * AnonymousDefinition.t))
  (key : ConfiguredTarget.t)
  (config_transitions : LinkedMap.underlying_map_t Expression)
  (anon_positions : list (string * list nat))
  (values : list AnalysedTarget.t)
  (r : Requests.t) (params : LinkedMap.underlying_map_t Expression)
  : Step (Requests.t * LinkedMap.underlying_map_t Expression) :=
  match defs with
  | [] => Done (r, params)
  | (name, def) :: rest =>
      positions ←
        match LinkedMap.Find (AnonymousDefinition.target def) anon_positions with
        | Some positions => Done positions
        | None => out_of_range
        end;
      anon_names ← provided_names def values positions [];
      transitions ←
        match LinkedMap.Find name config_transitions with
        | None => out_of_range
        | Some (list_t transitions) => Done transitions
        | Some _ =>
            Thrown (ExpressionTypeError "Expression is not of type 'list'.")
        end;
      match request_transitions key None transitions anon_names r with
      | inl e => Thrown e
      | inr r' =>
          request_anonymous rest key config_transitions anon_positions values r'
            (LinkedMap.emplace name (list_t anon_names) params)
      end
  end.

(** The continuation of the first request, called with the values of the
    dependencies, up to its call of the subcaller with the keys of the
    anonymous targets: these keys, all the transition keys, and the
    parameters. *)
Definition withRuleDefinition_anonymous (more : RuleFields.t)
  (key : ConfiguredTarget.t) (request : RuleRequest)
  (values : list AnalysedTarget.t)
  : Step (list ConfiguredTarget.t * list ConfiguredTarget.t
          * LinkedMap.underlying_map_t Expression) :=
  anonymous ←
    request_anonymous (RuleFields.AnonymousDefinitions more) key
      (request_transitions_map request)
      (Requests.anon_positions (requests request)) values
      (Requests.mk [] (Requests.transition_keys (requests request)) [])
      (request_params request);
  Done (Requests.dependency_keys (fst anonymous),
        Requests.transition_keys (fst anonymous), snd anonymous).

(** The continuation of the second request, called with the values of the
    anonymous targets: the dependency values are joined and
    [withDependencies] is called. *)
Definition withRuleDefinition_finish (rule : UserRule.t) (data : TargetData.t)
  (key : ConfiguredTarget.t) (transition_keys : list ConfiguredTarget.t)
  (params : LinkedMap.underlying_map_t Expression)
  (dependency_values anonymous_values : list AnalysedTarget.t)
  (result_map : ResultTargetMap.t)
  : Outcome AnalysedTarget.t * ResultTargetMap.t :=
  withDependencies transition_keys (dependency_values ++ anonymous_values)
    rule data key params result_map.

(** The two keys that a dependency gets under a transition: the key under
    which it is requested, in the configuration of the target updated by the
    transition, and the key under which [withDependencies] finds it, in the
    configuration that the transition describes. *)
Definition dependency_key (key : ConfiguredTarget.t)
  (dep : EntityName * Expression) : ConfiguredTarget.t :=
  ConfiguredTarget.mk (fst dep)
    (Configuration.Update (snd dep) (ConfiguredTarget.config key)).

Definition transition_key (dep : EntityName * Expression) : ConfiguredTarget.t :=
  ConfiguredTarget.mk (fst dep) (Configuration_of (snd dep)).

(** Every recorded position is the position of a dependency key. *)
Definition positions_in_range (r : Requests.t) : Prop :=
  List.Forall
    (fun entry =>
       List.Forall (fun pos => pos < List.length (Requests.dependency_keys r))
         (snd entry))
    (Requests.anon_positions r).

(** Every config transition is a list of maps. *)
Definition are_transitions
  (config_transitions : LinkedMap.underlying_map_t Expression) : Prop :=
  List.Forall
    (fun entry => exists l, snd entry = list_t l /\ forallb IsMap l = true)
    config_transitions.
(** *** The order of byte strings *)

Lemma string_ltb_lts a b : String.ltb a b = true <-> String_as_OT.lt a b.
Proof.
  unfold String.ltb. rewrite <- String_as_OT.cmp_lt.
  change (String_as_OT.cmp a b) with (String.compare a b).
  destruct (String.compare a b); split; congruence.
Qed.

Lemma string_lt_trans a b c : StrOrd.lt a b -> StrOrd.lt b c -> StrOrd.lt a c.
Proof.
  unfold StrOrd.lt. rewrite !string_ltb_lts. apply String_as_OT.lt_trans.
Qed.

Lemma string_lt_irrefl a : ~ StrOrd.lt a a.
Proof.
  unfold StrOrd.lt. rewrite string_ltb_lts. intros H.
  exact (String_as_OT.lt_not_eq _ _ H Logic.eq_refl).
Qed.

Lemma string_ltb_irrefl a : String.ltb a a = false.
Proof.
  destruct (String.ltb a a) eqn:E; [|reflexivity].
  exfalso. exact (string_lt_irrefl a E).
Qed.

Lemma string_lt_asym a b : StrOrd.lt a b -> ~ StrOrd.lt b a.
Proof. intros H1 H2. exact (string_lt_irrefl a (string_lt_trans _ _ _ H1 H2)). Qed.

Lemma string_ltb_total a b :
  String.ltb a b = false -> String.ltb b a = false -> a = b.
Proof.
  unfold String.ltb. intros H1 H2.
  apply String.compare_eq_iff.
  pose proof (String.compare_antisym a b) as Ha.
  destruct (String.compare a b); [reflexivity|discriminate|].
  destruct (String.compare b a); simpl in Ha; discriminate.
Qed.

(** *** Linked maps *)

Section LinkedMapFacts.
Context {V : Type}.

Lemma LinkedMap_insert_item_perm (kv : string * V) (items : LinkedMap.t V) :
  Permutation (LinkedMap.insert_item kv items) (kv :: items).
Proof.
  induction items as [|kv' r IH]; simpl; [reflexivity|].
  destruct (String.ltb (fst kv) (fst kv')); [reflexivity|].
  rewrite IH. apply perm_swap.
Qed.

Lemma LinkedMap_make_perm (m : LinkedMap.underlying_map_t V) :
  Permutation (LinkedMap.make m) m.
Proof.
  induction m as [|kv r IH]; simpl; [reflexivity|].
  rewrite LinkedMap_insert_item_perm. now constructor.
Qed.

Lemma LinkedMap_HdRel_insert_item (a kv : string * V) (items : LinkedMap.t V) :
  LinkedMap.key_lt a kv -> HdRel LinkedMap.key_lt a items -> HdRel LinkedMap.key_lt a (LinkedMap.insert_item kv items).
Proof.
  intros Hk Hh. destruct items as [|kv' r]; simpl; [now constructor|].
  destruct (String.ltb (fst kv) (fst kv')); constructor; [assumption|].
  now inversion Hh.
Qed.

Lemma LinkedMap_insert_item_sorted (kv : string * V) (items : LinkedMap.t V) :
  ~ List.In (fst kv) (LinkedMap.keys items) ->
  Sorted LinkedMap.key_lt items -> Sorted LinkedMap.key_lt (LinkedMap.insert_item kv items).
Proof.
  induction items as [|kv' r IH]; simpl; intros Hn Hs.
  - repeat constructor.
  - destruct (String.ltb (fst kv) (fst kv')) eqn:E.
    + constructor; [assumption|]. constructor. exact E.
    + inversion Hs as [|? ? Hr Hh]; subst.
      constructor.
      * apply IH; [props|assumption].
      * apply LinkedMap_HdRel_insert_item; [|assumption].
        unfold LinkedMap.key_lt, StrOrd.lt.
        destruct (String.ltb (fst kv') (fst kv)) eqn:E'; [reflexivity|].
        exfalso. apply Hn. left. now apply string_ltb_total.
Qed.

Lemma LinkedMap_make_sorted (m : LinkedMap.underlying_map_t V) :
  List.NoDup (LinkedMap.keys m) -> Sorted LinkedMap.key_lt (LinkedMap.make m).
Proof.
  induction m as [|kv r IH]; simpl; intros Hnd; [constructor|].
  inversion Hnd as [|? ? Hni Hnd']; subst.
  apply LinkedMap_insert_item_sorted; [|now apply IH].
  intros Hin. apply Hni.
  unfold LinkedMap.keys in *.
  eapply Permutation_in; [|exact Hin].
  apply Permutation_map, LinkedMap_make_perm.
Qed.

Lemma LinkedMap_key_lt_trans (a b c : string * V) :
  LinkedMap.key_lt a b -> LinkedMap.key_lt b c -> LinkedMap.key_lt a c.
Proof. unfold LinkedMap.key_lt. apply string_lt_trans. Qed.

Lemma LinkedMap_Sorted_key_lt_Forall (a : string * V) (l : LinkedMap.t V) :
  Sorted LinkedMap.key_lt (a :: l) -> List.Forall (LinkedMap.key_lt a) l.
Proof.
  intros Hs. apply Sorted_StronglySorted in Hs.
  - now inversion Hs.
  - intros x y z. apply LinkedMap_key_lt_trans.
Qed.

(** A list of items in strictly ascending key order is determined by its
      set of items. *)
Lemma LinkedMap_sorted_perm_eq (l1 l2 : LinkedMap.t V) :
  Sorted LinkedMap.key_lt l1 -> Sorted LinkedMap.key_lt l2 -> Permutation l1 l2 -> l1 = l2.
Proof.
  revert l2. induction l1 as [|a l1 IH]; intros l2 H1 H2 Hp.
  - now apply Permutation_nil in Hp.
  - destruct l2 as [|b l2].
    + symmetry in Hp. now apply Permutation_nil in Hp.
    + assert (Hab : a = b).
      { pose proof (LinkedMap_Sorted_key_lt_Forall _ _ H1) as F1.
        pose proof (LinkedMap_Sorted_key_lt_Forall _ _ H2) as F2.
        rewrite List.Forall_forall in F1, F2.
        assert (Ha : List.In a (b :: l2))
          by (eapply Permutation_in; [exact Hp|now left]).
        assert (Hb : List.In b (a :: l1))
          by (eapply Permutation_in; [symmetry; exact Hp|now left]).
        destruct Ha as [Ha|Ha]; [now symmetry|].
        destruct Hb as [Hb|Hb]; [assumption|].
        exfalso. exact (string_lt_asym _ _ (F1 _ Hb) (F2 _ Ha)). }
      subst b. f_equal.
      apply IH.
      * now inversion H1.
      * now inversion H2.
      * now apply Permutation_cons_inv in Hp.
Qed.

(** The order of insertion is irrelevant. *)
Lemma LinkedMap_make_perm_eq (m1 m2 : LinkedMap.underlying_map_t V) :
  List.NoDup (LinkedMap.keys m1) -> Permutation m1 m2 -> LinkedMap.make m1 = LinkedMap.make m2.
Proof.
  intros Hnd Hp.
  assert (Hnd2 : List.NoDup (LinkedMap.keys m2)).
  { eapply Permutation_NoDup; [|exact Hnd]. now apply Permutation_map. }
  apply LinkedMap_sorted_perm_eq; try now apply LinkedMap_make_sorted.
  rewrite !LinkedMap_make_perm. exact Hp.
Qed.

Lemma LinkedMap_Find_Some_In k (v : V) m :
  LinkedMap.Find k m = Some v -> List.In (k, v) m.
Proof.
  induction m as [|[k' v'] r IH]; simpl; [discriminate|].
  destruct (String.eqb_spec k k') as [->|Hne].
  - intros [= ->]. now left.
  - intros H. right. now apply IH.
Qed.

Lemma LinkedMap_In_Find k (v : V) m :
  List.NoDup (LinkedMap.keys m) -> List.In (k, v) m ->
  LinkedMap.Find k m = Some v.
Proof.
  induction m as [|[k' v'] r IH]; simpl; [props|].
  intros Hnd Hin. inversion Hnd as [|? ? Hni Hnd']; subst.
  destruct Hin as [[= -> ->]|Hin].
  - now rewrite String.eqb_refl.
  - destruct (String.eqb_spec k k') as [->|Hne]; [|now apply IH].
    exfalso. apply Hni. unfold LinkedMap.keys.
    change k' with (fst (k', v)). now apply List.in_map.
Qed.

Lemma LinkedMap_NoDup_keys_NoDup (m : list (string * V)) :
  List.NoDup (LinkedMap.keys m) -> List.NoDup m.
Proof. apply List.NoDup_map_inv. Qed.

(** Two unordered maps with the same bindings have the same entries. *)
Lemma LinkedMap_same_bindings_perm (m1 m2 : LinkedMap.underlying_map_t V) :
  List.NoDup (LinkedMap.keys m1) -> List.NoDup (LinkedMap.keys m2) ->
  (forall k, LinkedMap.Find k m1 = LinkedMap.Find k m2) -> Permutation m1 m2.
Proof.
  intros H1 H2 Hf.
  apply Permutation.NoDup_Permutation; try now apply LinkedMap_NoDup_keys_NoDup.
  intros [k v]; split; intros Hin.
  - apply LinkedMap_Find_Some_In. rewrite <- Hf. now apply LinkedMap_In_Find.
  - apply LinkedMap_Find_Some_In. rewrite Hf. now apply LinkedMap_In_Find.
Qed.

Lemma LinkedMap_Find_make k (m : LinkedMap.underlying_map_t V) :
  List.NoDup (LinkedMap.keys m) ->
  LinkedMap.Find k (LinkedMap.make m) = LinkedMap.Find k m.
Proof.
  intros Hnd.
  assert (Hnd' : List.NoDup (LinkedMap.keys (LinkedMap.make m))).
  { eapply Permutation_NoDup; [|exact Hnd].
    symmetry. apply Permutation_map, LinkedMap_make_perm. }
  destruct (LinkedMap.Find k m) as [v|] eqn:E.
  - apply LinkedMap_In_Find; [assumption|].
    eapply Permutation_in; [symmetry; apply LinkedMap_make_perm|].
    now apply LinkedMap_Find_Some_In.
  - destruct (LinkedMap.Find k (LinkedMap.make m)) as [v|] eqn:E'; [|reflexivity].
    apply LinkedMap_Find_Some_In in E'.
    eapply Permutation_in in E'; [|apply LinkedMap_make_perm].
    apply LinkedMap_In_Find in E'; [congruence|assumption].
Qed.

End LinkedMapFacts.

Lemma LinkedMap_make_map_values {A B : Type} (f : A -> B) (m : LinkedMap.underlying_map_t A) :
  LinkedMap.make (List.map (fun kv => (fst kv, f (snd kv))) m)
  = List.map (fun kv => (fst kv, f (snd kv))) (LinkedMap.make m).
Proof.
  induction m as [|kv r IH]; simpl; [reflexivity|].
  rewrite IH. generalize (LinkedMap.make r). clear.
  intros items. induction items as [|kv' r IH]; simpl; [reflexivity|].
  destruct (String.ltb (fst kv) (fst kv')); simpl; [reflexivity|].
  now rewrite IH.
Qed.

(** *** Numbers *)

Lemma Number_eqb_refl x : Number.is_nan x = false -> Number.eqb x x = true.
Proof.
  unfold Number.eqb, SFeqb. destruct x as [s|s| |s m e]; simpl; try discriminate;
    intros _; try reflexivity.
  - now destruct s.
  - rewrite Z.compare_refl.
    change (Pos.compare_cont Eq m m) with (Pos.compare m m).
    rewrite Pos.compare_refl. now destruct s.
Qed.

Lemma Number_shr_1_nonneg mrs :
  Number.shr_nonneg mrs -> Number.shr_nonneg (shr_1 mrs).
Proof.
  unfold Number.shr_nonneg. destruct mrs as [m r s]; simpl.
  destruct m as [|p|p]; [|destruct p|destruct p]; simpl; lia.
Qed.

Lemma Number_iter_pos_inv {A} (P : A -> Prop) (f : A -> A) :
  (forall x, P x -> P (f x)) -> forall n x, P x -> P (@SpecFloat.iter_pos A f n x).
Proof.
  intros Hf. induction n as [n IH|n IH|]; simpl; intros x Hx; auto.
Qed.

Lemma Number_shr_fexp_nonneg m e l :
  (0 <= m)%Z -> Number.shr_nonneg (fst (shr_fexp Number.prec Number.emax m e l)).
Proof.
  intros Hm. unfold shr_fexp, shr.
  assert (H0 : Number.shr_nonneg (shr_record_of_loc m l)).
  { unfold Number.shr_nonneg. destruct l as [|[]]; simpl; assumption. }
  destruct (fexp Number.prec Number.emax (Zdigits2 m + e) - e)%Z; simpl; try assumption.
  apply Number_iter_pos_inv; [apply Number_shr_1_nonneg|assumption].
Qed.

Lemma Number_round_nearest_even_nonneg m l :
  (0 <= m)%Z -> (0 <= round_nearest_even m l)%Z.
Proof.
  intros Hm. unfold round_nearest_even.
  destruct l as [|[]]; try destruct (Z.even m); lia.
Qed.

Lemma Number_binary_round_aux_not_nan s m e l :
  (0 <= m)%Z -> Number.is_nan (binary_round_aux Number.prec Number.emax s m e l) = false.
Proof.
  intros Hm. unfold binary_round_aux.
  pose proof (Number_shr_fexp_nonneg m e l Hm) as H1.
  destruct (shr_fexp Number.prec Number.emax m e l) as [mrs' e'] eqn:E1. simpl in H1.
  pose proof (Number_shr_fexp_nonneg
                (round_nearest_even (shr_m mrs') (loc_of_shr_record mrs'))
                e' loc_Exact (Number_round_nearest_even_nonneg _ _ H1)) as H2.
  destruct (shr_fexp Number.prec Number.emax _ e' loc_Exact) as [mrs'' e''] eqn:E2.
  simpl in H2. unfold Number.shr_nonneg in H2.
  destruct (shr_m mrs'') as [|p|p]; simpl; [reflexivity| |lia].
  now destruct (e'' <=? Number.emax - Number.prec)%Z.
Qed.

(** Converting an integer never yields a NaN. *)
Lemma Number_of_Z_not_nan n : Number.is_nan (Number.of_Z n) = false.
Proof.
  unfold Number.of_Z, binary_normalize.
  destruct n as [|p|p]; [reflexivity| |]; unfold binary_round;
    destruct (shl_align _ _ _) as [mz ez];
    apply Number_binary_round_aux_not_nan; lia.
Qed.

Lemma Number_is_finite_not_nan x :
  Number.is_finite x = true -> Number.is_nan x = false.
Proof. now destruct x. Qed.

(** *** Properties of the expression *)

Lemma Node_hash_ComputeHash (n : TargetNode) :
  ComputeHash (node_t n) = Some (Node_hash n).
Proof. reflexivity. Qed.

Lemma update_list_feed hasher l :
  update_list ComputeHash hasher l = feed hasher (List.map ToHash l).
Proof.
  revert hasher. induction l as [|el rest IH]; intros hasher; simpl.
  - reflexivity.
  - unfold ToHash at 1. destruct (ComputeHash el); [apply IH|reflexivity].
Qed.

Lemma update_map_feed hasher m :
  update_map ComputeHash hasher m = feed hasher (map_parts m).
Proof.
  revert hasher. induction m as [|el rest IH]; intros hasher; simpl.
  - reflexivity.
  - unfold ToHash at 1. destruct (ComputeHash (snd el)); [apply IH|reflexivity].
Qed.

Lemma map_of_same_bindings (u1 u2 : LinkedMap.underlying_map_t Expression) :
  List.NoDup (LinkedMap.keys u1) -> List.NoDup (LinkedMap.keys u2) ->
  (forall k, LinkedMap.Find k u1 = LinkedMap.Find k u2) ->
  map_of u1 = map_of u2.
Proof.
  intros H1 H2 Hsame. unfold map_of. f_equal.
  apply LinkedMap_make_perm_eq; [assumption|].
  now apply LinkedMap_same_bindings_perm.
Qed.

(** C1.  Two maps built from unordered maps with the same bindings, whatever
    the order of insertion, have the same hash: the hash of a map is the
    digest of ["{"] followed, for each item in ascending key order, by the
    digest of the key and the hash of the value; the hash of a list is the
    digest of ["["] followed by the hashes of its elements in list order. *)
Theorem ToHash_insertion_order_irrelevant
  (u1 u2 : LinkedMap.underlying_map_t Expression) (l : list Expression)
  (Hkeys1 : List.NoDup (LinkedMap.keys u1))
  (Hkeys2 : List.NoDup (LinkedMap.keys u2))
  (Hsame : forall k, LinkedMap.Find k u1 = LinkedMap.Find k u2) :
  ToHash (map_of u1) = ToHash (map_of u2)
  /\ (exists items,
         map_of u1 = map_t items
         /\ Permutation items u1
         /\ Sorted LinkedMap.key_lt items
         /\ ToHash (map_t items) = digest_of_feed "{" (map_parts items))
  /\ ToHash (list_t l) = digest_of_feed "[" (List.map ToHash l).
Proof.
  split; [|split].
  - now rewrite (map_of_same_bindings u1 u2).
  - exists (LinkedMap.make u1). split; [reflexivity|].
    split; [apply LinkedMap_make_perm|].
    split; [now apply LinkedMap_make_sorted|].
    unfold ToHash at 1, digest_of_feed. simpl.
    now rewrite update_map_feed.
  - unfold ToHash at 1, digest_of_feed. simpl.
    now rewrite update_list_feed.
Qed.

Lemma forallb_false_exists {A} (f : A -> bool) (l : list A) :
  forallb f l = false -> exists x, List.In x l /\ f x = false.
Proof.
  induction l as [|a r IH]; simpl; [discriminate|].
  destruct (f a) eqn:E; simpl.
  - intros H. destruct (IH H) as (x & Hin & Hx). exists x. props.
  - intros _. exists a. props.
Qed.

Lemma forallb_false_intro {A} (f : A -> bool) (l : list A) x :
  List.In x l -> f x = false -> forallb f l = false.
Proof.
  intros Hin Hx. destruct (forallb f l) eqn:E; [|reflexivity].
  rewrite forallb_forall in E. rewrite (E x Hin) in Hx. discriminate.
Qed.

Lemma IsCacheable_false_contains (e : Expression) :
  IsCacheable e = false -> ContainsNonCacheable e.
Proof.
  induction e as [ | | | | n | r | n | a | l IH | m IH ]
    using Expression_nested_ind; simpl; try discriminate; intros H.
  - constructor.
  - now constructor.
  - now constructor.
  - apply forallb_false_exists in H. destruct H as (x & Hin & Hx).
    rewrite List.Forall_forall in IH.
    apply cnc_list with x; auto.
  - apply forallb_false_exists in H. destruct H as ([k x] & Hin & Hx).
    rewrite List.Forall_forall in IH.
    apply cnc_map with k x; [assumption|]. exact (IH _ Hin Hx).
Qed.

Lemma contains_IsCacheable_false (e : Expression) :
  ContainsNonCacheable e -> IsCacheable e = false.
Proof.
  induction 1 as [n|r Hr|n Hn|l e Hin _ IH|m k e Hin _ IH]; simpl; auto.
  - now apply forallb_false_intro with e.
  - now apply forallb_false_intro with (k, e).
Qed.

(** C2.  [IsCacheable] returns false exactly when the expression contains,
    through list elements and map values at any depth, an entity name, a
    target result whose [is_cacheable] is false, or a non-cacheable target
    node. *)
Theorem IsCacheable_false_iff (e : Expression) :
  IsCacheable e = false <-> ContainsNonCacheable e.
Proof.
  split.
  - apply IsCacheable_false_contains.
  - apply contains_IsCacheable_false.
Qed.

(** *** The round trip through JSON *)

Lemma Find_not_in {V} k (m : list (string * V)) :
  ~ List.In k (LinkedMap.keys m) -> LinkedMap.Find k m = None.
Proof.
  induction m as [|[k' v] r IH]; simpl; [reflexivity|].
  intros Hn. destruct (String.eqb_spec k k') as [->|Hne]; [props|].
  apply IH. props.
Qed.

Lemma emplace_entries_acc {V} (l acc : list (string * V)) :
  List.NoDup (LinkedMap.keys (acc ++ l)) ->
  fold_left (fun u kv => LinkedMap.emplace (fst kv) (snd kv) u) l acc = acc ++ l.
Proof.
  revert acc. induction l as [|[k v] r IH]; intros acc Hnd; simpl.
  - now rewrite List.app_nil_r.
  - unfold LinkedMap.emplace at 2, LinkedMap.contains.
    rewrite Find_not_in.
    + rewrite IH; rewrite <- List.app_assoc; [reflexivity|exact Hnd].
    + unfold LinkedMap.keys in Hnd. rewrite List.map_app in Hnd.
      apply List.NoDup_remove_2 in Hnd. intros Hin. apply Hnd.
      apply List.in_or_app. now left.
Qed.

(** With pairwise different keys every entry is taken. *)
Lemma emplace_entries_nodup {V} (l : list (string * V)) :
  List.NoDup (LinkedMap.keys l) -> emplace_entries l = l.
Proof. intros Hnd. unfold emplace_entries. now rewrite emplace_entries_acc. Qed.

Lemma json_emplace_perm k v o :
  ~ List.In k (List.map fst o) -> Permutation (Json.emplace k v o) ((k, v) :: o).
Proof.
  induction o as [|[k' v'] r IH]; simpl; intros Hn; [reflexivity|].
  destruct (String.ltb k k'); [reflexivity|].
  destruct (String.eqb_spec k k') as [->|Hne]; [props|].
  rewrite IH by props. apply perm_swap.
Qed.

Lemma json_emplace_all_acc (l acc : list (string * json)) :
  List.NoDup (List.map fst (acc ++ l)) ->
  Permutation (fold_left (fun o kv => Json.emplace (fst kv) (snd kv) o) l acc)
              (acc ++ l).
Proof.
  revert acc. induction l as [|[k v] r IH]; intros acc Hnd; simpl.
  - now rewrite List.app_nil_r.
  - assert (Hk : ~ List.In k (List.map fst acc)).
    { rewrite List.map_app in Hnd. apply List.NoDup_remove_2 in Hnd.
      intros Hin. apply Hnd. apply List.in_or_app. now left. }
    pose proof (json_emplace_perm k v acc Hk) as Hp.
    rewrite IH.
    + rewrite Hp. simpl. apply Permutation_middle.
    + eapply Permutation_NoDup; [|exact Hnd].
      apply Permutation_map. rewrite Hp. simpl.
      symmetry. apply Permutation_middle.
Qed.

(** The members of an object built from items with pairwise different keys
    are these items. *)
Lemma json_emplace_all_perm (l : list (string * json)) :
  List.NoDup (List.map fst l) -> Permutation (Json.emplace_all l) l.
Proof. intros Hnd. unfold Json.emplace_all. now rewrite json_emplace_all_acc. Qed.

(** *** Integers that are doubles *)










Lemma json_eqb_array (g : json -> json) (l : list json) :
  List.Forall (fun x => Json.eqb (g x) x = true) l ->
  Json.eqb (j_array (List.map g l)) (j_array l) = true.
Proof.
  induction 1 as [|x r Hx _ IH]; simpl; [reflexivity|].
  rewrite Hx. exact IH.
Qed.

Lemma json_eqb_object (g : json -> json) (o m : list (string * json)) :
  Permutation o (List.map (fun kv => (fst kv, g (snd kv))) m) ->
  List.Forall (fun kv => Json.eqb (g (snd kv)) (snd kv) = true) m ->
  Json.eqb (j_object o) (j_object m) = true.
Proof.
  intros Hp Hall. rewrite List.Forall_forall in Hall. simpl.
  apply andb_true_intro; split; apply forallb_forall.
  - intros kva Hin.
    eapply Permutation_in in Hin; [|exact Hp].
    apply List.in_map_iff in Hin. destruct Hin as (kvb & <- & Hin).
    apply existsb_exists. exists kvb. split; [assumption|]. simpl.
    rewrite String.eqb_refl. now apply Hall.
  - intros kvb Hin.
    apply existsb_exists. exists (fst kvb, g (snd kvb)). split.
    + eapply Permutation_in; [symmetry; exact Hp|].
      apply List.in_map_iff. now exists kvb.
    + simpl. rewrite String.eqb_refl. now apply Hall.
Qed.

Lemma json_wf_array l :
  Json.wf (j_array l) -> List.Forall Json.wf l.
Proof.
  induction l as [|x r IH]; simpl; intros H; constructor; [props|].
  apply IH. simpl. props.
Qed.

Lemma json_wf_object m :
  Json.wf (j_object m) ->
  List.NoDup (List.map fst m) /\ List.Forall (fun kv => Json.wf (snd kv)) m.
Proof.
  simpl. intros [Hnd H]. split; [assumption|]. clear Hnd.
  induction m as [|kv r IH]; simpl in *; constructor; props.
Qed.

Lemma map_fst_map_snd {A B} (f : A -> B) (m : list (string * A)) :
  List.map fst (List.map (fun kv => (fst kv, f (snd kv))) m) = List.map fst m.
Proof. rewrite List.map_map. now apply List.map_ext. Qed.

(** Under [operator==] of the library, [ToJson] of [FromJson] compares equal
    to a JSON value without non-finite numbers, whatever its integers are:
    this comparison converts an integer to a double before it compares it
    with a double, as [FromJson] does, and so does not tell whether the
    integer came back. *)
Lemma ToJson_FromJson_roundtrip (mode : JsonMode) (j : json)
  (Hwf : Json.wf j) (Hfinite : Json.finite j = true) :
  Json.eqb (ToJson mode (FromJson j)) j = true.
Proof.
  revert Hwf Hfinite.
  induction j as [ |b|n|n|x|s|l IH|m IH] using Json.json_nested_ind;
    intros Hwf Hfinite.
  - reflexivity.
  - simpl. now destruct b.
  - simpl. apply Number_eqb_refl, Number_of_Z_not_nan.
  - simpl. apply Number_eqb_refl, Number_of_Z_not_nan.
  - simpl. apply Number_eqb_refl, Number_is_finite_not_nan. exact Hfinite.
  - simpl. apply String.eqb_refl.
  - change (ToJson mode (FromJson (j_array l)))
      with (j_array (List.map (ToJson mode) (List.map FromJson l))).
    rewrite List.map_map. apply json_eqb_array.
    apply json_wf_array in Hwf. simpl in Hfinite.
    rewrite forallb_forall in Hfinite.
    rewrite List.Forall_forall in IH, Hwf |- *.
    intros x Hin. apply IH; auto.
  - apply json_wf_object in Hwf. destruct Hwf as [Hnd Hwf].
    simpl in Hfinite. rewrite forallb_forall in Hfinite.
    set (u := List.map (fun el => (fst el, FromJson (snd el))) m).
    assert (Hu : List.NoDup (LinkedMap.keys u))
      by (unfold LinkedMap.keys, u; rewrite (map_fst_map_snd FromJson m); exact Hnd).
    change (FromJson (j_object m)) with (map_of (emplace_entries u)).
    rewrite (emplace_entries_nodup u Hu). unfold map_of.
    change (ToJson mode (map_t (LinkedMap.make u)))
      with (j_object
              (Json.emplace_all
                 (List.map (fun p => (fst p, ToJson mode (snd p)))
                    (LinkedMap.make u)))).
    apply json_eqb_object with (g := fun v => ToJson mode (FromJson v)).
    + assert (Hp : Permutation
                     (List.map (fun p => (fst p, ToJson mode (snd p)))
                        (LinkedMap.make u))
                     (List.map (fun kv => (fst kv, ToJson mode (FromJson (snd kv)))) m)).
      { rewrite (LinkedMap_make_perm u). unfold u. rewrite List.map_map.
        reflexivity. }
      rewrite json_emplace_all_perm; [exact Hp|].
      eapply Permutation_NoDup; [|exact Hnd].
      rewrite Hp.
      now rewrite (map_fst_map_snd (fun v => ToJson mode (FromJson v)) m).
    + rewrite List.Forall_forall in IH, Hwf |- *.
      intros kv Hin. apply IH; auto.
Qed.


(** *** Totality of [FromJson] *)

(** Counterexample to C7: an infinite number is not rejected; it becomes a
    number expression, not the none expression. *)
Lemma FromJson_infinity_is_number :
  FromJson (j_number_float (S754_infinity false)) = number_t (S754_infinity false)
  /\ IsNumber (FromJson (j_number_float (S754_infinity false))) = true
  /\ IsNone (FromJson (j_number_float (S754_infinity false))) = false
  /\ Number.is_finite (S754_infinity false) = false.
Proof. repeat split. Qed.

(** C7, amended.  [FromJson] is total: every JSON value has an expression,
    whose variant is fixed by the kind of the value; a number, finite or not,
    becomes the number expression of its value as a double, and only the JSON
    null becomes the none expression. *)
Theorem FromJson_total (j : json) :
  exists e : Expression,
    FromJson j = e
    /\ IsNone e = Json.is_null j
    /\ IsBool e = Json.is_boolean j
    /\ IsNumber e = Json.is_number j
    /\ IsString e = Json.is_string j
    /\ IsList e = Json.is_array j
    /\ IsMap e = Json.is_object j
    /\ (forall x, j = j_number_float x -> e = number_t x)
    /\ (forall n, j = j_number_integer n \/ j = j_number_unsigned n ->
                  e = number_t (Number.of_Z n)).
Proof.
  exists (FromJson j). split; [reflexivity|].
  destruct j; simpl; repeat split;
    try (intros ? [H|H]); try (intros ? H); congruence.
Qed.

(** *** The readers of the JSON file maps *)

Lemma fails_LogFatal {V} (msg : string) : fails (@LogFatal V msg).
Proof. now exists msg. Qed.

Lemma SetValue_not_fails {V} (v : V) : ~ fails (SetValue v).
Proof. intros [msg H]. discriminate. Qed.

(** C8.  For a key whose repository has a root and a file name: the reader
    fails when the normalised module path is absolute or begins with [".."];
    otherwise, when the file does not exist, it fails if the map is mandatory
    and else sets the empty object; when the file exists, it sets a value
    exactly when the content can be read and parses to an object, that
    object being the value, and fails otherwise. *)
Theorem json_file_reader_cases
  (get_root : string -> option FileRoot.t) (get_name : string -> option string)
  (kMandatory : bool) (key : ModuleName.t)
  (root : FileRoot.t) (json_file_name : string)
  (Hroot : get_root (ModuleName.repository key) = Some root)
  (Hname : get_name (ModuleName.repository key) = Some json_file_name) :
  let module := Path.lexically_normal (ModuleName.module key) in
  let json_file_path := Path.append module json_file_name in
  let outcome := json_file_reader get_root get_name kMandatory key in
  let parses_to (value : json) :=
    exists content,
      FileRoot.ReadFile root json_file_path = Some content
      /\ json_parse content = Some value
      /\ Json.is_object value = true in
  (Path.is_absolute module = true \/ Path.begin module = ".." -> fails outcome)
  /\ (Path.is_absolute module = false -> Path.begin module <> ".." ->
      (FileRoot.IsFile root json_file_path = false ->
       if kMandatory then fails outcome else outcome = SetValue Json.object)
      /\ (FileRoot.IsFile root json_file_path = true ->
          (forall value, outcome = SetValue value <-> parses_to value)
          /\ ((forall value, ~ parses_to value) -> fails outcome))).
Proof.
  intros module json_file_path outcome parses_to.
  subst outcome. unfold json_file_reader. rewrite Hroot, Hname.
  fold module. fold json_file_path.
  split.
  - intros [Habs|Hdots].
    + rewrite Habs. apply fails_LogFatal.
    + rewrite Hdots. rewrite orb_true_r. apply fails_LogFatal.
  - intros Habs Hdots. rewrite Habs.
    destruct (String.eqb_spec (Path.begin module) "..") as [E|_]; [props|].
    simpl. split.
    + intros Hfile. rewrite Hfile. simpl.
      destruct kMandatory; [apply fails_LogFatal|reflexivity].
    + intros Hfile. rewrite Hfile. simpl. subst parses_to. simpl.
      destruct (FileRoot.ReadFile root json_file_path) as [content|] eqn:Eread.
      * destruct (json_parse content) as [json|] eqn:Eparse.
        -- destruct (Json.is_object json) eqn:Eobj; simpl.
           ++ split.
              ** intros value. split.
                 --- intros [= <-]. now exists content.
                 --- intros (content' & [= <-] & Hp & _). congruence.
              ** intros Hno. exfalso. apply (Hno json). now exists content.
           ++ split.
              ** intros value. split; [discriminate|].
                 intros (content' & [= <-] & Hp & Ho). congruence.
              ** intros _. apply fails_LogFatal.
        -- split.
           ++ intros value. split; [discriminate|].
              intros (content' & [= <-] & Hp & _). congruence.
           ++ intros _. apply fails_LogFatal.
      * split.
        -- intros value. split; [discriminate|].
           intros (content' & Hc & _). discriminate.
        -- intros _. apply fails_LogFatal.
Qed.

(** *** Anonymous targets *)

(** C10.  The analysis of an anonymous target whose node is a value node
    sets the value at once, with no request for a rule or a dependency: the
    analysed target holds the result stored in the node, and no action, blob,
    tree, effective variable or taint. *)
Theorem withTargetNode_value_node
  (key : ConfiguredTarget.t) (rule_mapping : LinkedMap.t Expression)
  (result : TargetResult)
  (Hkey : ConfiguredTarget.target key
          = Anonymous (map_t rule_mapping) (node_t (Value (result_t result)))) :
  exists value,
    withTargetNode key = inr [Set_ value]
    /\ AnalysedTarget.Result value = result
    /\ AnalysedTarget.Actions value = []
    /\ AnalysedTarget.Blobs value = []
    /\ AnalysedTarget.Trees value = []
    /\ AnalysedTarget.Vars value = ∅
    /\ AnalysedTarget.Tainted value = ∅.
Proof.
  exists (AnalysedTarget.mk result [] [] [] ∅ ∅).
  unfold withTargetNode. rewrite Hkey. simpl. repeat split.
Qed.

(** *** Taintedness *)

Lemma forallb_bool_decide {A} (P : A -> Prop) `{forall x, Decision (P x)}
  (l : list A) :
  forallb (fun x => bool_decide (P x)) l = true <-> List.Forall P l.
Proof.
  rewrite forallb_forall, List.Forall_forall.
  split; intros Hall x Hin.
  - apply (bool_decide_eq_true_1 (P x)). now apply Hall.
  - apply (bool_decide_eq_true_2 (P x)). now apply Hall.
Qed.

(** C3.  When rule application sets a value, the tainted set computed for
    the target is the union of the strings of its tainted expression and of
    the rule's [Tainted], the tainted set of every dependency is a subset of
    it, and the value set is the registry's entry for the analysed target
    with this tainted set (that very target when the registry had none);
    when the tainted set of some dependency is not a subset, a fatal error is
    logged, no value is set and the registry is left as it was. *)
Theorem withDependencies_tainted
  (transition_keys : list ConfiguredTarget.t)
  (dependency_values : list AnalysedTarget.t)
  (rule : UserRule.t) (data : TargetData.t) (key : ConfiguredTarget.t)
  (params : LinkedMap.underlying_map_t Expression)
  (result_map : ResultTargetMap.t) (own : gset string)
  (Hown : getTainted ∅
            (Configuration.Prune (TargetData.target_vars data)
               (ConfiguredTarget.config key))
            (TargetData.tainted_expr data) = inr own) :
  let tainted := own ∪ UserRule.Tainted rule in
  let run :=
    withDependencies transition_keys dependency_values rule data key params
      result_map in
  (forall value result_map',
      run = (SetValue value, result_map') ->
      List.Forall (fun dep => AnalysedTarget.Tainted dep ⊆ tainted)
        dependency_values
      /\ exists effective_conf candidate,
          AnalysedTarget.Tainted candidate = tainted
          /\ ResultTargetMap.Add same_key result_map
               (ConfiguredTarget.target key) effective_conf candidate
             = (value, result_map')
          /\ (ResultTargetMap.Find same_key
                (ConfiguredTarget.target key, effective_conf) result_map = None ->
              AnalysedTarget.Tainted value = tainted))
  /\ ((exists dep, List.In dep dependency_values
                   /\ ~ AnalysedTarget.Tainted dep ⊆ tainted) ->
      fails (fst run) /\ snd run = result_map).
Proof.
  intros tainted run. subst run. unfold withDependencies. rewrite Hown.
  fold tainted.
  destruct (forallb (fun dep => bool_decide (AnalysedTarget.Tainted dep ⊆ tainted))
              dependency_values) eqn:Hdeps; simpl.
  - apply forallb_bool_decide in Hdeps. split.
    + intros value result_map' Hrun. split; [exact Hdeps|].
      destruct (eval_string_fields _ _ _ _ _) as [msg|params'];
        [discriminate|].
      destruct (Evaluate _ _ _ _) as [msg|[result collected]]; [discriminate|].
      destruct result; try discriminate.
      match type of Hrun with
      | context [ResultTargetMap.Add _ _ _ ?conf ?cand] =>
          exists conf, cand; destruct (ResultTargetMap.Add same_key result_map
                                   (ConfiguredTarget.target key) conf cand)
            as [analysis_result rm] eqn:Hadd
      end.
      injection Hrun as <- <-.
      split; [reflexivity|]. split; [reflexivity|].
      intros Hfresh. unfold ResultTargetMap.Add in Hadd.
      rewrite Hfresh in Hadd. now injection Hadd as <- _.
    + intros (dep & Hin & Hnot). exfalso. apply Hnot.
      rewrite List.Forall_forall in Hdeps. now apply Hdeps.
  - split.
    + intros value result_map' Hrun. discriminate.
    + intros _. split; [apply fails_LogFatal|reflexivity].
Qed.

(** *** Sorting and intersecting the outputs of an action *)

Lemma string_le_trans x y z : string_le x y -> string_le y z -> string_le x z.
Proof.
  unfold string_le. intros Hxy Hyz.
  destruct (String.ltb z x) eqn:Hzx; [|reflexivity].
  destruct (String.ltb x y) eqn:Hlt.
  - pose proof (string_lt_trans _ _ _ Hzx Hlt) as H. unfold StrOrd.lt in H.
    congruence.
  - assert (x = y) by now apply string_ltb_total. subst. congruence.
Qed.

Lemma sort_insert_In x y l :
  List.In y (sort_insert x l) <-> y = x \/ List.In y l.
Proof.
  induction l as [|z r IH]; simpl.
  - props_split.
  - destruct (String.ltb z x); simpl; rewrite ?IH; props_split.
Qed.

Lemma sort_In y l : List.In y (sort l) <-> List.In y l.
Proof.
  induction l as [|x r IH]; simpl; [props|].
  rewrite sort_insert_In, IH. props_split.
Qed.

Lemma sort_insert_sorted x l :
  StronglySorted string_le l -> StronglySorted string_le (sort_insert x l).
Proof.
  induction 1 as [|z r Hr IH Hz]; simpl.
  - repeat constructor.
  - destruct (String.ltb z x) eqn:Hlt.
    + constructor; [assumption|].
      rewrite List.Forall_forall in Hz |- *. intros y Hy.
      apply sort_insert_In in Hy. destruct Hy as [->|Hy]; [|now apply Hz].
      unfold string_le.
      destruct (String.ltb x z) eqn:Hxz; [|reflexivity].
      exfalso. exact (string_lt_asym _ _ Hlt Hxz).
    + constructor; [now constructor|].
      constructor; [exact Hlt|].
      rewrite List.Forall_forall in Hz |- *. intros y Hy.
      apply string_le_trans with z; [exact Hlt|now apply Hz].
Qed.

Lemma sort_sorted l : StronglySorted string_le (sort l).
Proof.
  induction l as [|x r IH]; simpl; [constructor|].
  now apply sort_insert_sorted.
Qed.

Lemma set_intersection_cons x a y b :
  set_intersection (x :: a) (y :: b)
  = if String.ltb x y then set_intersection a (y :: b)
    else if String.ltb y x then set_intersection (x :: a) b
    else x :: set_intersection a b.
Proof. reflexivity. Qed.

Lemma set_intersection_nil_r a : set_intersection a [] = [].
Proof. now destruct a. Qed.

(** What [std::set_intersection] puts out is in both ranges. *)
Lemma set_intersection_sound z a b :
  List.In z (set_intersection a b) -> List.In z a /\ List.In z b.
Proof.
  revert b. induction a as [|x a IHa]; intros b; [simpl; props|].
  induction b as [|y b IHb]; [rewrite set_intersection_nil_r; simpl; props|].
  rewrite set_intersection_cons.
  destruct (String.ltb x y) eqn:Hxy.
  - intros H. apply IHa in H. simpl in *. props.
  - destruct (String.ltb y x) eqn:Hyx.
    + intros H. apply IHb in H. simpl in *. props.
    + assert (x = y) by now apply string_ltb_total. subst y.
      intros [->|H]; [simpl; props|]. apply IHa in H. simpl. props.
Qed.

(** On sorted ranges it puts out every common element. *)
Lemma set_intersection_complete z a b :
  StronglySorted string_le a -> StronglySorted string_le b ->
  List.In z a -> List.In z b -> List.In z (set_intersection a b).
Proof.
  intros Ha. revert b. induction Ha as [|x a Ha IHa Hx]; intros b Hb; [simpl; props|].
  induction Hb as [|y b Hb IHb Hy]; [simpl; props|].
  assert (Hyb : StronglySorted string_le (y :: b)) by now constructor.
  rewrite List.Forall_forall in Hx, Hy.
  rewrite set_intersection_cons. intros Hza Hzb.
  destruct (String.ltb x y) eqn:Hxy.
  - apply IHa; [assumption| |assumption].
    destruct Hza as [<-|Hza]; [|assumption]. exfalso.
    destruct Hzb as [<-|Hzb].
    + now rewrite string_ltb_irrefl in Hxy.
    + specialize (Hy _ Hzb). unfold string_le in Hy. congruence.
  - destruct (String.ltb y x) eqn:Hyx.
    + apply IHb; [assumption|].
      destruct Hzb as [<-|Hzb]; [|assumption]. exfalso.
      destruct Hza as [<-|Hza].
      * now rewrite string_ltb_irrefl in Hyx.
      * specialize (Hx _ Hza). unfold string_le in Hx. congruence.
    + assert (x = y) by now apply string_ltb_total. subst y.
      destruct Hza as [<-|Hza]; [now left|].
      destruct Hzb as [<-|Hzb]; [now left|].
      right. now apply IHa.
Qed.

(** The duplicates found by [ACTION] are the common elements of the two
    lists of outputs. *)
Lemma dups_empty_iff (outputs output_dirs : list string) :
  is_empty (set_intersection (sort outputs) (sort output_dirs)) = true
  <-> (forall x, List.In x outputs -> ~ List.In x output_dirs).
Proof.
  split.
  - intros Hempty x Hx Hy.
    assert (Hin : List.In x (set_intersection (sort outputs) (sort output_dirs))).
    { apply set_intersection_complete; try apply sort_sorted; now apply sort_In. }
    destruct (set_intersection _ _); [assumption|discriminate].
  - intros Hdisj.
    destruct (set_intersection _ _) as [|z r] eqn:E; [reflexivity|]. exfalso.
    assert (Hin : List.In z (set_intersection (sort outputs) (sort output_dirs)))
      by (rewrite E; now left).
    apply set_intersection_sound in Hin. destruct Hin as [H1 H2].
    rewrite sort_In in H1, H2. exact (Hdisj z H1 H2).
Qed.

(** *** The checks of [ACTION] *)

Lemma bind_inr {A B} (m : M A) (k : A -> M B) c a c' :
  m c = inr (a, c') -> (m ≫= k) c = k a c'.
Proof. intros H. unfold mbind, M_bind, bind. now rewrite H. Qed.

Lemma bind_inl {A B} (m : M A) (k : A -> M B) c e :
  m c = inl e -> (m ≫= k) c = inl e.
Proof. intros H. unfold mbind, M_bind, bind. now rewrite H. Qed.

Lemma Get_map (m : LinkedMap.t Expression) key default_value c :
  Get (map_t m) key default_value c
  = inr (default default_value (LinkedMap.Find key m), c).
Proof.
  unfold Get, Map. erewrite bind_inr by reflexivity.
  now destruct (LinkedMap.Find key m).
Qed.

Lemma read_strings_strings msg l c :
  match strings_of (list_t l) with
  | Some r => read_strings (EvaluationError msg) l c = inr (r, c)
  | None => raises_EvaluationError (read_strings (EvaluationError msg) l c)
  end.
Proof.
  induction l as [|x rest IH]; [reflexivity|].
  destruct x; try (now eexists). simpl in *.
  destruct ((fix strings (l : list Expression) : option (list string) := _) rest)
    as [r|] eqn:E.
  - erewrite bind_inr by exact IH. reflexivity.
  - destruct IH as [msg' IH]. erewrite bind_inl by exact IH. now eexists.
Qed.

Lemma ReadActionOutputExpr_strings out_exp field_name c :
  match strings_of out_exp with
  | Some l => ReadActionOutputExpr out_exp field_name c = inr (l, c)
  | None => raises_EvaluationError (ReadActionOutputExpr out_exp field_name c)
  end.
Proof.
  unfold ReadActionOutputExpr.
  destruct out_exp as [ | | | | | | | |l|m]; try (now eexists).
  apply read_strings_strings.
Qed.

Lemma ensure_cases b msg c :
  (b = true /\ ensure b (EvaluationError msg) c = inr (tt, c))
  \/ (b = false /\ ensure b (EvaluationError msg) c = inl (EvaluationError msg)).
Proof. destruct b; [left|right]; split; reflexivity. Qed.

Lemma for_each_ensure {A} (p : A -> bool) (msg : A -> string) l c :
  (forallb p l = true
   /\ for_each (fun x => ensure (p x) (EvaluationError (msg x))) l c = inr (tt, c))
  \/ raises_EvaluationError
       (for_each (fun x => ensure (p x) (EvaluationError (msg x))) l c).
Proof.
  induction l as [|x r IH]; simpl; [now left|].
  destruct (ensure_cases (p x) (msg x) c) as [[Hp He]|[Hp He]].
  - erewrite bind_inr by exact He. rewrite Hp. exact IH.
  - right. erewrite bind_inl by exact He. now eexists.
Qed.

Lemma ACTION_raises_or_ok (rule : UserRule.t) (eval : SubExprEvaluator)
  (expr_map : LinkedMap.t Expression) (env : Configuration.t)
  (c c1 c2 c3 : Collectors) (inputs_exp outs_exp out_dirs_exp : Expression) :
  eval (default kEmptyMapExpr (LinkedMap.Find "inputs" expr_map)) env c
    = inr (inputs_exp, c1) ->
  eval (default (list_t []) (LinkedMap.Find "outs" expr_map)) env c1
    = inr (outs_exp, c2) ->
  eval (default (list_t []) (LinkedMap.Find "out_dirs" expr_map)) env c2
    = inr (out_dirs_exp, c3) ->
  raises_EvaluationError (ACTION rule eval (map_t expr_map) env c)
  \/ action_outputs_ok inputs_exp outs_exp out_dirs_exp.
Proof.
  intros Hinputs Houts Hdirs. unfold ACTION.
  erewrite bind_inr by apply Get_map.
  erewrite bind_inr by exact Hinputs.
  destruct inputs_exp as [ | | | | | | | | |inputs_map];
    try (left; erewrite bind_inl by reflexivity; now eexists).
  erewrite bind_inr by reflexivity.
  match goal with
  | |- context [for_each ?f inputs_map] =>
      destruct (for_each_ensure (fun entry : string * Expression => IsArtifact (snd entry))
                  (fun entry => "inputs has to be a map of Artifacts, but found "
                                +:+ ToString (snd entry) +:+ " for " +:+ fst entry)
                  inputs_map c1) as [[_ Hall]|[msg Hall]]
  end.
  2: { left. erewrite bind_inl by exact Hall. now eexists. }
  erewrite bind_inr by exact Hall.
  destruct (tree_conflict (map_t inputs_map)) as [conflict|] eqn:Hconflict.
  { left. erewrite bind_inl by reflexivity. now eexists. }
  erewrite bind_inr by reflexivity.
  erewrite bind_inr by apply Get_map.
  erewrite bind_inr by exact Houts.
  pose proof (ReadActionOutputExpr_strings outs_exp "outs" c2) as Hread.
  destruct (strings_of outs_exp) as [outs|] eqn:Hso.
  2: { left. destruct Hread as [msg Hread].
       erewrite bind_inl by exact Hread. now eexists. }
  erewrite bind_inr by exact Hread. clear Hread.
  erewrite bind_inr by apply Get_map.
  erewrite bind_inr by exact Hdirs.
  pose proof (ReadActionOutputExpr_strings out_dirs_exp "out_dirs" c3) as Hread.
  destruct (strings_of out_dirs_exp) as [out_dirs|] eqn:Hsd.
  2: { left. destruct Hread as [msg Hread].
       erewrite bind_inl by exact Hread. now eexists. }
  erewrite bind_inr by exact Hread. clear Hread.
  match goal with
  | |- context [ensure ?b (EvaluationError ?msg) ≫= _] =>
      destruct (ensure_cases b msg c3) as [[Hne He]|[Hne He]]
  end.
  2: { left. erewrite bind_inl by exact He. now eexists. }
  erewrite bind_inr by exact He. clear He.
  match goal with
  | |- context [ensure ?b (EvaluationError ?msg) ≫= _] =>
      destruct (ensure_cases b msg c3) as [[Hdups He]|[Hdups He]]
  end.
  2: { left. erewrite bind_inl by exact He. now eexists. }
  right. split; [assumption|]. exists outs, out_dirs.
  split; [exact Hso|]. split; [exact Hsd|]. split.
  - intros Happ. apply List.app_eq_nil in Happ. destruct Happ as [-> ->].
    discriminate.
  - now apply dups_empty_iff.
Qed.

(** C4.  When the arguments of [ACTION] evaluate, [ACTION] raises an
    evaluation error unless there is no conflict in the inputs, outs and
    out_dirs are lists of strings, one of them at least is not empty, and
    they have no string in common; so whenever it returns, all of this
    holds. *)
Theorem ACTION_output_checks (rule : UserRule.t) (eval : SubExprEvaluator)
  (expr_map : LinkedMap.t Expression) (env : Configuration.t)
  (c c1 c2 c3 : Collectors) (inputs_exp outs_exp out_dirs_exp : Expression)
  (Hinputs : eval (default kEmptyMapExpr (LinkedMap.Find "inputs" expr_map)) env c
             = inr (inputs_exp, c1))
  (Houts : eval (default (list_t []) (LinkedMap.Find "outs" expr_map)) env c1
           = inr (outs_exp, c2))
  (Hdirs : eval (default (list_t []) (LinkedMap.Find "out_dirs" expr_map)) env c2
           = inr (out_dirs_exp, c3)) :
  let run := ACTION rule eval (map_t expr_map) env c in
  (tree_conflict inputs_exp <> None -> raises_EvaluationError run)
  /\ (strings_of outs_exp = None \/ strings_of out_dirs_exp = None ->
      raises_EvaluationError run)
  /\ (outs_exp = list_t [] -> out_dirs_exp = list_t [] ->
      raises_EvaluationError run)
  /\ (forall outs out_dirs x,
         strings_of outs_exp = Some outs ->
         strings_of out_dirs_exp = Some out_dirs ->
         List.In x outs -> List.In x out_dirs -> raises_EvaluationError run)
  /\ (forall result c',
         run = inr (result, c') ->
         action_outputs_ok inputs_exp outs_exp out_dirs_exp).
Proof.
  intros run.
  destruct (ACTION_raises_or_ok rule eval expr_map env c c1 c2 c3
              inputs_exp outs_exp out_dirs_exp Hinputs Houts Hdirs)
    as [Hraise|Hok].
  - split; [|split; [|split; [|split]]]; try (intros; exact Hraise).
    intros result c' Hrun. destruct Hraise as [msg Hraise].
    subst run. congruence.
  - destruct Hok as (Hconflict & outs & out_dirs & Hso & Hsd & Hne & Hdisj).
    split; [congruence|].
    split; [intros [H|H]; congruence|].
    split.
    { intros -> ->. simpl in Hso, Hsd.
      injection Hso as <-. injection Hsd as <-. now elim Hne. }
    split.
    { intros outs' out_dirs' x Hso' Hsd' Hx Hy.
      rewrite Hso in Hso'. rewrite Hsd in Hsd'.
      injection Hso' as <-. injection Hsd' as <-.
      now elim (Hdisj x Hx Hy). }
    intros result c' _. split; [assumption|].
    exists outs, out_dirs. auto.
Qed.

(** *** The paths of [TREE] *)

Lemma TREE_stage_single (k : string) (v : Expression) c :
  is_dot_path (Path.lexically_normal k) = true ->
  (forall a, v = artifact_t a -> IsTree a = true ->
             TREE_stage 1 [(k, v)] [] c = inr (inl v, c))
  /\ ((forall a, v = artifact_t a -> IsTree a = false) ->
      raises_EvaluationError (TREE_stage 1 [(k, v)] [] c)).
Proof.
  unfold is_dot_path. intros Hdot. split.
  - intros a -> Htree. simpl. rewrite Hdot, Htree. reflexivity.
  - intros Hnot. simpl. destruct v; try (now eexists).
    rewrite Hdot, (Hnot a Logic.eq_refl). now eexists.
Qed.

Lemma TREE_stage_several (size : nat) (items : list (string * Expression)) k v :
  1 < size -> List.In (k, v) items ->
  is_dot_path (Path.lexically_normal k) = true ->
  forall artifacts c, raises_EvaluationError (TREE_stage size items artifacts c).
Proof.
  unfold is_dot_path. intros Hsize Hin Hdot.
  induction items as [|[k' v'] rest IH]; [destruct Hin|].
  intros artifacts c. simpl.
  destruct v'; try (now eexists).
  destruct (String.eqb (Path.lexically_normal k') "."
            || String.eqb (Path.lexically_normal k') "") eqn:Hdot'.
  - apply Nat.ltb_lt in Hsize. rewrite Hsize. now eexists.
  - apply IH. destruct Hin as [[= Hk Hv]|Hin]; [subst; congruence|assumption].
Qed.

Lemma TREE_stage_staged (size : nat) (items : list (string * Expression)) :
  (forall item, List.In item items -> IsArtifact (snd item) = true) ->
  (forall item, List.In item items ->
                is_dot_path (Path.lexically_normal (fst item)) = false) ->
  forall artifacts c,
    TREE_stage size items artifacts c
    = inr (inr (fold_left (fun u kv => LinkedMap.emplace (fst kv) (snd kv) u)
                  (staged_entries items) artifacts), c).
Proof.
  unfold is_dot_path.
  induction items as [|[k v] rest IH]; intros Hart Hdot artifacts c;
    [reflexivity|].
  simpl.
  pose proof (Hart (k, v) (or_introl Logic.eq_refl)) as Hv.
  pose proof (Hdot (k, v) (or_introl Logic.eq_refl)) as Hk. simpl in Hv, Hk.
  destruct v; try discriminate. rewrite Hk. simpl.
  apply IH; intros item Hin; [apply Hart|apply Hdot]; now right.
Qed.

(** [emplace] keeps the keys pairwise different and the first binding of
    each key. *)
Lemma Find_app {V} k (l1 l2 : list (string * V)) :
  LinkedMap.Find k (l1 ++ l2)
  = match LinkedMap.Find k l1 with
    | Some v => Some v
    | None => LinkedMap.Find k l2
    end.
Proof.
  induction l1 as [|[k' v'] r IH]; simpl; [reflexivity|].
  now destruct (String.eqb k k').
Qed.

Lemma Find_None_not_in {V} k (m : list (string * V)) :
  LinkedMap.Find k m = None -> ~ List.In k (LinkedMap.keys m).
Proof.
  induction m as [|[k' v] r IH]; simpl; [props|].
  destruct (String.eqb_spec k k') as [->|Hne]; [discriminate|].
  intros H [Heq|Hin]; [congruence|now apply IH].
Qed.

Lemma emplace_NoDup {V} k (v : V) m :
  List.NoDup (LinkedMap.keys m) -> List.NoDup (LinkedMap.keys (LinkedMap.emplace k v m)).
Proof.
  intros Hnd. unfold LinkedMap.emplace, LinkedMap.contains.
  destruct (LinkedMap.Find k m) eqn:E; [assumption|].
  unfold LinkedMap.keys. rewrite List.map_app. simpl.
  apply Permutation_NoDup with (k :: List.map fst m).
  - apply Permutation_cons_append.
  - constructor; [now apply Find_None_not_in|assumption].
Qed.

Lemma Find_emplace {V} p k (v : V) m :
  LinkedMap.Find p (LinkedMap.emplace k v m)
  = match LinkedMap.Find p m with
    | Some x => Some x
    | None => if String.eqb p k then Some v else None
    end.
Proof.
  unfold LinkedMap.emplace, LinkedMap.contains.
  destruct (LinkedMap.Find k m) eqn:E.
  - destruct (LinkedMap.Find p m) eqn:E'; [reflexivity|].
    destruct (String.eqb_spec p k) as [->|_]; [congruence|reflexivity].
  - rewrite Find_app. simpl. now destruct (LinkedMap.Find p m).
Qed.

Lemma fold_emplace_NoDup {V} (l acc : list (string * V)) :
  List.NoDup (LinkedMap.keys acc) ->
  List.NoDup
    (LinkedMap.keys
       (fold_left (fun u kv => LinkedMap.emplace (fst kv) (snd kv) u) l acc)).
Proof.
  revert acc. induction l as [|[k v] r IH]; intros acc Hnd; simpl; [assumption|].
  apply IH. now apply emplace_NoDup.
Qed.

Lemma Find_fold_emplace {V} p (l acc : list (string * V)) :
  LinkedMap.Find p
    (fold_left (fun u kv => LinkedMap.emplace (fst kv) (snd kv) u) l acc)
  = match LinkedMap.Find p acc with
    | Some x => Some x
    | None => LinkedMap.Find p l
    end.
Proof.
  revert acc. induction l as [|[k v] r IH]; intros acc; simpl.
  - now destruct (LinkedMap.Find p acc).
  - rewrite IH, Find_emplace.
    destruct (LinkedMap.Find p acc); [reflexivity|].
    now destruct (String.eqb p k).
Qed.

Lemma filter_key_unique {V} p (a : V) (l : list (string * V)) :
  List.NoDup (LinkedMap.keys l) -> LinkedMap.Find p l = Some a ->
  List.filter (fun entry => String.eqb (fst entry) p) l = [(p, a)].
Proof.
  induction l as [|[k v] r IH]; simpl; [discriminate|].
  intros Hnd Hfind. inversion Hnd as [|? ? Hni Hnd']; subst.
  destruct (String.eqb_spec p k) as [->|Hne].
  - injection Hfind as ->. rewrite String.eqb_refl. f_equal.
    clear IH Hnd Hnd'. induction r as [|[k' v'] r IH]; [reflexivity|].
    simpl in *. destruct (String.eqb_spec k' k) as [->|_]; [props|].
    apply IH. props.
  - destruct (String.eqb_spec k p) as [->|_]; [congruence|]. now apply IH.
Qed.

Lemma staged_entries_app l1 l2 :
  staged_entries (l1 ++ l2) = staged_entries l1 ++ staged_entries l2.
Proof. unfold staged_entries. apply List.flat_map_app. Qed.

Lemma Find_staged_entries_None p (items : list (string * Expression)) :
  (forall item, List.In item items -> Path.lexically_normal (fst item) <> p) ->
  LinkedMap.Find p (staged_entries items) = None.
Proof.
  induction items as [|[k v] rest IH]; intros Hne; [reflexivity|].
  change (staged_entries ((k, v) :: rest))
    with (match v with
          | artifact_t a => [(Path.lexically_normal k, a)]
          | _ => []
          end ++ staged_entries rest).
  rewrite Find_app.
  assert (Hrest : LinkedMap.Find p (staged_entries rest) = None)
    by (apply IH; intros item Hin; apply Hne; now right).
  destruct v; simpl; try exact Hrest.
  destruct (String.eqb_spec p (Path.lexically_normal k)) as [->|_];
    [|exact Hrest].
  now elim (Hne (k, artifact_t a) (or_introl Logic.eq_refl)).
Qed.

(** C5.  [TREE] on a map of one entry whose key normalises to ["."] or [""]
    returns the artifact of the entry, unchanged, when it is a tree artifact,
    and raises an evaluation error when it is not; on a map of several
    entries one of whose keys normalises to ["."] or [""] it raises an
    evaluation error. *)
Theorem TREE_dot_path (eval : SubExprEvaluator)
  (expr_map : LinkedMap.t Expression) (env : Configuration.t)
  (c c1 : Collectors) (m : LinkedMap.t Expression) (k : string) (v : Expression)
  (Hval : eval (default kEmptyMapExpr (LinkedMap.Find "$1" expr_map)) env c
          = inr (map_t m, c1))
  (Hin : List.In (k, v) m)
  (Hdot : is_dot_path (Path.lexically_normal k) = true) :
  let run := TREE eval (map_t expr_map) env c in
  (LinkedMap.size m = 1 ->
   (forall a, v = artifact_t a -> IsTree a = true -> run = inr (v, c1))
   /\ ((forall a, v = artifact_t a -> IsTree a = false) ->
       raises_EvaluationError run))
  /\ (1 < LinkedMap.size m -> raises_EvaluationError run).
Proof.
  intros run. subst run. unfold TREE.
  erewrite bind_inr by apply Get_map.
  erewrite bind_inr by exact Hval.
  split.
  - intros Hsize. destruct m as [|kv [|kv' rest]]; try discriminate.
    destruct Hin as [->|[]]. clear Hsize.
    destruct (TREE_stage_single k v c1 Hdot) as [Htree Hnot].
    split.
    + intros a Hv Ha. erewrite bind_inr by exact (Htree a Hv Ha). reflexivity.
    + intros Ha. destruct (Hnot Ha) as [msg Hmsg].
      erewrite bind_inl by exact Hmsg. now eexists.
  - intros Hsize.
    destruct (TREE_stage_several (LinkedMap.size m) m k v Hsize Hin Hdot [] c1)
      as [msg Hmsg].
    erewrite bind_inl by exact Hmsg. now eexists.
Qed.

(** The key that comes first in the order of iteration binds its normalised
    path in the tree. *)
Lemma TREE_first_key_wins (eval : SubExprEvaluator)
  (expr_map : LinkedMap.t Expression) (env : Configuration.t)
  (c c1 : Collectors) (m pre rest : list (string * Expression))
  (k1 : string) (a1 : ArtifactDescription) :
  eval (default kEmptyMapExpr (LinkedMap.Find "$1" expr_map)) env c
    = inr (map_t m, c1) ->
  m = pre ++ (k1, artifact_t a1) :: rest ->
  (forall item, List.In item pre ->
                Path.lexically_normal (fst item) <> Path.lexically_normal k1) ->
  (forall item, List.In item m -> IsArtifact (snd item) = true) ->
  (forall item, List.In item m ->
                is_dot_path (Path.lexically_normal (fst item)) = false) ->
  tree_conflict (map_t m) = None ->
  exists artifacts,
    TREE eval (map_t expr_map) env c
    = inr (artifact_t (TreeArtifact (Tree_Id (Tree.mk artifacts))),
           mkCollectors (actions c1) (blobs c1) (trees c1 ++ [Tree.mk artifacts]))
    /\ List.NoDup (LinkedMap.keys artifacts)
    /\ List.filter
         (fun entry => String.eqb (fst entry) (Path.lexically_normal k1))
         artifacts
       = [(Path.lexically_normal k1, a1)].
Proof.
  intros Hval Hm Hfirst Hartifacts Hnodot Hconflict.
  exists (emplace_entries (staged_entries m)).
  assert (Hnd : List.NoDup (LinkedMap.keys (emplace_entries (staged_entries m))))
    by (apply fold_emplace_NoDup; constructor).
  assert (Hfind : LinkedMap.Find (Path.lexically_normal k1)
                    (emplace_entries (staged_entries m)) = Some a1).
  { unfold emplace_entries. rewrite Find_fold_emplace. simpl.
    rewrite Hm, staged_entries_app, Find_app.
    rewrite Find_staged_entries_None by exact Hfirst.
    change (staged_entries ((k1, artifact_t a1) :: rest))
      with ((Path.lexically_normal k1, a1) :: staged_entries rest).
    simpl. now rewrite String.eqb_refl. }
  split; [|split; [exact Hnd|]].
  - unfold TREE.
    erewrite bind_inr by apply Get_map.
    erewrite bind_inr by exact Hval.
    cbv beta iota.
    erewrite bind_inr
      by exact (TREE_stage_staged (LinkedMap.size m) m Hartifacts Hnodot [] c1).
    simpl. rewrite Hconflict. reflexivity.
  - now apply filter_key_unique.
Qed.

Lemma sorted_before {V} (pre rest : list (string * V)) (x : string * V) :
  Sorted LinkedMap.key_lt (pre ++ x :: rest) ->
  forall item, List.In item pre -> LinkedMap.key_lt item x.
Proof.
  induction pre as [|y pre IH]; intros Hs item Hin; [destruct Hin|].
  simpl in Hs. destruct Hin as [<-|Hin].
  - pose proof (LinkedMap_Sorted_key_lt_Forall _ _ Hs) as Hall.
    rewrite List.Forall_forall in Hall. apply Hall.
    apply List.in_or_app. right. now left.
  - apply IH; [now inversion Hs|assumption].
Qed.

(** C9, amended.  When two different keys of the argument of [TREE] have
    the same normalised path, every value is an artifact, no key names the
    tree itself and no conflict is found, [TREE] raises no error: it returns
    a tree artifact and adds its tree, whose keys are pairwise different and
    whose only entry at that path is the artifact of the least key with this
    normalised path, the first in the key-sorted order of iteration; the
    artifact of the later key is dropped. *)
Theorem TREE_equal_normal_paths (eval : SubExprEvaluator)
  (expr_map : LinkedMap.t Expression) (env : Configuration.t)
  (c c1 : Collectors) (m : LinkedMap.t Expression)
  (k1 k2 : string) (a1 a2 : ArtifactDescription)
  (Hval : eval (default kEmptyMapExpr (LinkedMap.Find "$1" expr_map)) env c
          = inr (map_t m, c1))
  (Hsorted : Sorted LinkedMap.key_lt m)
  (Hk1 : List.In (k1, artifact_t a1) m)
  (Hk2 : List.In (k2, artifact_t a2) m)
  (Hdistinct : k1 <> k2)
  (Hnormal : Path.lexically_normal k1 = Path.lexically_normal k2)
  (Hfirst : forall item, List.In item m ->
              Path.lexically_normal (fst item) = Path.lexically_normal k1 ->
              fst item = k1 \/ StrOrd.lt k1 (fst item))
  (Hartifacts : forall item, List.In item m -> IsArtifact (snd item) = true)
  (Hnodot : forall item, List.In item m ->
                         is_dot_path (Path.lexically_normal (fst item)) = false)
  (Hconflict : tree_conflict (map_t m) = None) :
  exists artifacts,
    TREE eval (map_t expr_map) env c
    = inr (artifact_t (TreeArtifact (Tree_Id (Tree.mk artifacts))),
           mkCollectors (actions c1) (blobs c1) (trees c1 ++ [Tree.mk artifacts]))
    /\ List.NoDup (LinkedMap.keys artifacts)
    /\ List.filter
         (fun entry => String.eqb (fst entry) (Path.lexically_normal k2))
         artifacts
       = [(Path.lexically_normal k2, a1)]
    /\ (a1 <> a2 -> ~ List.In (Path.lexically_normal k2, a2) artifacts).
Proof.
  destruct (List.in_split _ _ Hk1) as (pre & rest & Hm).
  assert (Hpre : forall item, List.In item pre ->
                   Path.lexically_normal (fst item) <> Path.lexically_normal k1).
  { intros item Hin Heq.
    assert (Hlt : LinkedMap.key_lt item (k1, artifact_t a1))
      by (apply (sorted_before pre rest); [now rewrite <- Hm|assumption]).
    unfold LinkedMap.key_lt in Hlt. simpl in Hlt.
    assert (Hitem : List.In item m)
      by (rewrite Hm; apply List.in_or_app; now left).
    destruct (Hfirst item Hitem Heq) as [Hk|Hk].
    - rewrite Hk in Hlt. exact (string_lt_irrefl _ Hlt).
    - exact (string_lt_asym _ _ Hlt Hk). }
  destruct (TREE_first_key_wins eval expr_map env c c1 m pre rest k1 a1
              Hval Hm Hpre Hartifacts Hnodot Hconflict)
    as (artifacts & Hrun & Hnd & Hfilter).
  exists artifacts. rewrite <- Hnormal.
  split; [exact Hrun|]. split; [exact Hnd|]. split; [exact Hfilter|].
  intros Hne Hin.
  assert (Hin' : List.In (Path.lexically_normal k1, a2)
                   (List.filter
                      (fun entry => String.eqb (fst entry) (Path.lexically_normal k1))
                      artifacts)).
  { apply List.filter_In. split; [assumption|]. simpl. apply String.eqb_refl. }
  rewrite Hfilter in Hin'. destruct Hin' as [[= Heq]|[]]. now apply Hne.
Qed.

(** ** Further properties of the expressions *)

(** *** Lookup in maps that were built entry by entry *)

Lemma Find_map_values {A B} (f : A -> B) k (m : list (string * A)) :
  LinkedMap.Find k (List.map (fun kv => (fst kv, f (snd kv))) m)
  = option_map f (LinkedMap.Find k m).
Proof.
  induction m as [|[k' v] m IH]; simpl; [reflexivity|].
  destruct (String.eqb k k'); [reflexivity|exact IH].
Qed.

Lemma Find_emplace_entries {V} k (l : list (string * V)) :
  LinkedMap.Find k (emplace_entries l) = LinkedMap.Find k l.
Proof. unfold emplace_entries. now rewrite Find_fold_emplace. Qed.

Lemma emplace_entries_keys_NoDup {V} (l : list (string * V)) :
  List.NoDup (LinkedMap.keys (emplace_entries l)).
Proof. apply fold_emplace_NoDup. constructor. Qed.

Lemma fold_emplace_In {V} (kv : string * V) (l acc : list (string * V)) :
  List.In kv (fold_left (fun u e => LinkedMap.emplace (fst e) (snd e) u) l acc) ->
  List.In kv acc \/ List.In kv l.
Proof.
  revert acc. induction l as [|e l IH]; simpl; intros acc H; [now left|].
  apply IH in H. destruct H as [H|H]; [|now right; right].
  unfold LinkedMap.emplace in H.
  destruct (LinkedMap.contains (fst e) acc); [now left|].
  apply List.in_app_or in H. destruct H as [H|[H|[]]]; [now left|].
  right. left. rewrite <- H. now destruct e.
Qed.

Lemma emplace_entries_In {V} (kv : string * V) (l : list (string * V)) :
  List.In kv (emplace_entries l) -> List.In kv l.
Proof.
  intros H. apply fold_emplace_In in H. now destruct H as [[]|H].
Qed.

Lemma sorted_keys_NoDup {V} (m : list (string * V)) :
  Sorted LinkedMap.key_lt m -> List.NoDup (LinkedMap.keys m).
Proof.
  induction m as [|kv m IH]; intros Hs; [constructor|].
  pose proof (LinkedMap_Sorted_key_lt_Forall kv m Hs) as Hall.
  inversion Hs as [|? ? Hm _]; subst.
  simpl. constructor; [|now apply IH].
  intros Hin. apply List.in_map_iff in Hin. destruct Hin as (kv' & Hk & Hin).
  rewrite List.Forall_forall in Hall. specialize (Hall kv' Hin).
  unfold LinkedMap.key_lt in Hall. rewrite Hk in Hall.
  exact (string_lt_irrefl _ Hall).
Qed.

Lemma LinkedMap_make_sorted_id {V} (m : list (string * V)) :
  Sorted LinkedMap.key_lt m -> LinkedMap.make m = m.
Proof.
  intros Hs. apply LinkedMap_sorted_perm_eq.
  - now apply LinkedMap_make_sorted, sorted_keys_NoDup.
  - exact Hs.
  - apply LinkedMap_make_perm.
Qed.

(** X1.  Indexing the expression of a JSON object by a key gives the
    expression of the member with that key, and throws the type error
    "Map does not contain key" when the object has no such member; the key
    may also be given as a string expression. *)
Theorem Index_FromJson_object (m : list (string * json)) (key : string)
  (c : Collectors) :
  Index (FromJson (j_object m)) key c
  = match LinkedMap.Find key m with
    | Some member => inr (FromJson member, c)
    | None =>
        inl (ExpressionTypeError ("Map does not contain key '" +:+ key +:+ "'."))
    end
  /\ Index_key (FromJson (j_object m)) (FromJson (j_string key)) c
     = Index (FromJson (j_object m)) key c.
Proof.
  split; [|reflexivity].
  change (FromJson (j_object m))
    with (map_of (emplace_entries
                    (List.map (fun el => (fst el, FromJson (snd el))) m))).
  unfold Index, map_of.
  erewrite bind_inr by reflexivity.
  rewrite LinkedMap_Find_make by apply emplace_entries_keys_NoDup.
  rewrite Find_emplace_entries, (Find_map_values FromJson).
  now destruct (LinkedMap.Find key m).
Qed.

(** X2.  Indexing the expression of a JSON array by a position inside the
    array gives the expression of the element at that position; a position
    at or beyond the size throws the type error "List pos ... is out of
    bounds". *)
Theorem Index_pos_FromJson_array (l : list json) (pos : nat) (c : Collectors) :
  (pos < List.length l ->
   exists element,
     List.nth_error l pos = Some element
     /\ Index_pos (FromJson (j_array l)) pos c = inr (FromJson element, c))
  /\ (List.length l <= pos ->
      Index_pos (FromJson (j_array l)) pos c
      = inl (ExpressionTypeError
               ("List pos '" +:+ pretty pos +:+ "' is out of bounds."))).
Proof.
  change (FromJson (j_array l)) with (list_t (List.map FromJson l)).
  unfold Index_pos.
  repeat split.
  - intros Hlt. destruct (List.nth_error l pos) as [element|] eqn:E.
    + exists element. split; [reflexivity|].
      erewrite bind_inr by reflexivity.
      now rewrite List.nth_error_map, E.
    + apply List.nth_error_None in E. lia.
  - intros Hle. erewrite bind_inr by reflexivity.
    apply List.nth_error_None in Hle.
    now rewrite List.nth_error_map, Hle.
Qed.

(** X3.  The expression of a JSON value is cacheable: [FromJson] builds no
    name, no result and no node. *)
Theorem FromJson_IsCacheable (j : json) : IsCacheable (FromJson j) = true.
Proof.
  induction j as [ | | | | | |l IH|m IH] using Json.json_nested_ind;
    try reflexivity.
  - change (forallb IsCacheable (List.map FromJson l) = true).
    apply List.forallb_forall. intros e He.
    apply List.in_map_iff in He. destruct He as (j & <- & Hj).
    rewrite List.Forall_forall in IH. now apply IH.
  - change (forallb (fun entry => IsCacheable (snd entry))
              (LinkedMap.make
                 (emplace_entries
                    (List.map (fun el => (fst el, FromJson (snd el))) m)))
            = true).
    apply List.forallb_forall. intros entry He.
    apply (Permutation_in _ (LinkedMap_make_perm _)) in He.
    apply emplace_entries_In in He.
    apply List.in_map_iff in He. destruct He as (el & <- & Hel).
    rewrite List.Forall_forall in IH. now apply IH.
Qed.

(** *** The members of a JSON object stay in key order *)

Lemma json_emplace_In (kv : string * json) k v o :
  List.In kv (Json.emplace k v o) -> kv = (k, v) \/ List.In kv o.
Proof.
  induction o as [|[k' v'] r IH]; simpl.
  - intros [H|[]]. now left.
  - destruct (String.ltb k k').
    + intros [H|H]; [now left|now right].
    + destruct (String.eqb k k'); [now right|].
      intros [H|H]; [now right; left|].
      apply IH in H. destruct H as [H|H]; [now left|now right; right].
Qed.

Lemma json_emplace_HdRel (a : string * json) k v o :
  LinkedMap.key_lt a (k, v) -> HdRel LinkedMap.key_lt a o ->
  HdRel LinkedMap.key_lt a (Json.emplace k v o).
Proof.
  intros Hk Hh. destruct o as [|[k' v'] r]; simpl; [now constructor|].
  destruct (String.ltb k k'); [now constructor|].
  destruct (String.eqb k k'); [assumption|].
  constructor. now inversion Hh.
Qed.

Lemma json_emplace_sorted k v o :
  Sorted LinkedMap.key_lt o -> Sorted LinkedMap.key_lt (Json.emplace k v o).
Proof.
  induction o as [|[k' v'] r IH]; simpl; intros Hs.
  - repeat constructor.
  - destruct (String.ltb k k') eqn:Hlt.
    + constructor; [assumption|]. constructor. exact Hlt.
    + destruct (String.eqb_spec k k') as [Heq|Hne]; [assumption|].
      inversion Hs as [|? ? Hr Hh]; subst.
      constructor; [now apply IH|].
      apply json_emplace_HdRel; [|assumption].
      unfold LinkedMap.key_lt, StrOrd.lt. simpl.
      destruct (String.ltb k' k) eqn:Hgt; [reflexivity|].
      exfalso. apply Hne. now apply string_ltb_total.
Qed.

Lemma json_emplace_all_acc_sorted (l acc : list (string * json)) :
  Sorted LinkedMap.key_lt acc ->
  Sorted LinkedMap.key_lt
    (fold_left (fun o kv => Json.emplace (fst kv) (snd kv) o) l acc).
Proof.
  revert acc. induction l as [|kv l IH]; simpl; intros acc Hs; [assumption|].
  now apply IH, json_emplace_sorted.
Qed.

Lemma json_emplace_all_sorted (l : list (string * json)) :
  Sorted LinkedMap.key_lt (Json.emplace_all l).
Proof. apply json_emplace_all_acc_sorted. constructor. Qed.

Lemma json_emplace_all_acc_In (kv : string * json) (l acc : list (string * json)) :
  List.In kv (fold_left (fun o e => Json.emplace (fst e) (snd e) o) l acc) ->
  List.In kv acc \/ List.In kv l.
Proof.
  revert acc. induction l as [|e l IH]; simpl; intros acc H; [now left|].
  apply IH in H. destruct H as [H|H]; [|now right; right].
  apply json_emplace_In in H. destruct H as [H|H]; [|now left].
  right. left. rewrite H. now destruct e.
Qed.

Lemma json_emplace_all_In (kv : string * json) (l : list (string * json)) :
  List.In kv (Json.emplace_all l) -> List.In kv l.
Proof.
  intros H. apply json_emplace_all_acc_In in H. now destruct H as [[]|H].
Qed.

Lemma json_wf_array_intro l : List.Forall Json.wf l -> Json.wf (j_array l).
Proof.
  induction 1 as [|x r Hx Hr IH]; simpl; [exact I|]. split; assumption.
Qed.

Lemma json_wf_members_intro (m : list (string * json)) :
  List.Forall (fun kv => Json.wf (snd kv)) m ->
  List.fold_right (fun kv acc => Json.wf (snd kv) /\ acc) True m.
Proof.
  induction 1 as [|x r Hx Hr IH]; simpl; [exact I|]. split; assumption.
Qed.

Lemma json_wf_emplace_all (l : list (string * json)) :
  List.Forall (fun kv => Json.wf (snd kv)) l ->
  Json.wf (j_object (Json.emplace_all l)).
Proof.
  intros Hl. split.
  - apply (sorted_keys_NoDup (Json.emplace_all l)), json_emplace_all_sorted.
  - apply json_wf_members_intro. apply List.Forall_forall. intros kv Hkv.
    apply json_emplace_all_In in Hkv.
    rewrite List.Forall_forall in Hl. now apply Hl.
Qed.

(** X4.  When the serialisations of artifacts, nodes and names have
    pairwise different keys in each of their objects, so has the JSON of
    every expression, in each of the three modes: [ToJson] emplaces the
    members of an object in a [std::map], whatever the items it is given. *)
Theorem ToJson_wf (mode : JsonMode) (e : Expression)
  (Hartifact : forall a, Json.wf (Artifact_ToJson a))
  (Hnode : forall n, Json.wf (Node_ToJson n))
  (Hname : forall n, Json.wf (Name_ToJson n)) :
  Json.wf (ToJson mode e).
Proof.
  revert mode.
  induction e as [ | | | |n|a p rf c IHa IHp IHrf|n|a|l IH|m IH]
    using Expression_stages_ind; intros mode; try exact I.
  - destruct mode; simpl; [apply Hname|apply Hname|exact I].
  - assert (Hstages :
      Json.wf
        (j_object
           (Json.emplace_all
              (LinkedMap.make
                 (emplace_entries
                    [("artifact_stage", ToJson SerializeAllButNodes a);
                     ("runfiles", ToJson SerializeAllButNodes rf);
                     ("provides", ToJson SerializeAllButNodes p)]))))).
    { apply json_wf_emplace_all. apply List.Forall_forall. intros kv Hkv.
      apply (Permutation_in _ (LinkedMap_make_perm _)) in Hkv.
      apply emplace_entries_In in Hkv.
      destruct Hkv as [<-|[<-|[<-|[]]]]; simpl; [apply IHa|apply IHrf|apply IHp]. }
    destruct mode; [exact Hstages|exact Hstages|exact I].
  - destruct mode; [apply Hnode| |exact I].
    change (Json.wf
              (j_object
                 (Json.emplace_all
                    [("type", j_string "NODE");
                     ("id", j_string (ToHexString (Node_hash n)))]))).
    apply json_wf_emplace_all. repeat constructor.
  - destruct mode; simpl; [apply Hartifact|apply Hartifact|exact I].
  - change (Json.wf (j_array (List.map (ToJson mode) l))).
    apply json_wf_array_intro. apply List.Forall_forall. intros j Hj.
    apply List.in_map_iff in Hj. destruct Hj as (x & <- & Hx).
    rewrite List.Forall_forall in IH. now apply IH.
  - change (Json.wf
              (j_object
                 (Json.emplace_all
                    (List.map (fun p => (fst p, ToJson mode (snd p))) m)))).
    apply json_wf_emplace_all. apply List.Forall_forall. intros kv Hkv.
    apply List.in_map_iff in Hkv. destruct Hkv as (x & <- & Hx).
    rewrite List.Forall_forall in IH. now apply IH.
Qed.

(** *** Decoding what was encoded *)

Lemma json_emplace_last k v (o : list (string * json)) :
  List.Forall (fun kv' => LinkedMap.key_lt kv' (k, v)) o ->
  Json.emplace k v o = o ++ [(k, v)].
Proof.
  induction 1 as [|[k' v'] r Hlt Hr IH]; simpl; [reflexivity|].
  unfold LinkedMap.key_lt in Hlt. simpl in Hlt.
  destruct (String.ltb k k') eqn:Hkk.
  { exfalso. exact (string_lt_asym _ _ Hlt Hkk). }
  destruct (String.eqb_spec k k') as [Heq|Hne].
  { exfalso. subst. exact (string_lt_irrefl _ Hlt). }
  now rewrite IH.
Qed.

Lemma json_emplace_all_acc_id (l acc : list (string * json)) :
  Sorted LinkedMap.key_lt (acc ++ l) ->
  fold_left (fun o kv => Json.emplace (fst kv) (snd kv) o) l acc = acc ++ l.
Proof.
  revert acc. induction l as [|[k v] l IH]; simpl; intros acc Hs.
  - now rewrite List.app_nil_r.
  - rewrite json_emplace_last.
    + rewrite IH.
      * now rewrite <- List.app_assoc.
      * rewrite <- List.app_assoc. exact Hs.
    + apply List.Forall_forall. intros item Hitem.
      exact (sorted_before acc l (k, v) Hs item Hitem).
Qed.

Lemma json_emplace_all_sorted_id (l : list (string * json)) :
  Sorted LinkedMap.key_lt l -> Json.emplace_all l = l.
Proof. intros Hs. now apply (json_emplace_all_acc_id l []). Qed.

Lemma map_values_sorted {A B} (f : A -> B) (m : list (string * A)) :
  Sorted LinkedMap.key_lt m ->
  Sorted LinkedMap.key_lt (List.map (fun kv => (fst kv, f (snd kv))) m).
Proof.
  induction 1 as [|kv r Hr IH Hh]; simpl; constructor; [assumption|].
  destruct Hh; simpl; constructor. assumption.
Qed.

Lemma IsJsonData_list l :
  IsJsonData (list_t l) -> List.Forall IsJsonData l.
Proof.
  simpl. induction l as [|x r IH]; intros H; constructor; [apply H|apply IH, H].
Qed.

Lemma IsJsonData_map m :
  IsJsonData (map_t m) ->
  Sorted LinkedMap.key_lt m /\ List.Forall (fun kv => IsJsonData (snd kv)) m.
Proof.
  simpl. intros [Hs H]. split; [exact Hs|]. clear Hs.
  induction m as [|x r IH]; constructor; [apply H|apply IH, H].
Qed.

(** X5.  Decoding the JSON of an expression gives the expression back, in
    each mode, when the expression holds JSON data only: none, booleans,
    numbers (NaN and the infinities among them), strings, lists and maps. *)
Theorem FromJson_ToJson_roundtrip (mode : JsonMode) (e : Expression)
  (Hdata : IsJsonData e) :
  FromJson (ToJson mode e) = e.
Proof.
  induction e as [ | | | | | | | |l IH|m IH] using Expression_nested_ind;
    try reflexivity; try (now destruct Hdata).
  - apply IsJsonData_list in Hdata.
    change (list_t (List.map FromJson (List.map (ToJson mode) l)) = list_t l).
    f_equal. rewrite List.map_map. rewrite <- (List.map_id l) at 2.
    apply List.map_ext_in. intros x Hx.
    rewrite List.Forall_forall in IH, Hdata. now apply IH; [|apply Hdata].
  - apply IsJsonData_map in Hdata. destruct Hdata as [Hs Hdata].
    change (map_of
              (emplace_entries
                 (List.map (fun el => (fst el, FromJson (snd el)))
                    (Json.emplace_all
                       (List.map (fun p => (fst p, ToJson mode (snd p))) m))))
            = map_t m).
    rewrite json_emplace_all_sorted_id by now apply map_values_sorted.
    rewrite List.map_map. simpl.
    assert (Hm : List.map
                   (fun x : string * Expression =>
                      (fst x, FromJson (ToJson mode (snd x)))) m = m).
    { rewrite <- (List.map_id m) at 2. apply List.map_ext_in. intros [k v] Hx.
      simpl. f_equal.
      rewrite List.Forall_forall in IH, Hdata.
      now apply (IH (k, v)); [|apply (Hdata (k, v))]. }
    rewrite Hm. unfold map_of.
    rewrite emplace_entries_nodup by now apply sorted_keys_NoDup.
    now rewrite LinkedMap_make_sorted_id.
Qed.

(** *** The hash of lists and maps *)

Lemma feed_Some hasher (parts : list (option string)) :
  List.Forall (fun part => exists h, part = Some h) parts ->
  exists hasher', feed hasher parts = Some hasher'.
Proof.
  intros Hparts. revert hasher.
  induction Hparts as [|part r [h ->] Hr IH]; simpl; intros hasher; eauto.
Qed.

Lemma ToHash_list_feed l :
  ToHash (list_t l) = digest_of_feed "[" (List.map ToHash l).
Proof.
  unfold digest_of_feed. rewrite <- update_list_feed. reflexivity.
Qed.

Lemma ToHash_map_feed m :
  ToHash (map_t m) = digest_of_feed "{" (map_parts m).
Proof.
  unfold digest_of_feed. rewrite <- update_map_feed. reflexivity.
Qed.

(** X6.  [ToHash] ends the process only where [Finalize] fails: with a hash
    generator whose [Finalize] always answers, every expression has a
    hash. *)
Theorem ToHash_returns (e : Expression)
  (Hfinalize : forall hasher, Finalize hash_gen_ hasher <> None) :
  exists digest, ToHash e = Some digest.
Proof.
  assert (Hdigest : forall bracket parts,
             List.Forall (fun part => exists h, part = Some h) parts ->
             exists digest, digest_of_feed bracket parts = Some digest).
  { intros bracket parts Hparts. unfold digest_of_feed.
    destruct (feed_Some (Update hash_gen_ (IncrementalHasher hash_gen_) bracket)
                parts Hparts) as [hasher ->].
    specialize (Hfinalize hasher).
    destruct (Finalize hash_gen_ hasher) as [digest|]; [eauto|congruence]. }
  induction e as [ | | | | | | | |l IH|m IH] using Expression_nested_ind;
    try (eexists; reflexivity).
  - rewrite ToHash_list_feed. apply Hdigest.
    apply List.Forall_forall. intros part Hpart.
    apply List.in_map_iff in Hpart. destruct Hpart as (x & <- & Hx).
    rewrite List.Forall_forall in IH. now apply IH.
  - rewrite ToHash_map_feed. apply Hdigest.
    apply List.Forall_forall. intros part Hpart.
    apply List.in_flat_map in Hpart. destruct Hpart as (el & Hel & Hpart).
    destruct Hpart as [<-|[<-|[]]]; [eauto|].
    rewrite List.Forall_forall in IH. now apply (IH el).
Qed.

Lemma map_parts_keys_values (m1 m2 : LinkedMap.t Expression) :
  LinkedMap.keys m1 = LinkedMap.keys m2 ->
  List.map ToHash (LinkedMap.values m1) = List.map ToHash (LinkedMap.values m2) ->
  map_parts m1 = map_parts m2.
Proof.
  revert m2. induction m1 as [|[k1 v1] m1 IH]; intros [|[k2 v2] m2]; simpl;
    try discriminate; [reflexivity|].
  intros [= -> Hk] [= Hv Hvs]. unfold map_parts in IH |- *. simpl.
  rewrite Hv. f_equal. f_equal. now apply IH.
Qed.

(** X7.  The hash of a list depends on its elements through their hashes
    only, and the hash of a map through its keys and the hashes of its
    values: lists whose elements have the same hashes, in order, have the
    same hash, and so have maps with the same keys whose values have the same
    hashes. *)
Theorem ToHash_children (l1 l2 : list Expression) (m1 m2 : LinkedMap.t Expression)
  (Hlist : List.map ToHash l1 = List.map ToHash l2)
  (Hkeys : LinkedMap.keys m1 = LinkedMap.keys m2)
  (Hvalues : List.map ToHash (LinkedMap.values m1)
             = List.map ToHash (LinkedMap.values m2)) :
  ToHash (list_t l1) = ToHash (list_t l2)
  /\ ToHash (map_t m1) = ToHash (map_t m2).
Proof.
  split.
  - now rewrite !ToHash_list_feed, Hlist.
  - rewrite !ToHash_map_feed. f_equal. now apply map_parts_keys_values.
Qed.

(** ** Further properties of the JSON file maps *)

(** X9.  The reader sets nothing but JSON objects, and only for a module
    inside a repository that has a root and a file name: whenever it sets a
    value, the value is an object, and the normalised module is neither
    absolute nor begins with [..]. *)
Theorem json_file_reader_sets_object
  (get_root : string -> option FileRoot.t) (get_name : string -> option string)
  (kMandatory : bool) (key : ModuleName.t) (value : json)
  (Hset : json_file_reader get_root get_name kMandatory key = SetValue value) :
  Json.is_object value = true
  /\ (exists root json_file_name,
         get_root (ModuleName.repository key) = Some root
         /\ get_name (ModuleName.repository key) = Some json_file_name)
  /\ Path.is_absolute (Path.lexically_normal (ModuleName.module key)) = false
  /\ Path.begin (Path.lexically_normal (ModuleName.module key)) <> "..".
Proof.
  unfold json_file_reader in Hset.
  destruct (get_root (ModuleName.repository key)) as [root|]; [|discriminate].
  destruct (get_name (ModuleName.repository key)) as [json_file_name|];
    [|discriminate].
  destruct (Path.is_absolute (Path.lexically_normal (ModuleName.module key)))
    eqn:Habs; [discriminate|].
  destruct (String.eqb_spec
              (Path.begin (Path.lexically_normal (ModuleName.module key))) "..")
    as [Hdots|Hdots]; [discriminate|].
  simpl in Hset.
  assert (Hobject : Json.is_object value = true).
  { destruct (negb (FileRoot.IsFile root _)).
    - destruct kMandatory; [discriminate|]. now injection Hset as <-.
    - destruct (FileRoot.ReadFile root _) as [content|]; [|discriminate].
      destruct (json_parse content) as [json|]; [|discriminate].
      destruct (Json.is_object json) eqn:Hobj; [|discriminate].
      simpl in Hset. now injection Hset as <-. }
  repeat split; eauto.
Qed.

(** X10.  The reader looks at one file only: two repository configurations
    that give a repository the same file name, and roots that agree on
    whether the JSON file of the module exists and on what it holds, lead
    to the same outcome, whatever else the roots hold. *)
Theorem json_file_reader_one_file
  (get_root get_root' : string -> option FileRoot.t)
  (get_name get_name' : string -> option string)
  (kMandatory : bool) (key : ModuleName.t)
  (root root' : FileRoot.t) (json_file_name : string)
  (Hroot : get_root (ModuleName.repository key) = Some root)
  (Hroot' : get_root' (ModuleName.repository key) = Some root')
  (Hname : get_name (ModuleName.repository key) = Some json_file_name)
  (Hname' : get_name' (ModuleName.repository key) = Some json_file_name) :
  let json_file_path :=
    Path.append (Path.lexically_normal (ModuleName.module key)) json_file_name in
  FileRoot.IsFile root json_file_path = FileRoot.IsFile root' json_file_path ->
  FileRoot.ReadFile root json_file_path = FileRoot.ReadFile root' json_file_path ->
  json_file_reader get_root get_name kMandatory key
  = json_file_reader get_root' get_name' kMandatory key.
Proof.
  intros json_file_path HIsFile HReadFile. unfold json_file_reader.
  rewrite Hroot, Hroot', Hname, Hname'.
  fold json_file_path. now rewrite HIsFile, HReadFile.
Qed.

(** ** Further properties of the functions of the defining expression *)

(** *** What a computation that returns has done *)

Lemma bind_inv {A B} (m : M A) (k : A -> M B) c r :
  (m ≫= k) c = inr r -> exists a c1, m c = inr (a, c1) /\ k a c1 = inr r.
Proof.
  unfold mbind, M_bind, bind. destruct (m c) as [e|[a c1]]; [discriminate|].
  eauto.
Qed.

Lemma ensure_inv b e c (r : unit * Collectors) :
  ensure b e c = inr r -> b = true /\ r = (tt, c).
Proof. destruct b; simpl; [|discriminate]. now intros [= <-]. Qed.

Lemma for_each_inv {A} (P : A -> Prop) (f : A -> M unit) (l : list A) c r :
  (forall x c r, f x c = inr r -> P x /\ r = (tt, c)) ->
  for_each f l c = inr r -> List.Forall P l /\ r = (tt, c).
Proof.
  intros Hf. induction l as [|x l IH]; simpl.
  - intros [= <-]. split; [constructor|reflexivity].
  - intros H. apply bind_inv in H. destruct H as (a & c1 & Hx & H).
    apply Hf in Hx. destruct Hx as [Hx [= -> ->]].
    apply IH in H. destruct H as [Hl ->]. split; [now constructor|reflexivity].
Qed.

Lemma for_each_ensure_inv {A} (p : A -> bool) (err : A -> Exception)
  (l : list A) c r :
  for_each (fun x => ensure (p x) (err x)) l c = inr r ->
  forallb p l = true /\ r = (tt, c).
Proof.
  intros H.
  apply (for_each_inv (fun x => p x = true)) in H.
  - destruct H as [H ->]. split; [|reflexivity].
    apply List.forallb_forall. now apply List.Forall_forall.
  - intros x c0 r0 Hx. now apply ensure_inv in Hx.
Qed.

Lemma for_each_ensure_ok {A} (p : A -> bool) (err : A -> Exception)
  (l : list A) c :
  forallb p l = true ->
  for_each (fun x => ensure (p x) (err x)) l c = inr (tt, c).
Proof.
  induction l as [|x l IH]; simpl; [reflexivity|].
  intros H. apply andb_prop in H. destruct H as [Hx Hl].
  rewrite Hx. simpl. erewrite bind_inr by reflexivity. now apply IH.
Qed.

Lemma strings_of_cons (x : Expression) (r : list Expression) :
  strings_of (list_t (x :: r))
  = match x with
    | string_t s =>
        match strings_of (list_t r) with
        | Some r' => Some (s :: r')
        | None => None
        end
    | _ => None
    end.
Proof. now destruct x. Qed.

Lemma strings_of_list (entries : list Expression) (l : list string) :
  strings_of (list_t entries) = Some l <-> entries = List.map string_t l.
Proof.
  revert l. induction entries as [|x r IH]; intros l.
  - simpl. split; [now intros [= <-]|]. destruct l; [reflexivity|discriminate].
  - rewrite strings_of_cons.
    destruct x as [ | | |s| | | | | | ];
      try (split; [discriminate|destruct l; intros [=]]).
    destruct (strings_of (list_t r)) as [r'|].
    + split.
      * intros [= <-]. simpl. f_equal. now apply (IH r').
      * destruct l as [|s' l']; [discriminate|]. intros [= -> Hl].
        apply IH in Hl. congruence.
    + split; [discriminate|].
      destruct l as [|s' l']; [discriminate|]. intros [= -> Hl].
      apply IH in Hl. discriminate.
Qed.

Lemma strings_of_Some (e : Expression) (l : list string) :
  strings_of e = Some l <-> e = list_t (List.map string_t l).
Proof.
  destruct e as [ | | | | | | | |entries| ];
    try (split; [discriminate|intros [=]]).
  rewrite strings_of_list. split; [now intros ->|now intros [= ->]].
Qed.

Lemma ReadActionOutputExpr_inv out_exp field_name c outputs c' :
  ReadActionOutputExpr out_exp field_name c = inr (outputs, c') ->
  out_exp = list_t (List.map string_t outputs) /\ c' = c.
Proof.
  intros H. pose proof (ReadActionOutputExpr_strings out_exp field_name c) as Hs.
  destruct (strings_of out_exp) as [l|] eqn:Hl.
  - rewrite Hs in H. injection H as <- <-. split; [|reflexivity].
    now apply strings_of_Some.
  - destruct Hs as [msg Hs]. congruence.
Qed.

(** X11.  [ReadActionOutputExpr] reads back the strings of a list of string
    expressions, in their order, and reads nothing else: it returns exactly
    on the lists of strings, and appends no action, blob or tree. *)
Theorem ReadActionOutputExpr_iff (out_exp : Expression) (field_name : string)
  (c c' : Collectors) (outputs : list string) :
  ReadActionOutputExpr out_exp field_name c = inr (outputs, c')
  <-> out_exp = list_t (List.map string_t outputs) /\ c' = c.
Proof.
  split; [apply ReadActionOutputExpr_inv|].
  intros [-> ->].
  pose proof (ReadActionOutputExpr_strings
                (list_t (List.map string_t outputs)) field_name c) as Hs.
  now rewrite (proj2 (strings_of_Some _ outputs) Logic.eq_refl) in Hs.
Qed.

Lemma check_taint_list_inv (rule : UserRule.t) field sep exp c l c' :
  check_taint_list rule field sep exp c = inr (l, c') ->
  exp = list_t l /\ c' = c
  /\ List.Forall
       (fun entry => exists s, entry = string_t s /\ s ∈ UserRule.Tainted rule) l.
Proof.
  unfold check_taint_list.
  destruct exp as [ | | | | | | | |entries| ]; try discriminate.
  intros H. apply bind_inv in H. destruct H as ([] & c1 & Hall & H).
  injection H as <- <-.
  apply (for_each_inv
           (fun entry => exists s, entry = string_t s /\ s ∈ UserRule.Tainted rule))
    in Hall.
  - destruct Hall as [Hall [= ->]]. now repeat split.
  - intros x c0 r0 Hx. destruct x as [ | | |s| | | | | | ]; try discriminate.
    apply ensure_inv in Hx. destruct Hx as [Hs ->]. split; [|reflexivity].
    exists s. split; [reflexivity|]. now apply bool_decide_eq_true in Hs.
Qed.

Lemma Find_map_self {V} (g : string -> V) (out : string) (l : list string) :
  LinkedMap.Find out (List.map (fun o => (o, g o)) l)
  = if existsb (String.eqb out) l then Some (g out) else None.
Proof.
  induction l as [|o l IH]; simpl; [reflexivity|].
  destruct (String.eqb_spec out o) as [->|Hne]; [reflexivity|exact IH].
Qed.


(** One step of a computation that returned. *)
Ltac returned H a c1 Hstep :=
  apply bind_inv in H; destruct H as (a & c1 & Hstep & H); cbv beta zeta in H.


(** A step of a computation that returned, whatever it was. *)
Ltac passed H :=
  let a := fresh "a" in
  let c := fresh "c" in
  let Hstep := fresh "Hstep" in
  returned H a c Hstep; clear Hstep.

Lemma tainted_strings (P : string -> Prop) (l : list Expression) :
  List.Forall (fun entry => exists s, entry = string_t s /\ P s) l ->
  exists strings, l = List.map string_t strings /\ List.Forall P strings.
Proof.
  induction 1 as [|entry r (s & -> & Hs) Hr (strings & -> & Hstrings)].
  - exists []. split; [reflexivity|constructor].
  - exists (s :: strings). split; [reflexivity|now constructor].
Qed.

(** X13.  [ACTION] returns only if [may_fail] and [no_cache], which it reads
    from its call without evaluating them, are lists of strings that the
    rule is tainted with; absent, they count as the empty list. *)
Theorem ACTION_taint (rule : UserRule.t) (eval : SubExprEvaluator)
  (expr_map : LinkedMap.t Expression) (env : Configuration.t)
  (c c' : Collectors) (result : Expression)
  (Hrun : ACTION rule eval (map_t expr_map) env c = inr (result, c')) :
  forall field, field = "may_fail" \/ field = "no_cache" ->
    exists strings,
      default (list_t []) (LinkedMap.Find field expr_map)
      = list_t (List.map string_t strings)
      /\ List.Forall (fun s => s ∈ UserRule.Tainted rule) strings.
Proof.
  unfold ACTION in Hrun. cbv beta zeta in Hrun.
  do 24 passed Hrun.
  returned Hrun may_fail_exp s1 Hstep.
  rewrite Get_map in Hstep. injection Hstep as <- <-.
  returned Hrun may_fail_list s2 Hstep.
  apply check_taint_list_inv in Hstep. destruct Hstep as (Hmay_fail & -> & Hmf).
  passed Hrun.
  returned Hrun no_cache_exp s3 Hstep.
  rewrite Get_map in Hstep. injection Hstep as <- <-.
  returned Hrun no_cache_list s4 Hstep.
  apply check_taint_list_inv in Hstep. destruct Hstep as (Hno_cache & -> & Hnc).
  clear Hrun.
  apply tainted_strings in Hmf, Hnc.
  destruct Hmf as (mf & -> & Hmf). destruct Hnc as (nc & -> & Hnc).
  intros field [->| ->]; [exists mf|exists nc]; now split.
Qed.

(** *** Trees *)

Lemma TREE_stage_inv (size : nat) (items : list (string * Expression))
  (artifacts : LinkedMap.underlying_map_t ArtifactDescription) c r c' :
  TREE_stage size items artifacts c = inr (r, c') ->
  c' = c
  /\ match r with
     | inl artifact =>
         exists pre k a rest,
           items = pre ++ (k, artifact_t a) :: rest
           /\ artifact = artifact_t a
           /\ is_dot_path (Path.lexically_normal k) = true
           /\ size <= 1
           /\ IsTree a = true
     | inr staged =>
         List.Forall
           (fun item =>
              IsArtifact (snd item) = true
              /\ is_dot_path (Path.lexically_normal (fst item)) = false) items
         /\ staged
            = fold_left (fun u kv => LinkedMap.emplace (fst kv) (snd kv) u)
                (staged_entries items) artifacts
     end.
Proof.
  revert artifacts. induction items as [|[k v] items IH]; intros artifacts; simpl.
  - intros [= <- <-]. split; [reflexivity|]. split; [constructor|reflexivity].
  - destruct v as [ | | | | | | |a| | ]; try discriminate.
    fold (is_dot_path (Path.lexically_normal k)).
    destruct (is_dot_path (Path.lexically_normal k)) eqn:Hdot.
    + destruct (Nat.ltb_spec 1 size) as [Hsize|Hsize]; [discriminate|].
      destruct (IsTree a) eqn:Htree; [|discriminate]. simpl.
      intros [= <- <-]. split; [reflexivity|].
      exists [], k, a, items. repeat split; assumption.
    + intros H. apply IH in H. destruct H as [-> H]. split; [reflexivity|].
      destruct r as [artifact|staged].
      * destruct H as (pre & k' & a' & rest & -> & H).
        exists ((k, artifact_t a) :: pre), k', a', rest. now split.
      * destruct H as [Hall ->]. split; [|reflexivity].
        constructor; [|exact Hall]. now split.
Qed.

(** X14.  When [TREE] returns on an argument that evaluated, the argument is
    a map of artifacts and one of two things happened.  Either the map has a
    single entry, at a path that names the tree itself, whose artifact is a
    tree, and that artifact is returned and nothing appended.  Or no path
    names the tree itself and no conflict was found, and one tree was
    appended, whose artifacts are bound at pairwise different paths: each
    normalised path holds the artifact of the first item that has this normal
    form. *)
Theorem TREE_returns (eval : SubExprEvaluator)
  (expr_map : LinkedMap.t Expression) (env : Configuration.t)
  (c c1 c' : Collectors) (val result : Expression)
  (Hval : eval (default kEmptyMapExpr (LinkedMap.Find "$1" expr_map)) env c
          = inr (val, c1))
  (Hrun : TREE eval (map_t expr_map) env c = inr (result, c')) :
  exists m,
    val = map_t m
    /\ ((exists k a,
            m = [(k, artifact_t a)]
            /\ is_dot_path (Path.lexically_normal k) = true
            /\ IsTree a = true
            /\ result = artifact_t a
            /\ c' = c1)
        \/ (List.Forall
              (fun item =>
                 IsArtifact (snd item) = true
                 /\ is_dot_path (Path.lexically_normal (fst item)) = false) m
            /\ tree_conflict val = None
            /\ exists artifacts,
                result = artifact_t (TreeArtifact (Tree_Id (Tree.mk artifacts)))
                /\ c' = mkCollectors (actions c1) (blobs c1)
                          (trees c1 ++ [Tree.mk artifacts])
                /\ List.NoDup (LinkedMap.keys artifacts)
                /\ forall p,
                    LinkedMap.Find p artifacts
                    = LinkedMap.Find p (staged_entries m))).
Proof.
  unfold TREE in Hrun. cbv beta zeta in Hrun.
  returned Hrun arg c0 Hstep.
  rewrite Get_map in Hstep. injection Hstep as <- <-.
  returned Hrun val' c0 Hstep.
  rewrite Hval in Hstep. injection Hstep as <- <-.
  destruct val as [ | | | | | | | | |m]; try discriminate.
  exists m. split; [reflexivity|].
  returned Hrun staged c0 Hstep.
  apply TREE_stage_inv in Hstep. destruct Hstep as [-> Hstaged].
  destruct staged as [artifact|artifacts].
  - left. injection Hrun as <- <-.
    destruct Hstaged as (pre & k & a & rest & -> & -> & Hdot & Hsize & Htree).
    unfold LinkedMap.size in Hsize. rewrite List.length_app in Hsize.
    simpl in Hsize.
    destruct pre as [|x pre]; [|simpl in Hsize; lia].
    destruct rest as [|y rest]; [|simpl in Hsize; lia].
    exists k, a. now repeat split.
  - right. destruct Hstaged as [Hall ->].
    destruct (tree_conflict (map_t m)); [discriminate|].
    returned Hrun u c0 Hstep.
    unfold add_tree in Hstep. injection Hstep as <- <-.
    injection Hrun as <- <-.
    split; [exact Hall|]. split; [reflexivity|].
    eexists. split; [reflexivity|]. split; [reflexivity|]. split.
    + apply fold_emplace_NoDup. constructor.
    + intros p. now rewrite Find_fold_emplace.
Qed.

(** *** Results and nodes *)

(** X15.  When its three arguments evaluate, [RESULT] returns if and only if
    the artifacts and the runfiles are maps whose values are all artifacts
    and the provided data is a map; it then returns the target result of the
    three values and appends nothing. *)
Theorem RESULT_returns_iff (eval : SubExprEvaluator)
  (expr_map : LinkedMap.t Expression) (env : Configuration.t)
  (c c1 c2 c3 c' : Collectors)
  (artifacts runfiles provides result : Expression)
  (Hartifacts :
     eval (default kEmptyMapExpr (LinkedMap.Find "artifacts" expr_map)) env c
     = inr (artifacts, c1))
  (Hrunfiles :
     eval (default kEmptyMapExpr (LinkedMap.Find "runfiles" expr_map)) env c1
     = inr (runfiles, c2))
  (Hprovides :
     eval (default kEmptyMapExpr (LinkedMap.Find "provides" expr_map)) env c2
     = inr (provides, c3)) :
  RESULT eval (map_t expr_map) env c = inr (result, c')
  <-> (exists artifacts_map runfiles_map,
          artifacts = map_t artifacts_map
          /\ runfiles = map_t runfiles_map
          /\ forallb (fun entry => IsArtifact (snd entry)) artifacts_map = true
          /\ forallb (fun entry => IsArtifact (snd entry)) runfiles_map = true)
      /\ IsMap provides = true
      /\ result = result_t (make_TargetResult artifacts provides runfiles)
      /\ c' = c3.
Proof.
  unfold RESULT. cbv beta zeta. split.
  - intros Hrun.
    returned Hrun arg s Hstep.
    rewrite Get_map in Hstep. injection Hstep as <- <-.
    returned Hrun evaluated s Hstep.
    rewrite Hartifacts in Hstep. injection Hstep as <- <-.
    returned Hrun arg s Hstep.
    rewrite Get_map in Hstep. injection Hstep as <- <-.
    returned Hrun evaluated s Hstep.
    rewrite Hrunfiles in Hstep. injection Hstep as <- <-.
    returned Hrun arg s Hstep.
    rewrite Get_map in Hstep. injection Hstep as <- <-.
    returned Hrun evaluated s Hstep.
    rewrite Hprovides in Hstep. injection Hstep as <- <-.
    returned Hrun u s Hstep.
    returned Hstep u' s' Hmap.
    apply ensure_inv in Hmap. destruct Hmap as [_ [= -> ->]].
    returned Hstep artifacts_map s' Hmap.
    destruct artifacts as [ | | | | | | | | |artifacts_map']; try discriminate.
    injection Hmap as <- <-.
    apply for_each_ensure_inv in Hstep. destruct Hstep as [Ha [= -> ->]].
    returned Hrun u s Hstep.
    returned Hstep u' s' Hmap.
    apply ensure_inv in Hmap. destruct Hmap as [_ [= -> ->]].
    returned Hstep runfiles_map s' Hmap.
    destruct runfiles as [ | | | | | | | | |runfiles_map']; try discriminate.
    injection Hmap as <- <-.
    apply for_each_ensure_inv in Hstep. destruct Hstep as [Hr [= -> ->]].
    returned Hrun u s Hstep.
    apply ensure_inv in Hstep. destruct Hstep as [Hp [= -> ->]].
    injection Hrun as <- <-.
    split; [now exists artifacts_map', runfiles_map'|]. now repeat split.
  - intros [(artifacts_map & runfiles_map & -> & -> & Ha & Hr) (Hp & -> & ->)].
    erewrite bind_inr by apply Get_map.
    erewrite bind_inr by exact Hartifacts.
    erewrite bind_inr by apply Get_map.
    erewrite bind_inr by exact Hrunfiles.
    erewrite bind_inr by apply Get_map.
    erewrite bind_inr by exact Hprovides.
    erewrite bind_inr.
    2: { erewrite bind_inr by reflexivity. erewrite bind_inr by reflexivity.
         now apply for_each_ensure_ok. }
    erewrite bind_inr.
    2: { erewrite bind_inr by reflexivity. erewrite bind_inr by reflexivity.
         now apply for_each_ensure_ok. }
    rewrite Hp. reflexivity.
Qed.

Lemma check_entries_inv (map : list (string * Expression))
  (type_check : Expression -> bool) (fields_name type_name : string)
  (disjoint_map : option Expression) c r c' :
  check_entries map type_check fields_name type_name disjoint_map c = inr (r, c') ->
  c' = c
  /\ match r with
     | Some key =>
         exists other, disjoint_map = Some (map_t other)
                       /\ LinkedMap.contains key other = true
     | None =>
         List.Forall
           (fun entry =>
              (exists l, snd entry = list_t l /\ forallb type_check l = true)
              /\ forall other, disjoint_map = Some (map_t other) ->
                               LinkedMap.contains (fst entry) other = false) map
     end.
Proof.
  induction map as [|[key list] rest IH]; simpl.
  - intros [= <- <-]. split; [reflexivity|constructor].
  - destruct list as [ | | | | | | | |l| ]; try discriminate.
    intros H. returned H u s Hstep.
    apply for_each_ensure_inv in Hstep. destruct Hstep as [Hl [= -> ->]].
    destruct disjoint_map as [other|].
    + returned H other_map s Hstep.
      destruct other as [ | | | | | | | | |other_map']; try discriminate.
      injection Hstep as <- <-.
      destruct (LinkedMap.contains key other_map') eqn:Hcontains.
      * injection H as <- <-. split; [reflexivity|]. now exists other_map'.
      * apply IH in H. destruct H as [-> H]. split; [reflexivity|].
        destruct r as [key'|]; [exact H|].
        constructor; [|exact H]. split; [now exists l|].
        now intros other [= <-].
    + apply IH in H. destruct H as [-> H]. split; [reflexivity|].
      destruct r as [key'|]; [exact H|].
      constructor; [|exact H]. split; [now exists l|]. discriminate.
Qed.

(** X16.  When its three arguments evaluate and [ABSTRACT_NODE] returns, the
    node type is a string, the string fields are a map of lists of strings,
    the target fields are a map of lists of target nodes, and no key of the
    string fields is a key of the target fields; the value is the abstract
    node of the three, and nothing is appended. *)
Theorem ABSTRACT_NODE_returns (eval : SubExprEvaluator)
  (expr_map : LinkedMap.t Expression) (env : Configuration.t)
  (c c1 c2 c3 c' : Collectors)
  (type string_fields target_fields result : Expression)
  (Htype :
     eval (default kNone (LinkedMap.Find "node_type" expr_map)) env c
     = inr (type, c1))
  (Hstring_fields :
     eval (default kEmptyMapExpr (LinkedMap.Find "string_fields" expr_map)) env c1
     = inr (string_fields, c2))
  (Htarget_fields :
     eval (default kEmptyMapExpr (LinkedMap.Find "target_fields" expr_map)) env c2
     = inr (target_fields, c3))
  (Hrun : ABSTRACT_NODE eval (map_t expr_map) env c = inr (result, c')) :
  exists node_type string_map target_map,
    type = string_t node_type
    /\ string_fields = map_t string_map
    /\ target_fields = map_t target_map
    /\ result = node_t (Abstract node_type string_fields target_fields)
    /\ c' = c3
    /\ List.Forall
         (fun entry =>
            exists l, snd entry = list_t l /\ forallb IsString l = true)
         string_map
    /\ List.Forall
         (fun entry =>
            exists l, snd entry = list_t l /\ forallb IsNode l = true)
         target_map
    /\ forall key, LinkedMap.contains key string_map = true ->
                   LinkedMap.contains key target_map = false.
Proof.
  unfold ABSTRACT_NODE in Hrun. cbv beta zeta in Hrun.
  returned Hrun arg s Hstep.
  rewrite Get_map in Hstep. injection Hstep as <- <-.
  returned Hrun evaluated s Hstep.
  rewrite Htype in Hstep. injection Hstep as <- <-.
  returned Hrun u s Hstep.
  apply ensure_inv in Hstep. destruct Hstep as [_ [= -> ->]].
  returned Hrun arg s Hstep.
  rewrite Get_map in Hstep. injection Hstep as <- <-.
  returned Hrun evaluated s Hstep.
  rewrite Hstring_fields in Hstep. injection Hstep as <- <-.
  returned Hrun u s Hstep.
  apply ensure_inv in Hstep. destruct Hstep as [_ [= -> ->]].
  returned Hrun arg s Hstep.
  rewrite Get_map in Hstep. injection Hstep as <- <-.
  returned Hrun evaluated s Hstep.
  rewrite Htarget_fields in Hstep. injection Hstep as <- <-.
  returned Hrun u s Hstep.
  apply ensure_inv in Hstep. destruct Hstep as [_ [= -> ->]].
  returned Hrun string_map s Hstep.
  destruct string_fields as [ | | | | | | | | |string_map']; try discriminate.
  injection Hstep as <- <-.
  returned Hrun dup_key s Hstep.
  apply check_entries_inv in Hstep. destruct Hstep as [-> Hstrings].
  returned Hrun u s Hstep.
  destruct dup_key as [key|]; [discriminate|]. injection Hstep as <- <-.
  returned Hrun target_map s Hstep.
  destruct target_fields as [ | | | | | | | | |target_map']; try discriminate.
  injection Hstep as <- <-.
  returned Hrun no_key s Hstep.
  apply check_entries_inv in Hstep. destruct Hstep as [-> Htargets].
  returned Hrun node_type s Hstep.
  destruct type as [ | | |node_type'| | | | | | ]; try discriminate.
  injection Hstep as <- <-. injection Hrun as <- <-.
  exists node_type', string_map', target_map'.
  do 5 (split; [reflexivity|]).
  split; [|split].
  - eapply List.Forall_impl; [|exact Hstrings]. now intros entry [H _].
  - destruct no_key as [key|].
    + destruct Htargets as (other & Hother & _). discriminate.
    + eapply List.Forall_impl; [|exact Htargets]. now intros entry [H _].
  - intros key Hkey. unfold LinkedMap.contains in Hkey.
    destruct (LinkedMap.Find key string_map') as [v|] eqn:Hfind; [|discriminate].
    apply LinkedMap_Find_Some_In in Hfind.
    rewrite List.Forall_forall in Hstrings.
    destruct (Hstrings (key, v) Hfind) as [_ Hdisjoint].
    now apply (Hdisjoint target_map').
Qed.

(** X17.  A value node made by [VALUE_NODE] is analysed to the result it
    was made of: [VALUE_NODE] returns only for an argument that evaluates to
    a result, appends nothing, and [withTargetNode] sets, for an anonymous
    target of that node, the analysed target with this result and no action,
    blob, tree, variable or taint. *)
Theorem VALUE_NODE_analysed (eval : SubExprEvaluator)
  (expr_map : LinkedMap.t Expression) (env : Configuration.t)
  (c c1 c' : Collectors) (val node : Expression)
  (Hval : eval (default kNone (LinkedMap.Find "$1" expr_map)) env c
          = inr (val, c1))
  (Hrun : VALUE_NODE eval (map_t expr_map) env c = inr (node, c')) :
  exists result,
    val = result_t result
    /\ node = node_t (Value val)
    /\ c' = c1
    /\ forall key rule_mapping,
        ConfiguredTarget.target key = Anonymous (map_t rule_mapping) node ->
        withTargetNode key
        = inr [Set_ (AnalysedTarget.mk result [] [] [] ∅ ∅)].
Proof.
  unfold VALUE_NODE in Hrun. cbv beta zeta in Hrun.
  returned Hrun arg s Hstep.
  rewrite Get_map in Hstep. injection Hstep as <- <-.
  returned Hrun evaluated s Hstep.
  rewrite Hval in Hstep. injection Hstep as <- <-.
  destruct val as [ | | | | |result| | | | ]; try discriminate.
  injection Hrun as <- <-.
  exists result. do 3 (split; [reflexivity|]).
  intros key rule_mapping Hkey. unfold withTargetNode. now rewrite Hkey.
Qed.

(** ** The data of an anonymous target *)

Lemma contains_false_Find {V} k (m : list (string * V)) :
  LinkedMap.contains k m = false <-> LinkedMap.Find k m = None.
Proof.
  unfold LinkedMap.contains. destruct (LinkedMap.Find k m); split; congruence.
Qed.

Lemma node_string_exprs_cases (kind node_type : string) (field_names : list string)
  (string_fields target_fields : LinkedMap.t Expression)
  (exprs : LinkedMap.underlying_map_t Expression) :
  match node_string_exprs kind node_type field_names string_fields target_fields
          exprs with
  | inr exprs' =>
      List.Forall (fun f => LinkedMap.contains f target_fields = false) field_names
      /\ exprs'
         = fold_left (fun u kv => LinkedMap.emplace (fst kv) (snd kv) u)
             (List.map
                (fun f => (f, default kEmptyList (LinkedMap.Find f string_fields)))
                field_names)
             exprs
  | inl _ =>
      List.Exists (fun f => LinkedMap.contains f target_fields = true) field_names
  end.
Proof.
  revert exprs. induction field_names as [|f rest IH]; intros exprs; simpl.
  - split; [constructor|reflexivity].
  - destruct (LinkedMap.Find f target_fields) as [v|] eqn:Hfind.
    + constructor. unfold LinkedMap.contains. now rewrite Hfind.
    + specialize (IH (LinkedMap.emplace f
                        (default kEmptyList (LinkedMap.Find f string_fields))
                        exprs)).
      destruct (node_string_exprs kind node_type rest string_fields target_fields
                  _) as [msg|exprs'].
      * now constructor 2.
      * destruct IH as [Hall ->]. split; [|reflexivity].
        constructor; [|exact Hall]. now apply contains_false_Find.
Qed.

Lemma node_target_exprs_cons (node_type f : string) (rest : list string)
  (string_fields target_fields : LinkedMap.t Expression)
  (rule_map : ExpressionPtr)
  (exprs : LinkedMap.underlying_map_t Expression) :
  node_target_exprs node_type (f :: rest) string_fields target_fields rule_map
    exprs
  = match LinkedMap.Find f string_fields with
    | Some _ =>
        inr (inl ("Expected target field '" +:+ f
                  +:+ "' in target_fields of abstract node type '" +:+ node_type
                  +:+ "', and not in string_fields"))
    | None =>
        match default kEmptyList (LinkedMap.Find f target_fields) with
        | list_t nodes =>
            node_target_exprs node_type rest string_fields target_fields rule_map
              (LinkedMap.emplace f
                 (list_t
                    (List.map
                       (fun node_expr => name_t (Anonymous rule_map node_expr))
                       nodes))
                 exprs)
        | _ => inl (ExpressionTypeError "Expression is not of type 'list'.")
        end
    end.
Proof. reflexivity. Qed.

Lemma node_target_exprs_cases (node_type : string) (field_names : list string)
  (string_fields target_fields : LinkedMap.t Expression)
  (rule_map : ExpressionPtr)
  (exprs : LinkedMap.underlying_map_t Expression) :
  match node_target_exprs node_type field_names string_fields target_fields
          rule_map exprs with
  | inr (inr exprs') =>
      List.Forall (fun f => LinkedMap.contains f string_fields = false) field_names
      /\ exists nodes_of : string -> list Expression,
          List.Forall
            (fun f => default kEmptyList (LinkedMap.Find f target_fields)
                      = list_t (nodes_of f)) field_names
          /\ exprs'
             = fold_left (fun u kv => LinkedMap.emplace (fst kv) (snd kv) u)
                 (List.map
                    (fun f =>
                       (f, list_t
                             (List.map
                                (fun node_expr =>
                                   name_t (Anonymous rule_map node_expr))
                                (nodes_of f))))
                    field_names)
                 exprs
  | inr (inl _) =>
      List.Exists (fun f => LinkedMap.contains f string_fields = true) field_names
  | inl _ =>
      List.Exists
        (fun f => IsList (default kEmptyList (LinkedMap.Find f target_fields))
                  = false) field_names
  end.
Proof.
  pose (nodes_of := fun f =>
    match default kEmptyList (LinkedMap.Find f target_fields) with
    | list_t nodes => nodes
    | _ => []
    end).
  assert (Hgoal :
    match node_target_exprs node_type field_names string_fields target_fields
            rule_map exprs with
    | inr (inr exprs') =>
        List.Forall (fun f => LinkedMap.contains f string_fields = false)
          field_names
        /\ List.Forall
             (fun f => default kEmptyList (LinkedMap.Find f target_fields)
                       = list_t (nodes_of f)) field_names
        /\ exprs'
           = fold_left (fun u kv => LinkedMap.emplace (fst kv) (snd kv) u)
               (List.map
                  (fun f =>
                     (f, list_t
                           (List.map
                              (fun node_expr =>
                                 name_t (Anonymous rule_map node_expr))
                              (nodes_of f))))
                  field_names)
               exprs
    | inr (inl _) =>
        List.Exists (fun f => LinkedMap.contains f string_fields = true)
          field_names
    | inl _ =>
        List.Exists
          (fun f => IsList (default kEmptyList (LinkedMap.Find f target_fields))
                    = false) field_names
    end).
  { revert exprs. induction field_names as [|f rest IH]; intros exprs.
    - simpl. repeat split; constructor.
    - rewrite node_target_exprs_cons. cbn [List.map fold_left fst snd].
      destruct (LinkedMap.Find f string_fields) as [v|] eqn:Hfind.
      + constructor. unfold LinkedMap.contains. now rewrite Hfind.
      + assert (Hnodes : nodes_of f
                         = match default kEmptyList
                                   (LinkedMap.Find f target_fields) with
                           | list_t nodes => nodes
                           | _ => []
                           end) by reflexivity.
        destruct (default kEmptyList (LinkedMap.Find f target_fields))
          as [ | | | | | | | |nodes| ] eqn:Hexpr;
          try (constructor; now rewrite Hexpr).
        specialize (IH (LinkedMap.emplace f
                          (list_t
                             (List.map
                                (fun node_expr =>
                                   name_t (Anonymous rule_map node_expr))
                                nodes))
                          exprs)).
        destruct (node_target_exprs node_type rest string_fields target_fields
                    rule_map _) as [e|[msg|exprs']].
        * now constructor 2.
        * now constructor 2.
        * destruct IH as (Hall & Hlists & ->). rewrite Hnodes.
          split; [|split; [|reflexivity]].
          -- constructor; [|exact Hall]. now apply contains_false_Find.
          -- constructor; [|exact Hlists]. now rewrite Hnodes. }
  destruct (node_target_exprs node_type field_names string_fields target_fields
              rule_map exprs) as [e|[msg|exprs']]; try exact Hgoal.
  destruct Hgoal as (Hall & Hlists & ->). split; [exact Hall|].
  now exists nodes_of.
Qed.

Lemma Find_emplace_fields {V} (value_of : string -> V) (field_names : list string)
  (f : string) :
  LinkedMap.Find f
    (fold_left (fun u kv => LinkedMap.emplace (fst kv) (snd kv) u)
       (List.map (fun f => (f, value_of f)) field_names) [])
  = if existsb (String.eqb f) field_names then Some (value_of f) else None.
Proof. rewrite Find_fold_emplace. simpl. apply Find_map_self. Qed.

Lemma existsb_eqb_In (f : string) (l : list string) :
  List.In f l -> existsb (String.eqb f) l = true.
Proof.
  intros H. apply List.existsb_exists. exists f. split; [exact H|].
  apply String.eqb_refl.
Qed.

(** X18.  The data that [FromTargetNode] reads from an abstract node: every
    config field and every string field of the rule is bound to its
    expression in the string fields of the node, or to the empty list, and
    is no key of the target fields; every target field of the rule is no
    key of the string fields and is bound to the list of the anonymous
    targets of the nodes of that field, each with the rule map of the node;
    there are no target variables and no taint, and target names are not
    parsed. *)
Theorem FromTargetNode_data (rule : UserRule.t) (node_type : string)
  (string_fields target_fields : LinkedMap.t Expression)
  (rule_map : ExpressionPtr) (data : TargetData.t)
  (Hdata : FromTargetNode rule node_type (map_t string_fields)
             (map_t target_fields) rule_map = inr (inr data)) :
  TargetData.target_vars data = []
  /\ TargetData.tainted_expr data = kEmptyList
  /\ TargetData.parse_target_names data = false
  /\ (forall f, List.In f (UserRule.ConfigFields rule) ->
        LinkedMap.Find f target_fields = None
        /\ LinkedMap.Find f (TargetData.config_exprs data)
           = Some (default kEmptyList (LinkedMap.Find f string_fields)))
  /\ (forall f, List.In f (UserRule.StringFields rule) ->
        LinkedMap.Find f target_fields = None
        /\ LinkedMap.Find f (TargetData.string_exprs data)
           = Some (default kEmptyList (LinkedMap.Find f string_fields)))
  /\ (forall f, List.In f (UserRule.TargetFields rule) ->
        LinkedMap.Find f string_fields = None
        /\ exists nodes,
            default kEmptyList (LinkedMap.Find f target_fields) = list_t nodes
            /\ LinkedMap.Find f (TargetData.target_exprs data)
               = Some (list_t
                         (List.map
                            (fun node_expr => name_t (Anonymous rule_map node_expr))
                            nodes))).
Proof.
  unfold FromTargetNode in Hdata.
  pose proof (node_string_exprs_cases "config" node_type
                (UserRule.ConfigFields rule) string_fields target_fields [])
    as Hconfig.
  destruct (node_string_exprs "config" node_type (UserRule.ConfigFields rule)
              string_fields target_fields []) as [msg|config_exprs];
    [discriminate|].
  pose proof (node_string_exprs_cases "string" node_type
                (UserRule.StringFields rule) string_fields target_fields [])
    as Hstring.
  destruct (node_string_exprs "string" node_type (UserRule.StringFields rule)
              string_fields target_fields []) as [msg|string_exprs];
    [discriminate|].
  pose proof (node_target_exprs_cases node_type (UserRule.TargetFields rule)
                string_fields target_fields rule_map []) as Htarget.
  destruct (node_target_exprs node_type (UserRule.TargetFields rule)
              string_fields target_fields rule_map [])
    as [e|[msg|target_exprs]]; try discriminate.
  injection Hdata as <-. simpl.
  destruct Hconfig as [Hconfig ->]. destruct Hstring as [Hstring ->].
  destruct Htarget as (Htarget & nodes_of & Hnodes & ->).
  rewrite List.Forall_forall in Hconfig, Hstring, Htarget, Hnodes.
  do 3 (split; [reflexivity|]). split; [|split].
  - intros f Hf. split; [now apply contains_false_Find, Hconfig|].
    rewrite (Find_emplace_fields
               (fun f => default kEmptyList (LinkedMap.Find f string_fields))).
    now rewrite existsb_eqb_In.
  - intros f Hf. split; [now apply contains_false_Find, Hstring|].
    rewrite (Find_emplace_fields
               (fun f => default kEmptyList (LinkedMap.Find f string_fields))).
    now rewrite existsb_eqb_In.
  - intros f Hf. split; [now apply contains_false_Find, Htarget|].
    exists (nodes_of f). split; [now apply Hnodes|].
    rewrite (Find_emplace_fields
               (fun f => list_t
                           (List.map
                              (fun node_expr =>
                                 name_t (Anonymous rule_map node_expr))
                              (nodes_of f)))).
    now rewrite existsb_eqb_In.
Qed.

(** X19.  For a node whose target fields are lists, as [ABSTRACT_NODE]
    makes them, [FromTargetNode] throws nothing: it returns the data when no
    config field and no string field of the rule is a key of the target
    fields of the node and no target field of the rule is a key of its
    string fields, and it logs an error and returns no data otherwise. *)
Theorem FromTargetNode_returns_iff (rule : UserRule.t) (node_type : string)
  (string_fields target_fields : LinkedMap.t Expression)
  (rule_map : ExpressionPtr)
  (Hlists : forall f, List.In f (UserRule.TargetFields rule) ->
              IsList (default kEmptyList (LinkedMap.Find f target_fields)) = true) :
  let run :=
    FromTargetNode rule node_type (map_t string_fields) (map_t target_fields)
      rule_map in
  let separated :=
    (forall f, List.In f (UserRule.ConfigFields rule)
               \/ List.In f (UserRule.StringFields rule) ->
               LinkedMap.contains f target_fields = false)
    /\ (forall f, List.In f (UserRule.TargetFields rule) ->
                  LinkedMap.contains f string_fields = false) in
  ((exists data, run = inr (inr data)) /\ separated)
  \/ ((exists msg, run = inr (inl msg)) /\ ~ separated).
Proof.
  intros run separated. subst run separated. unfold FromTargetNode.
  pose proof (node_string_exprs_cases "config" node_type
                (UserRule.ConfigFields rule) string_fields target_fields [])
    as Hconfig.
  destruct (node_string_exprs "config" node_type (UserRule.ConfigFields rule)
              string_fields target_fields []) as [msg|config_exprs].
  { right. split; [now exists msg|]. intros [Hsep _].
    apply List.Exists_exists in Hconfig. destruct Hconfig as (f & Hf & Hclash).
    rewrite Hsep in Hclash; [discriminate|now left]. }
  pose proof (node_string_exprs_cases "string" node_type
                (UserRule.StringFields rule) string_fields target_fields [])
    as Hstring.
  destruct (node_string_exprs "string" node_type (UserRule.StringFields rule)
              string_fields target_fields []) as [msg|string_exprs].
  { right. split; [now exists msg|]. intros [Hsep _].
    apply List.Exists_exists in Hstring. destruct Hstring as (f & Hf & Hclash).
    rewrite Hsep in Hclash; [discriminate|now right]. }
  pose proof (node_target_exprs_cases node_type (UserRule.TargetFields rule)
                string_fields target_fields rule_map []) as Htarget.
  destruct (node_target_exprs node_type (UserRule.TargetFields rule)
              string_fields target_fields rule_map [])
    as [e|[msg|target_exprs]].
  - exfalso. apply List.Exists_exists in Htarget.
    destruct Htarget as (f & Hf & Hnolist). rewrite Hlists in Hnolist by exact Hf.
    discriminate.
  - right. split; [now exists msg|]. intros [_ Hsep].
    apply List.Exists_exists in Htarget. destruct Htarget as (f & Hf & Hclash).
    rewrite Hsep in Hclash; [discriminate|exact Hf].
  - left. split; [now eexists|].
    destruct Hconfig as [Hconfig _]. destruct Hstring as [Hstring _].
    destruct Htarget as [Htarget _].
    rewrite List.Forall_forall in Hconfig, Hstring, Htarget.
    split; [|exact Htarget]. intros f [Hf|Hf]; [now apply Hconfig|now apply Hstring].
Qed.

(** ** Further properties of rule application *)

Lemma all_strings (l : list Expression) :
  List.find (fun entry => negb (IsString entry)) l = None ->
  exists strings, l = List.map string_t strings.
Proof.
  induction l as [|x r IH]; simpl.
  - now exists [].
  - destruct x as [ | | |s| | | | | | ]; try discriminate. simpl.
    intros H. destruct (IH H) as [strings ->]. now exists (s :: strings).
Qed.

Lemma eval_string_fields_inv (fields : list string) (data : TargetData.t)
  (param_config : Configuration.t) (fcts : FunctionMap)
  (params params' : LinkedMap.underlying_map_t Expression) :
  eval_string_fields fields data param_config fcts params = inr params' ->
  (forall k v, LinkedMap.Find k params = Some v ->
               LinkedMap.Find k params' = Some v)
  /\ (forall f, List.In f fields -> LinkedMap.Find f params = None ->
        exists strings collected,
          Evaluate
            (default none_t (LinkedMap.Find f (TargetData.string_exprs data)))
            param_config fcts no_collected
          = inr (list_t (List.map string_t strings), collected)
          /\ LinkedMap.Find f params'
             = Some (list_t (List.map string_t strings))).
Proof.
  revert params. induction fields as [|field rest IH]; intros params; simpl.
  - intros [= <-]. split; [auto|]. intros f [].
  - destruct (Evaluate _ param_config fcts no_collected)
      as [msg|[field_value collected]] eqn:Heval; [discriminate|].
    destruct field_value as [ | | | | | | | |l| ]; try discriminate.
    destruct (List.find (fun entry => negb (IsString entry)) l) eqn:Hfind;
      [discriminate|].
    apply all_strings in Hfind. destruct Hfind as [strings ->].
    intros H. apply IH in H. destruct H as [Hkeep Hnew]. split.
    + intros k v Hk. apply Hkeep. rewrite Find_emplace. now rewrite Hk.
    + intros f Hf Hfree.
      destruct (String.eqb_spec f field) as [->|Hne].
      * exists strings, collected. split; [exact Heval|].
        apply Hkeep. rewrite Find_emplace, Hfree. now rewrite String.eqb_refl.
      * destruct Hf as [Hf|Hf]; [congruence|].
        apply Hnew; [exact Hf|].
        rewrite Find_emplace, Hfree.
        destruct (String.eqb_spec f field); [contradiction|reflexivity].
Qed.

(** X20.  After the string fields of a rule are evaluated, [FIELD] gives,
    for the name of a string field that was no parameter before, the value
    of the field: the list of strings that the expression of the field in
    the target evaluated to, in the configuration and with the functions of
    the evaluation of the string fields; and a parameter that was there
    before is never replaced: [FIELD] still gives its value. *)
Theorem FIELD_string_field (fields : list string) (data : TargetData.t)
  (param_config : Configuration.t) (fcts : FunctionMap)
  (params params' : LinkedMap.underlying_map_t Expression)
  (eval : SubExprEvaluator) (expr_map : LinkedMap.t Expression)
  (env : Configuration.t) (c c1 : Collectors)
  (name_arg : Expression) (field : string)
  (Hfields : eval_string_fields fields data param_config fcts params = inr params')
  (Harg : LinkedMap.Find "name" expr_map = Some name_arg)
  (Hname : eval name_arg env c = inr (string_t field, c1)) :
  (List.In field fields -> LinkedMap.Find field params = None ->
   exists strings collected,
     Evaluate
       (default none_t (LinkedMap.Find field (TargetData.string_exprs data)))
       param_config fcts no_collected
     = inr (list_t (List.map string_t strings), collected)
     /\ FIELD params' eval (map_t expr_map) env c
        = inr (list_t (List.map string_t strings), c1))
  /\ (forall value, LinkedMap.Find field params = Some value ->
        FIELD params' eval (map_t expr_map) env c = inr (value, c1)).
Proof.
  apply eval_string_fields_inv in Hfields. destruct Hfields as [Hkeep Hnew].
  assert (Hrun : forall value, LinkedMap.Find field params' = Some value ->
                   FIELD params' eval (map_t expr_map) env c = inr (value, c1)).
  { intros value Hvalue. unfold FIELD.
    erewrite bind_inr.
    2: { unfold Index. erewrite bind_inr by reflexivity. rewrite Harg.
         reflexivity. }
    erewrite bind_inr by exact Hname.
    cbv beta iota. now rewrite Hvalue. }
  split.
  - intros Hin Hfree.
    destruct (Hnew field Hin Hfree) as (strings & collected & Heval & H).
    exists strings, collected. split; [exact Heval|]. now apply Hrun.
  - intros value Hvalue. now apply Hrun, Hkeep.
Qed.

(** X21.  The analysed target that [withDependencies] sets: the taint of the
    target evaluated, the string fields evaluated to parameters, the
    defining expression evaluated to a result; the target registered is made
    of this result, of the actions, blobs and trees that the evaluation of
    the defining expression collected, and of the effective variables, which
    are the target variables, the config variables of the rule, and the
    variables of every dependency that its transition does not fix. *)
Theorem withDependencies_sets
  (transition_keys : list ConfiguredTarget.t)
  (dependency_values : list AnalysedTarget.t)
  (rule : UserRule.t) (data : TargetData.t) (key : ConfiguredTarget.t)
  (params : LinkedMap.underlying_map_t Expression)
  (result_map result_map' : ResultTargetMap.t) (value : AnalysedTarget.t)
  (Hrun : withDependencies transition_keys dependency_values rule data key
            params result_map = (SetValue value, result_map')) :
  let deps := associate_deps transition_keys dependency_values in
  let effective_vars := effective_vars_of data rule deps in
  exists own params' result collected,
    getTainted ∅
      (Configuration.Prune (TargetData.target_vars data)
         (ConfiguredTarget.config key))
      (TargetData.tainted_expr data) = inr own
    /\ eval_string_fields (UserRule.StringFields rule) data
         (Configuration.Prune (TargetData.target_vars data)
            (ConfiguredTarget.config key))
         (string_fields_fcts deps key) params = inr params'
    /\ Evaluate (UserRule.Expression_ rule)
         (Configuration.Prune (UserRule.ConfigVars rule)
            (ConfiguredTarget.config key))
         (main_exp_fcts rule params' deps) no_collected
       = inr (result_t result, collected)
    /\ ResultTargetMap.Add same_key result_map (ConfiguredTarget.target key)
         (Configuration.Prune (elements effective_vars)
            (ConfiguredTarget.config key))
         (AnalysedTarget.mk result (actions collected) (blobs collected)
            (trees collected) effective_vars (own ∪ UserRule.Tainted rule))
       = (value, result_map')
    /\ forall x,
        x ∈ effective_vars
        <-> List.In x (TargetData.target_vars data)
            \/ List.In x (UserRule.ConfigVars rule)
            \/ exists dep,
                List.In dep deps
                /\ x ∈ AnalysedTarget.Vars (snd dep)
                /\ Configuration.VariableFixed x
                     (ConfiguredTarget.config (fst dep)) = false.
Proof.
  intros deps effective_vars. unfold withDependencies in Hrun.
  fold deps in Hrun. fold effective_vars in Hrun.
  destruct (getTainted ∅ _ (TargetData.tainted_expr data)) as [msg|own]
    eqn:Htainted; [discriminate|].
  destruct (negb (forallb _ dependency_values)); [discriminate|].
  destruct (eval_string_fields (UserRule.StringFields rule) data _ _ params)
    as [msg|params'] eqn:Hparams; [discriminate|].
  destruct (Evaluate (UserRule.Expression_ rule) _ _ no_collected)
    as [msg|[result collected]] eqn:Heval; [discriminate|].
  destruct result as [ | | | | |result| | | | ]; try discriminate.
  destruct (ResultTargetMap.Add same_key result_map _ _ _)
    as [analysis_result registry] eqn:Hadd.
  injection Hrun as <- <-.
  exists own, params', result, collected.
  split; [reflexivity|]. split; [reflexivity|]. split; [exact Heval|].
  split; [exact Hadd|].
  intros x. unfold effective_vars, effective_vars_of.
  rewrite !elem_of_union, !elem_of_list_to_set, !list_elem_of_In.
  rewrite elem_of_union_list.
  split.
  - intros [[H|H]|(X & HX & Hx)]; [now left|now right; left|].
    right. right. apply list_elem_of_In, List.in_map_iff in HX.
    destruct HX as (dep & <- & Hdep). apply elem_of_filter in Hx.
    exists dep. now repeat split.
  - intros [H|[H|(dep & Hdep & Hx & Hfixed)]];
      [now left; left|now left; right|].
    right. eexists. split.
    + apply list_elem_of_In, List.in_map_iff. exists dep. split; [reflexivity|].
      exact Hdep.
    + now apply elem_of_filter.
Qed.

(** X22.  An analysis that fails registers nothing: whenever
    [withDependencies] logs a fatal error, the registry of results is the
    one it was given. *)
Theorem withDependencies_failure_keeps_registry
  (transition_keys : list ConfiguredTarget.t)
  (dependency_values : list AnalysedTarget.t)
  (rule : UserRule.t) (data : TargetData.t) (key : ConfiguredTarget.t)
  (params : LinkedMap.underlying_map_t Expression)
  (result_map : ResultTargetMap.t)
  (Hfails : fails (fst (withDependencies transition_keys dependency_values rule
                          data key params result_map))) :
  snd (withDependencies transition_keys dependency_values rule data key params
         result_map) = result_map.
Proof.
  unfold withDependencies in *.
  destruct (getTainted ∅ _ (TargetData.tainted_expr data)) as [msg|own];
    [reflexivity|].
  destruct (negb (forallb _ dependency_values)); [reflexivity|].
  destruct (eval_string_fields (UserRule.StringFields rule) data _ _ params)
    as [msg|params']; [reflexivity|].
  destruct (Evaluate (UserRule.Expression_ rule) _ _ no_collected)
    as [msg|[result collected]]; [reflexivity|].
  destruct result as [ | | | | |result| | | | ]; try reflexivity.
  destruct (ResultTargetMap.Add same_key result_map _ _ _)
    as [analysis_result registry].
  exfalso. exact (SetValue_not_fails _ Hfails).
Qed.

(** ** The requests of rule application *)

Lemma Step_bind_Done {A B} (m : Step A) (f : A -> Step B) (b : B) :
  m ≫= f = Done b -> exists a, m = Done a /\ f a = Done b.
Proof. destruct m; try discriminate. simpl. eauto. Qed.

Lemma Step_bind_defined {A B} (m : Step A) (f : A -> Step B) :
  defined m -> (forall a, m = Done a -> defined (f a)) -> defined (m ≫= f).
Proof. destruct m; simpl; auto. Qed.

Lemma contains_emplace {V} (k k' : string) (v : V) (m : list (string * V)) :
  LinkedMap.contains k (LinkedMap.emplace k' v m)
  = LinkedMap.contains k m || String.eqb k k'.
Proof.
  unfold LinkedMap.contains at 1. rewrite Find_emplace.
  unfold LinkedMap.contains.
  destruct (LinkedMap.Find k m); [reflexivity|].
  now destruct (String.eqb k k').
Qed.

Lemma isTransition_inv (ptr : Expression) (u : unit) :
  isTransition ptr = inr u ->
  exists l, ptr = list_t l /\ forallb IsMap l = true.
Proof.
  unfold isTransition.
  destruct ptr as [ | | | | | | | |l| ]; try discriminate.
  destruct (forallb IsMap l) eqn:Hmaps; [|discriminate].
  intros _. now exists l.
Qed.

Lemma are_transitions_emplace k v config_transitions :
  are_transitions config_transitions ->
  (exists l, v = list_t l /\ forallb IsMap l = true) ->
  are_transitions (LinkedMap.emplace k v config_transitions).
Proof.
  intros Hall Hv. unfold LinkedMap.emplace.
  destruct (LinkedMap.contains k config_transitions); [exact Hall|].
  apply List.Forall_app. split; [exact Hall|]. now constructor.
Qed.

Lemma eval_transitions_Done (what : string) (names : list string)
  (more : RuleFields.t) (expression_config : Configuration.t)
  (fcts : FunctionMap)
  (config_transitions config_transitions' : LinkedMap.underlying_map_t Expression) :
  eval_transitions what names more expression_config fcts config_transitions
  = Done config_transitions' ->
  are_transitions config_transitions ->
  are_transitions config_transitions'
  /\ (forall name, List.In name names ->
                   LinkedMap.contains name config_transitions' = true)
  /\ (forall name, LinkedMap.contains name config_transitions = true ->
                   LinkedMap.contains name config_transitions' = true).
Proof.
  revert config_transitions.
  induction names as [|name rest IH]; intros config_transitions; simpl.
  - intros [= <-] Hall. split; [exact Hall|]. split; [intros name []|auto].
  - destruct (LinkedMap.Find name (RuleFields.ConfigTransitions more))
      as [exp|]; [|discriminate].
    destruct (Evaluate exp expression_config fcts no_collected)
      as [msg|[transition collected]]; [discriminate|].
    destruct (isTransition transition) as [msg|u] eqn:Htransition;
      [discriminate|].
    apply isTransition_inv in Htransition.
    intros Hdone Hall.
    apply IH in Hdone; [|now apply are_transitions_emplace].
    destruct Hdone as (Hall' & Hnames & Hkeep).
    split; [exact Hall'|]. split.
    + intros name' [<-|Hin]; [|now apply Hnames].
      apply Hkeep. rewrite contains_emplace, String.eqb_refl.
      apply orb_true_r.
    + intros name' Hcontains. apply Hkeep.
      rewrite contains_emplace, Hcontains. reflexivity.
Qed.

Lemma push_position_keys (name : string) (pos : nat)
  (positions : list (string * list nat)) :
  List.map fst (push_position name pos positions) = List.map fst positions.
Proof.
  induction positions as [|[name' l] rest IH]; simpl; [reflexivity|].
  destruct (String.eqb name name'); simpl; [reflexivity|now rewrite IH].
Qed.

Lemma push_position_in_range (name : string) (n : nat)
  (positions : list (string * list nat)) :
  List.Forall (fun entry => List.Forall (fun pos => pos < n) (snd entry))
    positions ->
  List.Forall (fun entry => List.Forall (fun pos => pos < S n) (snd entry))
    (push_position name n positions).
Proof.
  assert (Hweak : forall l, List.Forall (fun pos => pos < n) l ->
                            List.Forall (fun pos => pos < S n) l).
  { intros l Hl. eapply List.Forall_impl; [|exact Hl]. simpl. lia. }
  induction 1 as [|[name' l] rest Hl Hrest IH]; simpl; [constructor|].
  destruct (String.eqb name name'); constructor; simpl.
  - apply List.Forall_app. split; [now apply Hweak|]. constructor; [lia|constructor].
  - eapply List.Forall_impl; [|exact Hrest]. intros entry. apply Hweak.
  - now apply Hweak.
  - exact IH.
Qed.

Lemma positions_weaken (n : nat) (positions : list (string * list nat)) :
  List.Forall (fun entry => List.Forall (fun pos => pos < n) (snd entry))
    positions ->
  List.Forall (fun entry => List.Forall (fun pos => pos < S n) (snd entry))
    positions.
Proof.
  intros H. eapply List.Forall_impl; [|exact H]. intros entry Hentry.
  eapply List.Forall_impl; [|exact Hentry]. simpl. lia.
Qed.

(** What a loop of requests has appended: a key of either kind for every
    dependency and transition in [added], and positions in range. *)
Definition requested (key : ConfiguredTarget.t) (r r' : Requests.t)
  (added : list (EntityName * Expression)) : Prop :=
  Requests.dependency_keys r'
  = Requests.dependency_keys r ++ List.map (dependency_key key) added
  /\ Requests.transition_keys r'
     = Requests.transition_keys r ++ List.map transition_key added
  /\ List.map fst (Requests.anon_positions r')
     = List.map fst (Requests.anon_positions r)
  /\ (positions_in_range r -> positions_in_range r').

Lemma requested_refl key r : requested key r r [].
Proof.
  unfold requested. simpl. rewrite !List.app_nil_r. now repeat split.
Qed.

Lemma requested_trans key r1 r2 r3 added1 added2 :
  requested key r1 r2 added1 -> requested key r2 r3 added2 ->
  requested key r1 r3 (added1 ++ added2).
Proof.
  intros (Hd1 & Ht1 & Hk1 & Hp1) (Hd2 & Ht2 & Hk2 & Hp2).
  unfold requested. rewrite !List.map_app, !List.app_assoc.
  rewrite <- Hd1, <- Ht1. repeat split; try assumption.
  - congruence.
  - auto.
Qed.

Lemma request_deps_inv (key : ConfiguredTarget.t) (anon_field : option string)
  (transition : Expression) (deps : list Expression) (r r' : Requests.t) :
  request_deps key anon_field transition deps r = inr r' ->
  exists names,
    deps = List.map name_t names
    /\ requested key r r' (List.map (fun name => (name, transition)) names).
Proof.
  revert r. induction deps as [|dep rest IH]; intros r; simpl.
  - intros [= <-]. exists []. split; [reflexivity|apply requested_refl].
  - destruct dep as [ | | | |dep_name| | | | | ]; try discriminate.
    intros H. apply IH in H. destruct H as (names & -> & Hrest).
    exists (dep_name :: names). split; [reflexivity|].
    change (List.map (fun name => (name, transition)) (dep_name :: names))
      with ([(dep_name, transition)]
            ++ List.map (fun name => (name, transition)) names).
    eapply requested_trans; [|exact Hrest].
    unfold requested, positions_in_range. simpl.
    split; [reflexivity|]. split; [reflexivity|]. split.
    + destruct anon_field; [apply push_position_keys|reflexivity].
    + rewrite List.length_app. simpl. rewrite Nat.add_1_r.
      destruct anon_field; [apply push_position_in_range|apply positions_weaken].
Qed.

Lemma request_transitions_inv (key : ConfiguredTarget.t)
  (anon_field : option string) (transitions : list Expression)
  (deps : list Expression) (r r' : Requests.t) :
  request_transitions key anon_field transitions deps r = inr r' ->
  exists added,
    requested key r r' added
    /\ List.Forall
         (fun dep => List.In (snd dep) transitions
                     /\ List.In (name_t (fst dep)) deps) added.
Proof.
  revert r. induction transitions as [|transition rest IH]; intros r; simpl.
  - intros [= <-]. exists []. split; [apply requested_refl|constructor].
  - destruct (request_deps key anon_field transition deps r) as [e|r1] eqn:Hdeps;
      [discriminate|].
    intros H. apply IH in H. destruct H as (added & Hadded & Hall).
    apply request_deps_inv in Hdeps. destruct Hdeps as (names & -> & Hfirst).
    eexists. split; [eapply requested_trans; eassumption|].
    apply List.Forall_app. split.
    + apply List.Forall_forall. intros dep Hdep.
      apply List.in_map_iff in Hdep. destruct Hdep as (name & <- & Hname).
      simpl. split; [now left|]. now apply List.in_map.
    + eapply List.Forall_impl; [|exact Hall].
      intros dep [Ht Hd]. split; [now right|exact Hd].
Qed.

Lemma transitions_of_Done config_transitions field_name transitions :
  are_transitions config_transitions ->
  transitions_of config_transitions field_name = Done transitions ->
  forallb IsMap transitions = true.
Proof.
  intros Hall. unfold transitions_of.
  destruct (LinkedMap.Find field_name config_transitions) as [v|] eqn:Hfind;
    [|discriminate].
  apply LinkedMap_Find_Some_In in Hfind.
  unfold are_transitions in Hall. rewrite List.Forall_forall in Hall.
  destruct (Hall _ Hfind) as (l & Hl & Hmaps). simpl in Hl. subst v.
  now intros [= <-].
Qed.

(** The dependencies that were added are under transitions that are
    maps. *)
Definition under_maps (added : list (EntityName * Expression)) : Prop :=
  List.Forall (fun dep => IsMap (snd dep) = true) added.

Lemma under_maps_intro (transitions deps : list Expression)
  (added : list (EntityName * Expression)) :
  forallb IsMap transitions = true ->
  List.Forall
    (fun dep => List.In (snd dep) transitions /\ List.In (name_t (fst dep)) deps)
    added ->
  under_maps added.
Proof.
  intros Hmaps Hall. eapply List.Forall_impl; [|exact Hall].
  intros dep [Hin _]. rewrite List.forallb_forall in Hmaps. now apply Hmaps.
Qed.

Lemma request_target_fields_inv (fields : list string) (data : TargetData.t)
  (key : ConfiguredTarget.t) (param_config : Configuration.t)
  (config_transitions : LinkedMap.underlying_map_t Expression)
  (r r' : Requests.t) (params params' : LinkedMap.underlying_map_t Expression) :
  are_transitions config_transitions ->
  request_target_fields fields data key param_config config_transitions r params
  = Done (r', params') ->
  exists added, requested key r r' added /\ under_maps added.
Proof.
  intros Hall. revert r params.
  induction fields as [|field rest IH]; intros r params; simpl.
  - intros [= <- <-]. exists []. split; [apply requested_refl|constructor].
  - destruct (Evaluate _ param_config [] no_collected)
      as [msg|[deps_names collected]]; [discriminate|].
    destruct deps_names as [ | | | | | | | |names| ]; try discriminate.
    intros H.
    apply Step_bind_Done in H. destruct H as (dep_target_exps & _ & H).
    apply Step_bind_Done in H. destruct H as (transitions & Htransitions & H).
    destruct (request_transitions key (find_anon_field field r) transitions
                dep_target_exps r) as [e|r1] eqn:Hrequest; [discriminate|].
    apply IH in H. destruct H as (added2 & Hadded2 & Hmaps2).
    apply request_transitions_inv in Hrequest.
    destruct Hrequest as (added1 & Hadded1 & Hfrom).
    exists (added1 ++ added2). split; [eapply requested_trans; eassumption|].
    apply List.Forall_app. split; [|exact Hmaps2].
    eapply under_maps_intro; [|exact Hfrom].
    eapply transitions_of_Done; eassumption.
Qed.

Lemma request_implicit_targets_inv
  (implicit_targets : list (string * list EntityName))
  (key : ConfiguredTarget.t)
  (config_transitions : LinkedMap.underlying_map_t Expression)
  (r r' : Requests.t) :
  are_transitions config_transitions ->
  request_implicit_targets implicit_targets key config_transitions r = Done r' ->
  exists added, requested key r r' added /\ under_maps added.
Proof.
  intros Hall. revert r.
  induction implicit_targets as [|[field implicit_target] rest IH]; intros r;
    simpl.
  - intros [= <-]. exists []. split; [apply requested_refl|constructor].
  - intros H.
    apply Step_bind_Done in H. destruct H as (transitions & Htransitions & H).
    destruct (request_transitions key (find_anon_field field r) transitions
                (List.map name_t implicit_target) r) as [e|r1] eqn:Hrequest;
      [discriminate|].
    apply IH in H. destruct H as (added2 & Hadded2 & Hmaps2).
    apply request_transitions_inv in Hrequest.
    destruct Hrequest as (added1 & Hadded1 & Hfrom).
    exists (added1 ++ added2). split; [eapply requested_trans; eassumption|].
    apply List.Forall_app. split; [|exact Hmaps2].
    eapply under_maps_intro; [|exact Hfrom].
    eapply transitions_of_Done; eassumption.
Qed.

Lemma Find_map_In {A V} (key_of : A -> string) (value_of : A -> V) (a : A)
  (l : list A) :
  List.In a l ->
  LinkedMap.Find (key_of a) (List.map (fun a => (key_of a, value_of a)) l)
  <> None.
Proof.
  induction l as [|x l IH]; simpl; [intros []|].
  intros [->|Hin].
  - now rewrite String.eqb_refl.
  - destruct (String.eqb (key_of a) (key_of x)); [discriminate|now apply IH].
Qed.

(** What holds of a first request. *)
Lemma withRuleDefinition_Done (rule : UserRule.t) (more : RuleFields.t)
  (data : TargetData.t) (key : ConfiguredTarget.t) (request : RuleRequest) :
  withRuleDefinition rule more data key = Done request ->
  (exists added,
      Requests.dependency_keys (requests request)
      = List.map (dependency_key key) added
      /\ Requests.transition_keys (requests request)
         = List.map transition_key added
      /\ under_maps added)
  /\ positions_in_range (requests request)
  /\ (forall def, List.In def (RuleFields.AnonymousDefinitions more) ->
        LinkedMap.contains (AnonymousDefinition.target (snd def))
          (Requests.anon_positions (requests request)) = true
        /\ LinkedMap.contains (fst def) (request_transitions_map request) = true)
  /\ are_transitions (request_transitions_map request).
Proof.
  unfold withRuleDefinition.
  destruct (eval_config_fields (UserRule.ConfigFields rule) data _ [])
    as [msg|params]; [discriminate|].
  intros H.
  apply Step_bind_Done in H. destruct H as (cts1 & Hcts1 & H).
  apply Step_bind_Done in H. destruct H as (cts2 & Hcts2 & H).
  apply Step_bind_Done in H. destruct H as (cts3 & Hcts3 & H).
  apply Step_bind_Done in H. destruct H as ([r1 params1] & Hfields & H).
  apply Step_bind_Done in H. destruct H as (r2 & Himplicit & H).
  injection H as <-. cbn [requests request_transitions_map fst snd] in *.
  apply eval_transitions_Done in Hcts1; [|constructor].
  destruct Hcts1 as (Hall1 & _ & _).
  apply eval_transitions_Done in Hcts2; [|exact Hall1].
  destruct Hcts2 as (Hall2 & _ & _).
  apply eval_transitions_Done in Hcts3; [|exact Hall2].
  destruct Hcts3 as (Hall3 & Hnames3 & _).
  apply request_target_fields_inv in Hfields; [|exact Hall3].
  destruct Hfields as (added1 & Hadded1 & Hmaps1).
  apply request_implicit_targets_inv in Himplicit; [|exact Hall3].
  destruct Himplicit as (added2 & Hadded2 & Hmaps2).
  pose proof (requested_trans _ _ _ _ _ _ Hadded1 Hadded2)
    as (Hdks & Htks & Hkeys & Hrange).
  cbn [Requests.dependency_keys Requests.transition_keys Requests.anon_positions
       List.app] in Hdks, Htks, Hkeys.
  split; [|split; [|split]].
  - exists (added1 ++ added2). split; [exact Hdks|]. split; [exact Htks|].
    now apply List.Forall_app.
  - apply Hrange. unfold positions_in_range. simpl.
    apply List.Forall_forall. intros [name l] Hentry.
    apply emplace_entries_In, List.in_map_iff in Hentry.
    destruct Hentry as (def & [= _ <-] & _). constructor.
  - intros def Hdef. split.
    + unfold LinkedMap.contains.
      destruct (LinkedMap.Find (AnonymousDefinition.target (snd def))
                  (Requests.anon_positions r2)) eqn:Hfind; [reflexivity|].
      exfalso. apply Find_None_not_in in Hfind. apply Hfind.
      unfold LinkedMap.keys. rewrite Hkeys.
      assert (Hbound :
                LinkedMap.Find (AnonymousDefinition.target (snd def))
                  (emplace_entries
                     (List.map
                        (fun def : string * AnonymousDefinition.t =>
                           (AnonymousDefinition.target (snd def), @nil nat))
                        (RuleFields.AnonymousDefinitions more)))
                <> None).
      { rewrite Find_emplace_entries.
        now apply (Find_map_In
                     (fun def : string * AnonymousDefinition.t =>
                        AnonymousDefinition.target (snd def))
                     (fun _ => @nil nat)). }
      destruct (LinkedMap.Find (AnonymousDefinition.target (snd def))
                  (emplace_entries _)) as [l|] eqn:Hsome; [|contradiction].
      apply LinkedMap_Find_Some_In in Hsome.
      apply (List.in_map fst) in Hsome. exact Hsome.
    + apply Hnames3. now apply List.in_map.
  - exact Hall3.
Qed.

(** X23.  The keys of the first request of [withRuleDefinition] go in pairs:
    the dependency keys and the transition keys come from one list of
    dependencies under transitions, so there are as many of the one as of the
    other, the keys at one position name the same target, the dependency key
    in the configuration of the target updated by a transition and the
    transition key in the configuration this transition describes; every
    transition is a map, and every position recorded for an anonymous
    definition is the position of a dependency key. *)
Theorem withRuleDefinition_keys (rule : UserRule.t) (more : RuleFields.t)
  (data : TargetData.t) (key : ConfiguredTarget.t) (request : RuleRequest)
  (Hdone : withRuleDefinition rule more data key = Done request) :
  (exists added,
      Requests.dependency_keys (requests request)
      = List.map (dependency_key key) added
      /\ Requests.transition_keys (requests request)
         = List.map transition_key added
      /\ List.Forall (fun dep => IsMap (snd dep) = true) added)
  /\ List.length (Requests.dependency_keys (requests request))
     = List.length (Requests.transition_keys (requests request))
  /\ List.map ConfiguredTarget.target (Requests.dependency_keys (requests request))
     = List.map ConfiguredTarget.target
         (Requests.transition_keys (requests request))
  /\ positions_in_range (requests request).
Proof.
  apply withRuleDefinition_Done in Hdone.
  destruct Hdone as ((added & Hdks & Htks & Hmaps) & Hrange & _).
  split; [now exists added|].
  rewrite Hdks, Htks, !List.length_map, !List.map_map. now repeat split.
Qed.

Lemma provided_names_defined (def : AnonymousDefinition.t)
  (values : list AnalysedTarget.t) (positions : list nat)
  (anon_names : list Expression) :
  List.Forall (fun pos => pos < List.length values) positions ->
  defined (provided_names def values positions anon_names).
Proof.
  intros Hall. revert anon_names.
  induction Hall as [|pos rest Hpos Hrest IH]; intros anon_names; simpl;
    [exact I|].
  destruct (List.nth_error values pos) as [value|] eqn:Hnth.
  2: { apply List.nth_error_None in Hnth. lia. }
  destruct (AnalysedTarget.Provides value) as [ | | | | | | | | |provides];
    try exact I.
  destruct (LinkedMap.Find (AnonymousDefinition.provider def) provides)
    as [exprs|]; [|exact I].
  destruct exprs as [ | | | | | | | |list| ]; try exact I.
  destruct (List.find (fun node => negb (IsNode node)) list); [exact I|].
  apply IH.
Qed.

Lemma request_anonymous_defined (defs : list (string * AnonymousDefinition.t))
  (key : ConfiguredTarget.t)
  (config_transitions : LinkedMap.underlying_map_t Expression)
  (anon_positions : list (string * list nat))
  (values : list AnalysedTarget.t)
  (r : Requests.t) (params : LinkedMap.underlying_map_t Expression) :
  (forall def, List.In def defs ->
     LinkedMap.contains (AnonymousDefinition.target (snd def)) anon_positions
     = true
     /\ LinkedMap.contains (fst def) config_transitions = true) ->
  List.Forall
    (fun entry => List.Forall (fun pos => pos < List.length values) (snd entry))
    anon_positions ->
  defined
    (request_anonymous defs key config_transitions anon_positions values r
       params).
Proof.
  intros Hdefs Hrange. revert r params.
  induction defs as [|[name def] rest IH]; intros r params; simpl; [exact I|].
  destruct (Hdefs (name, def) (or_introl Logic.eq_refl)) as [Hpos Hcts].
  simpl in Hpos, Hcts. unfold LinkedMap.contains in Hpos, Hcts.
  destruct (LinkedMap.Find (AnonymousDefinition.target def) anon_positions)
    as [positions|] eqn:Hfind; [|discriminate].
  destruct (LinkedMap.Find name config_transitions) as [transitions|];
    [|discriminate].
  apply Step_bind_defined; [exact I|]. intros positions' [= <-].
  apply Step_bind_defined.
  { apply provided_names_defined.
    apply LinkedMap_Find_Some_In in Hfind.
    rewrite List.Forall_forall in Hrange. exact (Hrange _ Hfind). }
  intros anon_names _.
  apply Step_bind_defined.
  { now destruct transitions. }
  intros transitions' _.
  destruct (request_transitions key None transitions' anon_names r);
    [exact I|].
  apply IH. intros def' Hdef'. apply Hdefs. now right.
Qed.

Lemma Step_bind_type_errors {A B} (m : Step A) (f : A -> Step B) :
  throws_type_errors m ->
  (forall a, m = Done a -> throws_type_errors (f a)) ->
  throws_type_errors (m ≫= f).
Proof. destruct m; simpl; auto. Qed.

Lemma provided_names_type_errors (def : AnonymousDefinition.t)
  (values : list AnalysedTarget.t) (positions : list nat)
  (anon_names : list Expression) :
  throws_type_errors (provided_names def values positions anon_names).
Proof.
  revert anon_names.
  induction positions as [|pos rest IH]; intros anon_names; simpl; [exact I|].
  destruct (List.nth_error values pos) as [value|]; [|exact I].
  destruct (AnalysedTarget.Provides value) as [ | | | | | | | | |provides];
    try exact I.
  destruct (LinkedMap.Find (AnonymousDefinition.provider def) provides)
    as [exprs|]; [|exact I].
  destruct exprs as [ | | | | | | | |list| ]; try exact I.
  destruct (List.find (fun node => negb (IsNode node)) list); [exact I|].
  apply IH.
Qed.

Lemma request_deps_type_error (key : ConfiguredTarget.t)
  (anon_field : option string) (transition : Expression)
  (deps : list Expression) (r : Requests.t) (e : Exception) :
  request_deps key anon_field transition deps r = inl e ->
  exists msg, e = ExpressionTypeError msg.
Proof.
  revert r. induction deps as [|dep rest IH]; intros r; simpl; [discriminate|].
  destruct dep; try (intros [= <-]; now eexists). apply IH.
Qed.

Lemma request_transitions_type_error (key : ConfiguredTarget.t)
  (anon_field : option string) (transitions deps : list Expression)
  (r : Requests.t) (e : Exception) :
  request_transitions key anon_field transitions deps r = inl e ->
  exists msg, e = ExpressionTypeError msg.
Proof.
  revert r.
  induction transitions as [|transition rest IH]; intros r; simpl;
    [discriminate|].
  destruct (request_deps key anon_field transition deps r) as [e'|r'] eqn:Hdeps.
  - intros [= <-]. exact (request_deps_type_error _ _ _ _ _ _ Hdeps).
  - apply IH.
Qed.

Lemma request_anonymous_type_errors
  (defs : list (string * AnonymousDefinition.t)) (key : ConfiguredTarget.t)
  (config_transitions : LinkedMap.underlying_map_t Expression)
  (anon_positions : list (string * list nat))
  (values : list AnalysedTarget.t)
  (r : Requests.t) (params : LinkedMap.underlying_map_t Expression) :
  throws_type_errors
    (request_anonymous defs key config_transitions anon_positions values r
       params).
Proof.
  revert r params.
  induction defs as [|[name def] rest IH]; intros r params; simpl; [exact I|].
  apply Step_bind_type_errors.
  { now destruct (LinkedMap.Find (AnonymousDefinition.target def) anon_positions). }
  intros positions _.
  apply Step_bind_type_errors; [apply provided_names_type_errors|].
  intros anon_names _.
  apply Step_bind_type_errors.
  { destruct (LinkedMap.Find name config_transitions) as [transitions|];
      [|exact I].
    now destruct transitions. }
  intros transitions _.
  destruct (request_transitions key None transitions anon_names r)
    as [e|r'] eqn:Hrequest.
  - destruct (request_transitions_type_error _ _ _ _ _ _ Hrequest) as [msg ->].
    exact I.
  - apply IH.
Qed.

(** X24.  The continuation of the first request stays inside the language
    when the subcaller hands it as many values as there were dependency
    keys: no position that it reads in the values is beyond their end, every
    anonymous definition has its positions, and every anonymous definition
    has its transitions, so that [at] does not throw; it goes on to the
    second request, logs a fatal error, or throws a type error of the
    expressions, and no other exception. *)
Theorem withRuleDefinition_anonymous_defined (rule : UserRule.t)
  (more : RuleFields.t) (data : TargetData.t) (key : ConfiguredTarget.t)
  (request : RuleRequest) (values : list AnalysedTarget.t)
  (Hdone : withRuleDefinition rule more data key = Done request)
  (Hvalues : List.length values
             = List.length (Requests.dependency_keys (requests request))) :
  defined (withRuleDefinition_anonymous more key request values)
  /\ throws_type_errors (withRuleDefinition_anonymous more key request values).
Proof.
  apply withRuleDefinition_Done in Hdone.
  destruct Hdone as (_ & Hrange & Hdefs & _).
  unfold withRuleDefinition_anonymous. split.
  - apply Step_bind_defined; [|intros anonymous _; exact I].
    apply request_anonymous_defined; [exact Hdefs|].
    unfold positions_in_range in Hrange. now rewrite Hvalues.
  - apply Step_bind_type_errors; [|intros anonymous _; exact I].
    apply request_anonymous_type_errors.
Qed.

Lemma all_nodes (list : list Expression) :
  List.find (fun node => negb (IsNode node)) list = None ->
  forallb IsNode list = true.
Proof.
  induction list as [|x r IH]; simpl; [reflexivity|].
  destruct (IsNode x); simpl; [exact IH|discriminate].
Qed.

Lemma provided_names_inv (def : AnonymousDefinition.t)
  (values : list AnalysedTarget.t) (positions : list nat)
  (anon_names names : list Expression) :
  provided_names def values positions anon_names = Done names ->
  exists nodes,
    names
    = anon_names
      ++ List.map
           (fun node => name_t (Anonymous (AnonymousDefinition.rule_map def) node))
           nodes
    /\ forallb IsNode nodes = true.
Proof.
  revert anon_names. induction positions as [|pos rest IH]; intros anon_names;
    simpl.
  - intros [= <-]. exists []. now rewrite List.app_nil_r.
  - destruct (List.nth_error values pos) as [value|]; [|discriminate].
    destruct (AnalysedTarget.Provides value) as [ | | | | | | | | |provides];
      try discriminate.
    destruct (LinkedMap.Find (AnonymousDefinition.provider def) provides)
      as [exprs|]; [|discriminate].
    destruct exprs as [ | | | | | | | |list| ]; try discriminate.
    destruct (List.find (fun node => negb (IsNode node)) list) eqn:Hnodes;
      [discriminate|].
    apply all_nodes in Hnodes.
    intros H. apply IH in H. destruct H as (nodes & -> & Hall).
    exists (list ++ nodes). split.
    + now rewrite List.map_app, List.app_assoc.
    + rewrite List.forallb_app, Hnodes, Hall. reflexivity.
Qed.

(** The dependencies that were added are anonymous targets of target nodes,
    with the rule map of one of the definitions. *)
Definition anonymous_of (defs : list (string * AnonymousDefinition.t))
  (dep : EntityName * Expression) : Prop :=
  exists def node,
    List.In def defs
    /\ fst dep = Anonymous (AnonymousDefinition.rule_map (snd def)) node
    /\ IsNode node = true.

Lemma request_anonymous_inv (defs : list (string * AnonymousDefinition.t))
  (key : ConfiguredTarget.t)
  (config_transitions : LinkedMap.underlying_map_t Expression)
  (anon_positions : list (string * list nat))
  (values : list AnalysedTarget.t)
  (r r' : Requests.t) (params params' : LinkedMap.underlying_map_t Expression) :
  are_transitions config_transitions ->
  request_anonymous defs key config_transitions anon_positions values r params
  = Done (r', params') ->
  exists added,
    requested key r r' added /\ under_maps added
    /\ List.Forall (anonymous_of defs) added.
Proof.
  intros Hall. revert r params.
  induction defs as [|[name def] rest IH]; intros r params; simpl.
  - intros [= <- <-]. exists [].
    split; [apply requested_refl|]. split; constructor.
  - intros H.
    apply Step_bind_Done in H. destruct H as (positions & _ & H).
    apply Step_bind_Done in H. destruct H as (anon_names & Hnames & H).
    apply Step_bind_Done in H. destruct H as (transitions & Htransitions & H).
    destruct (request_transitions key None transitions anon_names r)
      as [e|r1] eqn:Hrequest; [discriminate|].
    apply IH in H. destruct H as (added2 & Hadded2 & Hmaps2 & Hanon2).
    apply request_transitions_inv in Hrequest.
    destruct Hrequest as (added1 & Hadded1 & Hfrom).
    apply provided_names_inv in Hnames. destruct Hnames as (nodes & -> & Hnodes).
    assert (Hmaps : forallb IsMap transitions = true).
    { destruct (LinkedMap.Find name config_transitions) as [v|] eqn:Hfind;
        [|discriminate].
      apply LinkedMap_Find_Some_In in Hfind.
      unfold are_transitions in Hall. rewrite List.Forall_forall in Hall.
      destruct (Hall _ Hfind) as (l & Hl & Hl_maps). simpl in Hl. subst v.
      now injection Htransitions as <-. }
    exists (added1 ++ added2).
    split; [eapply requested_trans; eassumption|]. split.
    + apply List.Forall_app. split; [|exact Hmaps2].
      eapply under_maps_intro; eassumption.
    + apply List.Forall_app. split.
      * eapply List.Forall_impl; [|exact Hfrom].
        intros dep [_ Hdep]. simpl in Hdep.
        apply List.in_map_iff in Hdep. destruct Hdep as (node & [= Hfst] & Hnode).
        exists (name, def), node. split; [now left|]. split; [now symmetry|].
        rewrite List.forallb_forall in Hnodes. now apply Hnodes.
      * eapply List.Forall_impl; [|exact Hanon2].
        intros dep (def' & node & Hdef' & Hfst & Hnode).
        exists def', node. split; [now right|]. now split.
Qed.

(** X25.  The keys of the second request of [withRuleDefinition] go in
    pairs with the transition keys that the continuation appends to those of
    the first request: they come from one list of dependencies under
    transitions that are maps, and every such dependency is an anonymous
    target of a target node, with the rule map of an anonymous definition of
    the rule.  So all the transition keys are as many as the keys of the two
    requests together. *)
Theorem withRuleDefinition_anonymous_keys (rule : UserRule.t)
  (more : RuleFields.t) (data : TargetData.t) (key : ConfiguredTarget.t)
  (request : RuleRequest) (values : list AnalysedTarget.t)
  (anonymous_keys transition_keys : list ConfiguredTarget.t)
  (params : LinkedMap.underlying_map_t Expression)
  (Hdone : withRuleDefinition rule more data key = Done request)
  (Hanonymous : withRuleDefinition_anonymous more key request values
                = Done (anonymous_keys, transition_keys, params)) :
  (exists added,
      anonymous_keys = List.map (dependency_key key) added
      /\ transition_keys
         = Requests.transition_keys (requests request)
           ++ List.map transition_key added
      /\ List.Forall (fun dep => IsMap (snd dep) = true) added
      /\ List.Forall (anonymous_of (RuleFields.AnonymousDefinitions more)) added)
  /\ List.length transition_keys
     = List.length (Requests.dependency_keys (requests request) ++ anonymous_keys)
  /\ List.map ConfiguredTarget.target transition_keys
     = List.map ConfiguredTarget.target
         (Requests.dependency_keys (requests request) ++ anonymous_keys).
Proof.
  apply withRuleDefinition_Done in Hdone.
  destruct Hdone as ((added0 & Hdks & Htks & _) & _ & _ & Hall).
  unfold withRuleDefinition_anonymous in Hanonymous.
  apply Step_bind_Done in Hanonymous.
  destruct Hanonymous as ([r' params'] & Hrequest & [= <- <- <-]).
  apply request_anonymous_inv in Hrequest; [|exact Hall].
  destruct Hrequest as (added & (Haks & Htks' & _) & Hmaps & Hanon).
  simpl in Haks, Htks'. simpl.
  split; [now exists added|].
  rewrite Haks, Htks', Hdks, Htks.
  rewrite !List.length_app, !List.map_app, !List.length_map, !List.map_map.
  now split.
Qed.

Lemma withRuleDefinition_anonymous_keys_length (rule : UserRule.t)
  (more : RuleFields.t) (data : TargetData.t) (key : ConfiguredTarget.t)
  (request : RuleRequest) (values : list AnalysedTarget.t)
  (anonymous_keys transition_keys : list ConfiguredTarget.t)
  (params : LinkedMap.underlying_map_t Expression) :
  withRuleDefinition rule more data key = Done request ->
  withRuleDefinition_anonymous more key request values
  = Done (anonymous_keys, transition_keys, params) ->
  List.length transition_keys
  = List.length (Requests.dependency_keys (requests request))
    + List.length anonymous_keys.
Proof.
  intros Hdone Hanonymous.
  apply withRuleDefinition_Done in Hdone.
  destruct Hdone as ((added0 & Hdks & Htks & _) & _ & _ & Hall).
  unfold withRuleDefinition_anonymous in Hanonymous.
  apply Step_bind_Done in Hanonymous.
  destruct Hanonymous as ([r' params'] & Hrequest & [= <- <- <-]).
  apply request_anonymous_inv in Hrequest; [|exact Hall].
  destruct Hrequest as (added & (Haks & Htks' & _) & _).
  simpl in Haks, Htks'.
  rewrite Haks, Htks', Hdks, Htks, List.length_app, !List.length_map.
  reflexivity.
Qed.

(** *** The association of the dependencies *)

Lemma associate_deps_acc_covers
  (l acc : list (ConfiguredTarget.t * AnalysedTarget.t)) :
  let step deps (kv : ConfiguredTarget.t * AnalysedTarget.t) :=
    if existsb (fun kv' => ConfiguredTarget_eqb (fst kv) (fst kv')) deps
    then deps else deps ++ [kv] in
  (forall entry, List.In entry acc -> List.In entry (fold_left step l acc))
  /\ (forall kv, List.In kv l ->
        exists entry,
          List.In entry (fold_left step l acc)
          /\ (entry = kv \/ ConfiguredTarget_eqb (fst kv) (fst entry) = true)).
Proof.
  intros step. revert acc. induction l as [|kv l IH]; intros acc; simpl.
  - split; [auto|intros kv []].
  - destruct (IH (step acc kv)) as [Hkeep Hcover].
    assert (Hacc : forall entry, List.In entry acc -> List.In entry (step acc kv)).
    { intros entry Hentry. unfold step.
      destruct (existsb _ acc); [exact Hentry|].
      apply List.in_or_app. now left. }
    split; [intros entry Hentry; now apply Hkeep, Hacc|].
    intros kv' [<-|Hin]; [|now apply Hcover].
    unfold step in Hkeep |- *.
    destruct (existsb (fun kv' => ConfiguredTarget_eqb (fst kv) (fst kv')) acc)
      eqn:Hexists.
    + apply List.existsb_exists in Hexists. destruct Hexists as (entry & He & Heq).
      exists entry. split; [now apply Hkeep|now right].
    + exists kv. split; [|now left].
      apply Hkeep. apply List.in_or_app. right. now left.
Qed.

(** X26.  When the subcaller hands to each continuation as many values as
    it was given keys, [withDependencies] is called with as many dependency
    values as transition keys, and its association of the dependencies
    leaves no transition key out: for each of them it holds an entry with
    that key or with a key equal to it. *)
Theorem withRuleDefinition_finish_associates (rule : UserRule.t)
  (more : RuleFields.t) (data : TargetData.t) (key : ConfiguredTarget.t)
  (request : RuleRequest) (values anonymous_values : list AnalysedTarget.t)
  (anonymous_keys transition_keys : list ConfiguredTarget.t)
  (params : LinkedMap.underlying_map_t Expression)
  (result_map : ResultTargetMap.t)
  (Hdone : withRuleDefinition rule more data key = Done request)
  (Hvalues : List.length values
             = List.length (Requests.dependency_keys (requests request)))
  (Hanonymous : withRuleDefinition_anonymous more key request values
                = Done (anonymous_keys, transition_keys, params))
  (Hanonymous_values : List.length anonymous_values
                       = List.length anonymous_keys) :
  withRuleDefinition_finish rule data key transition_keys params values
    anonymous_values result_map
  = withDependencies transition_keys (values ++ anonymous_values) rule data key
      params result_map
  /\ List.length (values ++ anonymous_values) = List.length transition_keys
  /\ forall transition,
      List.In transition transition_keys ->
      exists entry,
        List.In entry
          (associate_deps transition_keys (values ++ anonymous_values))
        /\ (fst entry = transition
            \/ ConfiguredTarget_eqb transition (fst entry) = true).
Proof.
  pose proof (withRuleDefinition_anonymous_keys_length rule more data key request
                values anonymous_keys transition_keys params Hdone Hanonymous)
    as Hlength.
  assert (Hsame : List.length (values ++ anonymous_values)
                  = List.length transition_keys).
  { rewrite Hlength, !List.length_app. lia. }
  split; [reflexivity|]. split; [exact Hsame|].
  intros transition Hin.
  apply List.In_nth_error in Hin. destruct Hin as [i Hi].
  assert (Hlt : i < List.length (values ++ anonymous_values)).
  { rewrite Hsame. apply List.nth_error_Some. congruence. }
  apply List.nth_error_Some in Hlt.
  destruct (List.nth_error (values ++ anonymous_values) i) as [value|] eqn:Hv;
    [|contradiction].
  assert (Hpair : List.In (transition, value)
                    (List.combine transition_keys (values ++ anonymous_values))).
  { apply (List.nth_error_In _ i).
    clear -Hi Hv. revert i transition_keys Hi Hv.
    generalize (values ++ anonymous_values) as vs.
    intros vs i. revert vs.
    induction i as [|i IH]; intros [|v vs] [|k ks]; simpl; try discriminate.
    - now intros [= ->] [= ->].
    - intros Hk Hv. now apply IH. }
  destruct (associate_deps_acc_covers
              (List.combine transition_keys (values ++ anonymous_values)) [])
    as [_ Hcover].
  destruct (Hcover _ Hpair) as (entry & Hentry & Hor).
  exists entry. split; [exact Hentry|].
  destruct Hor as [->|Heq]; [now left|now right].
Qed.

(** *** The parameters of a rule *)

Lemma eval_config_fields_inv (fields : list string) (data : TargetData.t)
  (param_config : Configuration.t)
  (params params' : LinkedMap.underlying_map_t Expression) :
  eval_config_fields fields data param_config params = inr params' ->
  (forall k v, LinkedMap.Find k params = Some v ->
               LinkedMap.Find k params' = Some v)
  /\ (forall f, List.In f fields -> LinkedMap.Find f params = None ->
        exists strings,
          LinkedMap.Find f params' = Some (list_t (List.map string_t strings))).
Proof.
  revert params. induction fields as [|field rest IH]; intros params; simpl.
  - intros [= <-]. split; [auto|]. intros f [].
  - destruct (Evaluate _ param_config [] no_collected)
      as [msg|[field_value collected]]; [discriminate|].
    destruct field_value as [ | | | | | | | |l| ]; try discriminate.
    destruct (List.find (fun entry => negb (IsString entry)) l) eqn:Hfind;
      [discriminate|].
    apply all_strings in Hfind. destruct Hfind as [strings ->].
    intros H. apply IH in H. destruct H as [Hkeep Hnew]. split.
    + intros k v Hk. apply Hkeep. rewrite Find_emplace. now rewrite Hk.
    + intros f Hf Hfree.
      destruct (String.eqb_spec f field) as [->|Hne].
      * exists strings.
        apply Hkeep. rewrite Find_emplace, Hfree. now rewrite String.eqb_refl.
      * destruct Hf as [Hf|Hf]; [congruence|].
        apply Hnew; [exact Hf|].
        rewrite Find_emplace, Hfree.
        destruct (String.eqb_spec f field); [contradiction|reflexivity].
Qed.

Lemma request_target_fields_params (fields : list string) (data : TargetData.t)
  (key : ConfiguredTarget.t) (param_config : Configuration.t)
  (config_transitions : LinkedMap.underlying_map_t Expression)
  (r r' : Requests.t) (params params' : LinkedMap.underlying_map_t Expression) :
  request_target_fields fields data key param_config config_transitions r params
  = Done (r', params') ->
  forall k v, LinkedMap.Find k params = Some v ->
              LinkedMap.Find k params' = Some v.
Proof.
  revert r params. induction fields as [|field rest IH]; intros r params; simpl.
  - now intros [= <- <-].
  - destruct (Evaluate _ param_config [] no_collected)
      as [msg|[deps_names collected]]; [discriminate|].
    destruct deps_names as [ | | | | | | | |names| ]; try discriminate.
    intros H.
    apply Step_bind_Done in H. destruct H as (dep_target_exps & _ & H).
    apply Step_bind_Done in H. destruct H as (transitions & _ & H).
    destruct (request_transitions key (find_anon_field field r) transitions
                dep_target_exps r) as [e|r1]; [discriminate|].
    intros k v Hk. eapply IH; [exact H|].
    rewrite Find_emplace. now rewrite Hk.
Qed.

(** X27.  After the first request of [withRuleDefinition] every config field
    of the rule is a parameter whose value is a list of strings: neither a
    target field nor an implicit target of the same name replaces it. *)
Theorem withRuleDefinition_config_fields (rule : UserRule.t)
  (more : RuleFields.t) (data : TargetData.t) (key : ConfiguredTarget.t)
  (request : RuleRequest)
  (Hdone : withRuleDefinition rule more data key = Done request) :
  forall field, List.In field (UserRule.ConfigFields rule) ->
    exists strings,
      LinkedMap.Find field (request_params request)
      = Some (list_t (List.map string_t strings)).
Proof.
  unfold withRuleDefinition in Hdone.
  destruct (eval_config_fields (UserRule.ConfigFields rule) data _ [])
    as [msg|params] eqn:Hconfig; [discriminate|].
  apply Step_bind_Done in Hdone. destruct Hdone as (cts1 & _ & H).
  apply Step_bind_Done in H. destruct H as (cts2 & _ & H).
  apply Step_bind_Done in H. destruct H as (cts3 & _ & H).
  apply Step_bind_Done in H. destruct H as ([r1 params1] & Hfields & H).
  apply Step_bind_Done in H. destruct H as (r2 & _ & H).
  injection H as <-. cbn [request_params fst snd].
  apply eval_config_fields_inv in Hconfig. destruct Hconfig as [_ Hnew].
  intros field Hfield.
  destruct (Hnew field Hfield Logic.eq_refl) as [strings Hstrings].
  exists strings. rewrite Find_fold_emplace.
  now rewrite (request_target_fields_params _ _ _ _ _ _ _ _ _ Hfields _ _ Hstrings).
Qed.

End Engine.

(** ** A run of the engine on concrete data

    The collaborators are instantiated with small functions and the
    properties above are applied to concrete expressions, files and
    targets. *)

Ltac nodup_strings :=
  repeat (apply List.NoDup_cons;
          [ simpl; intros H;
            repeat (destruct H as [H|H]; [discriminate H|]); exact H
          | ]);
  apply List.NoDup_nil.

Definition example_hash_gen : HashGenerator :=
  mkHashGenerator string (fun data => "<" +:+ data +:+ ">") ""
    String.append (fun hasher => Some ("<" +:+ hasher +:+ ">")).

Fixpoint example_dump (j : json) : string :=
  match j with
  | j_null => "null"
  | j_boolean true => "true"
  | j_boolean false => "false"
  | j_number_integer _ | j_number_unsigned _ | j_number_float _ => "0"
  | j_string s => String "034"%char s +:+ String "034"%char EmptyString
  | j_array l =>
      "[" +:+ List.fold_right (fun x acc => example_dump x +:+ "," +:+ acc) "]" l
  | j_object m =>
      "{" +:+ List.fold_right
                (fun kv acc => fst kv +:+ ":" +:+ example_dump (snd kv) +:+ "," +:+ acc)
                "}" m
  end.

Definition example_Artifact_ToJson (a : ArtifactDescription) : json :=
  match a with
  | Local path repo => j_object [("path", j_string path); ("repo", j_string repo)]
  | Known digest _ _ => j_object [("id", j_string digest)]
  | Action action_id output_path =>
      j_object [("id", j_string action_id); ("path", j_string output_path)]
  | TreeArtifact tree_id => j_object [("id", j_string tree_id)]
  end.

Definition example_Node_ToJson (n : TargetNode) : json :=
  match n with
  | Value _ => j_object [("type", j_string "VALUE_NODE")]
  | Abstract node_type _ _ =>
      j_object [("node_type", j_string node_type); ("type", j_string "ABSTRACT_NODE")]
  end.

Definition example_Name_ToJson (n : EntityName) : json :=
  match n with
  | Named t => j_array [j_string (repository t); j_string (module t); j_string (name t)]
  | Anonymous _ _ => j_object [("type", j_string "anonymous")]
  end.

Definition example_ToHexString (s : string) : string := s.

(** Literals evaluate to themselves. *)
Definition example_eval : SubExprEvaluator := fun expr _ => ret expr.

Definition example_Evaluate (expr : Expression) (config : Configuration.t)
  (fcts : FunctionMap) (c : Collectors) : string + (Expression * Collectors) :=
  inr (expr, c).

Fixpoint is_prefix (p q : list string) : bool :=
  match p, q with
  | [], _ => true
  | x :: p', y :: q' => String.eqb x y && is_prefix p' q'
  | _ :: _, [] => false
  end.

(** Modelled from the spec: the conflict check rejects two entries where the
    path of one is a strict prefix of the path of the other with a [/]
    boundary; the answer is the path that is the prefix. *)
Definition example_tree_conflict (e : Expression) : option string :=
  match e with
  | map_t m =>
      option_map fst
        (List.find
           (fun kv =>
              existsb
                (fun kv' =>
                   is_prefix (Path.filenames (fst kv)) (Path.filenames (fst kv'))
                   && Nat.ltb (List.length (Path.filenames (fst kv)))
                        (List.length (Path.filenames (fst kv'))))
                m)
           m)
  | _ => None
  end.

Definition example_Node_IsCacheable (n : TargetNode) : bool :=
  match n with
  | Value (result_t r) => is_cacheable r
  | _ => true
  end.

Definition example_getTainted (tainted : gset string) (config : Configuration.t)
  (tainted_exp : Expression) : string + gset string :=
  match tainted_exp with
  | list_t l =>
      (fix insert (l : list Expression) (tainted : gset string) :=
         match l with
         | [] => inr tainted
         | string_t s :: rest => insert rest (tainted ∪ {[ s ]})
         | _ :: _ => inl "tainted should evaluate to a list of strings"
         end) l tainted
  | _ => inl "tainted should evaluate to a list of strings"
  end.

Definition example_obtainTarget (eval : SubExprEvaluator) (expr : Expression)
  (env : Configuration.t) (deps : list (ConfiguredTarget.t * AnalysedTarget.t))
  : M AnalysedTarget.t :=
  throw (EvaluationError "Reference to undeclared dependency").

Definition example_obtainTargetByName (eval : SubExprEvaluator) (expr : Expression)
  (env : Configuration.t) (current : EntityName)
  (deps : list (ConfiguredTarget.t * AnalysedTarget.t)) : M AnalysedTarget.t :=
  throw (EvaluationError "Reference to undeclared dependency").

Definition example_keys_expr (e : Expression) : Expression :=
  match e with
  | map_t m => list_t (List.map (fun kv => string_t (fst kv)) m)
  | _ => list_t []
  end.

Definition example_createAction (outputs output_dirs cmd : list string)
  (env : Expression) (may_fail : option string) (no_cache : bool)
  (inputs : Expression) : ActionDescription.t :=
  ActionDescription.mk outputs output_dirs cmd env may_fail no_cache inputs
    ("action:" +:+ Path.join cmd).

Definition example_Tree_Id (tree : Tree.t) : string :=
  "tree:" +:+ Path.join (LinkedMap.keys (Tree.artifacts tree)).

Definition example_Blob_ComputeHash (data : string) : string := "<" +:+ data +:+ ">".

Definition example_default_is_cacheable (artifacts provides runfiles : Expression)
  : bool := true.

Definition example_ConfiguredTarget_eqb (a b : ConfiguredTarget.t) : bool := false.

Definition example_same_key (a b : ResultTargetMap.key) : bool := false.

(** The normal form of some paths. *)
Example lexically_normal_examples :
  List.map Path.lexically_normal
    [""; "."; "./"; "foo/bar/.."; "foo/./bar/../"; "./foo/bar"; "foo/.."; "a//b";
     "../a"; "a/../.."; "/.."; "/a/../b/"; "./a"; "a/."]
  = [""; "."; "."; "foo/"; "foo/"; "foo/bar"; "."; "a/b";
     "../a"; ".."; "/"; "/b/"; "a"; "a/"].
Proof. vm_compute. reflexivity. Qed.

Definition example_one : Expression := number_t (Number.of_Z 1).
Definition example_two : Expression := number_t (Number.of_Z 2).

Definition example_xy : LinkedMap.underlying_map_t Expression :=
  [("x", example_one); ("y", example_two)].
Definition example_yx : LinkedMap.underlying_map_t Expression :=
  [("y", example_two); ("x", example_one)].

Example example_map_of_xy_yx : map_of example_xy = map_of example_yx.
Proof. reflexivity. Qed.

(** The hash of [{x:1,y:2}] is the hash of [{y:2,x:1}]. *)
Lemma ToHash_insertion_order_witness :
  ToHash example_hash_gen example_dump example_Artifact_ToJson
    example_Node_ToJson example_Name_ToJson example_ToHexString
    (map_of example_xy)
  = ToHash example_hash_gen example_dump example_Artifact_ToJson
      example_Node_ToJson example_Name_ToJson example_ToHexString
      (map_of example_yx).
Proof.
  refine (proj1 (ToHash_insertion_order_irrelevant example_hash_gen example_dump
                   example_Artifact_ToJson example_Node_ToJson
                   example_Name_ToJson example_ToHexString
                   example_xy example_yx [] _ _ _)).
  - nodup_strings.
  - nodup_strings.
  - intros k. simpl.
    destruct (String.eqb_spec k "x") as [Hx|Hx],
             (String.eqb_spec k "y") as [Hy|Hy];
      subst; try reflexivity; discriminate.
Defined.

(** A name inside a map inside a list makes the list non-cacheable. *)
Example example_IsCacheable :
  List.map (IsCacheable example_Node_IsCacheable)
    [ list_t [string_t "x"; map_t [("k", list_t [example_one])]];
      list_t [string_t "x";
              map_t [("k", list_t [name_t (Named (mkNamedTarget "" "m" "n" kTarget))])]];
      map_t [("a", example_one);
             ("b", result_t (mkTargetResult kEmptyMapExpr kEmptyMapExpr kEmptyMapExpr false))] ]
  = [true; false; false].
Proof. reflexivity. Qed.

Definition example_json : json :=
  j_object [("b", j_array [j_number_integer 1; j_null]);
            ("a", j_object [("c", j_string "x"); ("d", j_boolean true)])].

Example example_roundtrip_value :
  ToJson example_hash_gen example_dump example_Artifact_ToJson
    example_Node_ToJson example_Name_ToJson example_ToHexString
    SerializeAll (FromJson example_json)
  = j_object [("a", j_object [("c", j_string "x"); ("d", j_boolean true)]);
              ("b", j_array [j_number_float (Number.of_Z 1); j_null])].
Proof. vm_compute. reflexivity. Qed.

(** The equality of JSON values tells values apart, does not look at the
    order of the members, and compares an integer with a double after
    conversion: 2^53 + 1 is rounded to 2^53. *)
Example example_json_eqb :
  List.map (fun p => Json.eqb (fst p) (snd p))
    [ (j_object [("a", j_null)], j_object [("a", j_boolean true)]);
      (j_object [("a", j_null); ("b", j_string "x")],
       j_object [("b", j_string "x"); ("a", j_null)]);
      (j_array [j_null; j_string "x"], j_array [j_string "x"; j_null]);
      (j_number_float (Number.of_Z 1), j_number_integer 1);
      (j_number_float (Number.of_Z 1), j_number_integer 2);
      (j_number_float (Number.of_Z 9007199254740993),
       j_number_integer 9007199254740993);
      (j_number_float S754_nan, j_number_float S754_nan) ]
  = [false; true; false; true; false; true; false].
Proof. vm_compute. reflexivity. Qed.

Example example_of_Z_rounds :
  Number.of_Z 9007199254740993 = S754_finite false 4503599627370496 1
  /\ Number.of_Z 1 = S754_finite false 4503599627370496 (-52).
Proof. vm_compute. split; reflexivity. Qed.

(** The round trip of a nested object. *)
Lemma ToJson_FromJson_roundtrip_witness :
  Json.eqb
    (ToJson example_hash_gen example_dump example_Artifact_ToJson
       example_Node_ToJson example_Name_ToJson example_ToHexString
       SerializeAll (FromJson example_json))
    example_json = true.
Proof.
  refine (ToJson_FromJson_roundtrip example_hash_gen example_dump
            example_Artifact_ToJson example_Node_ToJson example_Name_ToJson
            example_ToHexString SerializeAll example_json _ _).
  - simpl. repeat split; nodup_strings.
  - reflexivity.
Defined.




(** A repository with one targets file, [src/TARGETS]. *)
Definition example_root : FileRoot.t :=
  FileRoot.mk (fun path => String.eqb path "src/TARGETS")
    (fun path => if String.eqb path "src/TARGETS" then Some "{}" else None).

Definition example_get_root (repository : string) : option FileRoot.t :=
  if String.eqb repository "main" then Some example_root else None.

Definition example_get_name (repository : string) : option string :=
  if String.eqb repository "main" then Some "TARGETS" else None.

Definition example_json_parse (content : string) : option json :=
  if String.eqb content "{}" then Some (j_object [])
  else if String.eqb content "[]" then Some (j_array [])
  else None.

Example example_json_file_reader :
  List.map (json_file_reader example_json_parse example_get_root example_get_name true)
    [ModuleName.mk "main" "src"; ModuleName.mk "main" "./src/lib/..";
     ModuleName.mk "main" "src/../.."; ModuleName.mk "main" "/src";
     ModuleName.mk "main" "doc"; ModuleName.mk "other" "src"]
  = [SetValue (j_object []); SetValue (j_object []);
     LogFatal "Modules have to live inside their repository, but found src/../...";
     LogFatal "Modules have to live inside their repository, but found /src.";
     LogFatal "JSON file doc/TARGETS does not exist.";
     LogFatal "Cannot determine root or JSON file name for repository other."].
Proof. vm_compute. reflexivity. Qed.

(** A module without a file in a map that is not mandatory: the empty
    object. *)
Lemma json_file_reader_cases_witness :
  json_file_reader example_json_parse example_get_root example_get_name false
    (ModuleName.mk "main" "doc")
  = SetValue Json.object.
Proof.
  refine (proj1 (proj2 (json_file_reader_cases example_json_parse
                          example_get_root example_get_name false
                          (ModuleName.mk "main" "doc") example_root "TARGETS"
                          Logic.eq_refl Logic.eq_refl)
                   Logic.eq_refl _) Logic.eq_refl).
  vm_compute. discriminate.
Defined.

Definition example_result : TargetResult :=
  mkTargetResult kEmptyMapExpr kEmptyMapExpr kEmptyMapExpr true.

Definition example_anonymous : ConfiguredTarget.t :=
  ConfiguredTarget.mk
    (Anonymous (map_t []) (node_t (Value (result_t example_result))))
    Configuration.empty.

(** The analysis of a value node. *)
Lemma withTargetNode_value_node_witness :
  exists value,
    withTargetNode example_hash_gen example_dump example_Artifact_ToJson
      example_Node_ToJson example_Name_ToJson example_ToHexString
      example_anonymous
    = inr [Set_ value]
    /\ AnalysedTarget.Result value = example_result
    /\ AnalysedTarget.Actions value = []
    /\ AnalysedTarget.Blobs value = []
    /\ AnalysedTarget.Trees value = []
    /\ AnalysedTarget.Vars value = ∅
    /\ AnalysedTarget.Tainted value = ∅.
Proof.
  exact (withTargetNode_value_node example_hash_gen example_dump
           example_Artifact_ToJson example_Node_ToJson example_Name_ToJson
           example_ToHexString example_anonymous [] example_result
           Logic.eq_refl).
Defined.

(** A rule tainted with ["test"], applied to a target with one dependency
    tainted with ["test"]. *)
Definition example_rule : UserRule.t :=
  UserRule.mk [] [] ["deps"] [] {[ "test" ]} (result_t example_result).

Definition example_data : TargetData.t :=
  TargetData.mk [] [] [] [("deps", list_t [])] (list_t [string_t "lint"]) true.

Definition example_key : ConfiguredTarget.t :=
  ConfiguredTarget.mk (Named (mkNamedTarget "main" "src" "app" kTarget))
    Configuration.empty.

Definition example_dep_key : ConfiguredTarget.t :=
  ConfiguredTarget.mk (Named (mkNamedTarget "main" "src" "lib" kTarget))
    Configuration.empty.

Definition example_dep : AnalysedTarget.t :=
  AnalysedTarget.mk example_result [] [] [] ∅ {[ "test" ]}.

Definition example_withDependencies (dependency_values : list AnalysedTarget.t)
  : Outcome AnalysedTarget.t * ResultTargetMap.t :=
  withDependencies example_hash_gen example_dump example_Artifact_ToJson
    example_Node_ToJson example_Name_ToJson example_ToHexString
    example_tree_conflict example_getTainted example_obtainTarget
    example_obtainTargetByName example_keys_expr example_createAction
    example_Tree_Id example_Blob_ComputeHash example_default_is_cacheable
    example_ConfiguredTarget_eqb example_same_key example_Evaluate
    [example_dep_key] dependency_values example_rule example_data example_key
    [] [].

(** The tainted set of a target. *)
Lemma withDependencies_tainted_witness :
  let tainted : gset string := ∅ ∪ {[ "lint" ]} ∪ {[ "test" ]} in
  (forall value result_map',
      example_withDependencies [example_dep] = (SetValue value, result_map') ->
      List.Forall (fun dep => AnalysedTarget.Tainted dep ⊆ tainted) [example_dep]
      /\ exists effective_conf candidate,
          AnalysedTarget.Tainted candidate = tainted
          /\ ResultTargetMap.Add example_same_key []
               (ConfiguredTarget.target example_key) effective_conf candidate
             = (value, result_map')
          /\ (ResultTargetMap.Find example_same_key
                (ConfiguredTarget.target example_key, effective_conf) [] = None ->
              AnalysedTarget.Tainted value = tainted))
  /\ ((exists dep, List.In dep [example_dep]
                   /\ ~ AnalysedTarget.Tainted dep ⊆ tainted) ->
      fails (fst (example_withDependencies [example_dep]))
      /\ snd (example_withDependencies [example_dep]) = []).
Proof.
  exact (withDependencies_tainted example_hash_gen example_dump
           example_Artifact_ToJson example_Node_ToJson example_Name_ToJson
           example_ToHexString example_tree_conflict example_getTainted
           example_obtainTarget example_obtainTargetByName example_keys_expr
           example_createAction example_Tree_Id example_Blob_ComputeHash
           example_default_is_cacheable example_ConfiguredTarget_eqb
           example_same_key example_Evaluate
           [example_dep_key] [example_dep] example_rule example_data
           example_key [] [] (∅ ∪ {[ "lint" ]}) Logic.eq_refl).
Defined.

Example example_withDependencies_sets :
  exists value result_map,
    example_withDependencies [example_dep] = (SetValue value, result_map)
    /\ AnalysedTarget.Tainted value = {[ "lint" ]} ∪ {[ "test" ]}.
Proof.
  eexists _, _. split; [vm_compute; reflexivity|].
  vm_compute. reflexivity.
Qed.

Example example_withDependencies_taint_violation :
  example_withDependencies
    [AnalysedTarget.mk example_result [] [] [] ∅ {[ "secret" ]}]
  = (LogFatal "Not tainted with all strings the dependencies are tainted with", []).
Proof. vm_compute. reflexivity. Qed.

(** An action with one output file. *)
Definition example_action_call : LinkedMap.t Expression :=
  LinkedMap.make
    [("type", string_t "ACTION");
     ("outs", list_t [string_t "out/b"; string_t "a"]);
     ("cmd", list_t [string_t "touch"; string_t "a"; string_t "out/b"])].

Definition example_ACTION (call : LinkedMap.t Expression)
  : Exception + (Expression * Collectors) :=
  ACTION example_hash_gen example_dump example_Artifact_ToJson
    example_Node_ToJson example_Name_ToJson example_ToHexString
    example_tree_conflict example_createAction example_rule example_eval
    (map_t call) Configuration.empty no_collected.

Example example_ACTION_returns :
  example_ACTION example_action_call
  = inr (map_t [("a", artifact_t (Action "action:touch/a/out/b" "a"));
                ("out/b", artifact_t (Action "action:touch/a/out/b" "out/b"))],
         mkCollectors
           [ActionDescription.mk ["a"; "out/b"] [] ["touch"; "a"; "out/b"]
              kEmptyMapExpr None false kEmptyMapExpr "action:touch/a/out/b"]
           [] []).
Proof. vm_compute. reflexivity. Qed.

Example example_ACTION_not_disjoint :
  example_ACTION
    (LinkedMap.make
       [("outs", list_t [string_t "b"; string_t "a"]);
        ("out_dirs", list_t [string_t "c"; string_t "b"]);
        ("cmd", list_t [string_t "true"])])
  = inl (EvaluationError "outs and out_dirs for ACTION must be disjoint").
Proof. vm_compute. reflexivity. Qed.

Example example_ACTION_conflict :
  example_ACTION
    (LinkedMap.make
       [("inputs", map_t [("a", artifact_t (TreeArtifact "t"));
                          ("a/b", artifact_t (Local "b.c" "main"))]);
        ("outs", list_t [string_t "out"]);
        ("cmd", list_t [string_t "true"])])
  = inl (EvaluationError "inputs conflicts on subtree a").
Proof. vm_compute. reflexivity. Qed.

Example example_ACTION_no_output :
  example_ACTION (LinkedMap.make [("cmd", list_t [string_t "true"])])
  = inl (EvaluationError "either outs or out_dirs must be specified for ACTION").
Proof. vm_compute. reflexivity. Qed.

(** The checks of an action that returns. *)
Lemma ACTION_output_checks_witness :
  action_outputs_ok example_tree_conflict kEmptyMapExpr
    (list_t [string_t "out/b"; string_t "a"]) (list_t []).
Proof.
  refine (proj2 (proj2 (proj2 (proj2
            (ACTION_output_checks example_hash_gen example_dump
               example_Artifact_ToJson example_Node_ToJson example_Name_ToJson
               example_ToHexString example_tree_conflict example_createAction
               example_rule example_eval example_action_call
               Configuration.empty no_collected no_collected no_collected
               no_collected kEmptyMapExpr
               (list_t [string_t "out/b"; string_t "a"]) (list_t [])
               Logic.eq_refl Logic.eq_refl Logic.eq_refl)))) _ _ _).
  vm_compute. reflexivity.
Defined.

Definition example_TREE (arg : LinkedMap.t Expression)
  : Exception + (Expression * Collectors) :=
  TREE example_hash_gen example_dump example_Artifact_ToJson
    example_Node_ToJson example_Name_ToJson example_ToHexString
    example_tree_conflict example_Tree_Id example_eval
    (map_t [("$1", map_t arg); ("type", string_t "TREE")])
    Configuration.empty no_collected.

Example example_TREE_runs :
  List.map example_TREE
    [ [(".", artifact_t (TreeArtifact "t"))];
      [("foo/..", artifact_t (TreeArtifact "t"))];
      [(".", artifact_t (Local "a.c" "main"))];
      [(".", artifact_t (TreeArtifact "t")); ("a", artifact_t (Local "a.c" "main"))];
      [("./a", artifact_t (Local "x" "main")); ("a", artifact_t (Local "y" "main"))] ]
  = [ inr (artifact_t (TreeArtifact "t"), no_collected);
      inr (artifact_t (TreeArtifact "t"), no_collected);
      inl (EvaluationError "input path '.' or '' for TREE must be tree artifact");
      inl (EvaluationError
             "input path '.' or '' for TREE is only allowed for trees with single input artifact");
      inr (artifact_t (TreeArtifact "tree:a"),
           mkCollectors [] [] [Tree.mk [("a", Local "x" "main")]]) ].
Proof. vm_compute. reflexivity. Qed.

(** The tree at ["."] is returned as it is. *)
Lemma TREE_dot_path_witness :
  example_TREE [(".", artifact_t (TreeArtifact "t"))]
  = inr (artifact_t (TreeArtifact "t"), no_collected).
Proof.
  exact (proj1 (proj1 (TREE_dot_path example_hash_gen example_dump
                         example_Artifact_ToJson example_Node_ToJson
                         example_Name_ToJson example_ToHexString
                         example_tree_conflict example_Tree_Id example_eval
                         [("$1", map_t [(".", artifact_t (TreeArtifact "t"))]);
                          ("type", string_t "TREE")]
                         Configuration.empty no_collected no_collected
                         [(".", artifact_t (TreeArtifact "t"))]
                         "." (artifact_t (TreeArtifact "t"))
                         Logic.eq_refl (or_introl Logic.eq_refl) Logic.eq_refl)
                  Logic.eq_refl)
           (TreeArtifact "t") Logic.eq_refl Logic.eq_refl).
Defined.

(** Two keys of the same normalised path that name the tree itself, and two
    keys of the same normalised path beside a value that is no artifact. *)
Definition example_dot_paths : LinkedMap.t Expression :=
  [(".", artifact_t (TreeArtifact "t"));
   ("foo/..", artifact_t (Local "a.c" "main"))].

Definition example_no_artifact : LinkedMap.t Expression :=
  [("./a", artifact_t (Local "x" "main"));
   ("a", artifact_t (Local "y" "main"));
   ("b", string_t "text")].

(** Counterexample to C9: two different keys with the same normalised path
    and no conflict are not enough for [TREE] to raise no error.  The keys
    ["."] and ["foo/.."] both name the tree itself, which is allowed only
    for a map of a single entry; and beside the keys ["./a"] and ["a"] a
    value that is no artifact is an error as well. *)
Lemma TREE_equal_normal_paths_raises :
  ("." <> "foo/.."
   /\ Path.lexically_normal "." = Path.lexically_normal "foo/.."
   /\ List.In (".", artifact_t (TreeArtifact "t")) example_dot_paths
   /\ List.In ("foo/..", artifact_t (Local "a.c" "main")) example_dot_paths
   /\ Sorted LinkedMap.key_lt example_dot_paths
   /\ example_tree_conflict (map_t example_dot_paths) = None
   /\ example_TREE example_dot_paths
      = inl (EvaluationError
               "input path '.' or '' for TREE is only allowed for trees with single input artifact"))
  /\ ("./a" <> "a"
      /\ Path.lexically_normal "./a" = Path.lexically_normal "a"
      /\ List.In ("./a", artifact_t (Local "x" "main")) example_no_artifact
      /\ List.In ("a", artifact_t (Local "y" "main")) example_no_artifact
      /\ Sorted LinkedMap.key_lt example_no_artifact
      /\ example_tree_conflict (map_t example_no_artifact) = None
      /\ exists msg,
          example_TREE example_no_artifact = inl (EvaluationError msg)).
Proof.
  split.
  - split; [discriminate|]. split; [reflexivity|].
    split; [now left|]. split; [right; now left|].
    split; [repeat constructor|]. split; [reflexivity|].
    vm_compute. reflexivity.
  - split; [discriminate|]. split; [reflexivity|].
    split; [now left|]. split; [right; now left|].
    split; [repeat constructor|]. split; [reflexivity|].
    eexists. vm_compute. reflexivity.
Qed.

(** [./a] and [a] name the same path; the tree holds the artifact of [./a],
    the first of the two keys. *)
Lemma TREE_equal_normal_paths_witness :
  exists artifacts,
    example_TREE [("./a", artifact_t (Local "x" "main"));
                  ("a", artifact_t (Local "y" "main"))]
    = inr (artifact_t (TreeArtifact (example_Tree_Id (Tree.mk artifacts))),
           mkCollectors [] [] [Tree.mk artifacts])
    /\ List.NoDup (LinkedMap.keys artifacts)
    /\ List.filter
         (fun entry => String.eqb (fst entry) (Path.lexically_normal "a"))
         artifacts
       = [(Path.lexically_normal "a", Local "x" "main")]
    /\ (Local "x" "main" <> Local "y" "main" ->
        ~ List.In (Path.lexically_normal "a", Local "y" "main") artifacts).
Proof.
  refine (TREE_equal_normal_paths example_hash_gen example_dump
            example_Artifact_ToJson example_Node_ToJson example_Name_ToJson
            example_ToHexString example_tree_conflict example_Tree_Id
            example_eval
            [("$1", map_t [("./a", artifact_t (Local "x" "main"));
                           ("a", artifact_t (Local "y" "main"))]);
             ("type", string_t "TREE")]
            Configuration.empty no_collected no_collected
            [("./a", artifact_t (Local "x" "main"));
             ("a", artifact_t (Local "y" "main"))]
            "./a" "a" (Local "x" "main") (Local "y" "main")
            Logic.eq_refl _ (or_introl Logic.eq_refl)
            (or_intror (or_introl Logic.eq_refl)) _ Logic.eq_refl _ _ _
            Logic.eq_refl).
  - repeat constructor.
  - discriminate.
  - intros item [<-|[<-|[]]] _; [now left|now right].
  - intros item [<-|[<-|[]]]; reflexivity.
  - intros item [<-|[<-|[]]]; reflexivity.
Defined.

(** ** The JSON of plain data *)

(** X8.  In the mode [NullForNonJson] the JSON of an expression does not
    depend on how artifacts, nodes and names are serialised, nor on the hash
    generator: none of them is called, and every artifact, result, node and
    name becomes null. *)
Theorem ToJson_NullForNonJson_plain
  (hash_gen_ hash_gen_' : HashGenerator) (dump dump' : json -> string)
  (Artifact_ToJson Artifact_ToJson' : ArtifactDescription -> json)
  (Node_ToJson Node_ToJson' : TargetNode -> json)
  (Name_ToJson Name_ToJson' : EntityName -> json)
  (ToHexString ToHexString' : string -> string) (e : Expression) :
  ToJson hash_gen_ dump Artifact_ToJson Node_ToJson Name_ToJson ToHexString
    NullForNonJson e
  = ToJson hash_gen_' dump' Artifact_ToJson' Node_ToJson' Name_ToJson'
      ToHexString' NullForNonJson e
  /\ (IsArtifact e || IsResult e || IsNode e || IsName e = true ->
      ToJson hash_gen_ dump Artifact_ToJson Node_ToJson Name_ToJson ToHexString
        NullForNonJson e = j_null).
Proof.
  split.
  - induction e as [ | | | | | | | |l IH|m IH] using Expression_nested_ind;
      try reflexivity.
    + change (j_array
                (List.map
                   (ToJson hash_gen_ dump Artifact_ToJson Node_ToJson Name_ToJson
                      ToHexString NullForNonJson) l)
              = j_array
                  (List.map
                     (ToJson hash_gen_' dump' Artifact_ToJson' Node_ToJson'
                        Name_ToJson' ToHexString' NullForNonJson) l)).
      f_equal. apply List.map_ext_in. intros x Hx.
      rewrite List.Forall_forall in IH. now apply IH.
    + change (j_object
                (Json.emplace_all
                   (List.map
                      (fun p =>
                         (fst p,
                          ToJson hash_gen_ dump Artifact_ToJson Node_ToJson
                            Name_ToJson ToHexString NullForNonJson (snd p))) m))
              = j_object
                  (Json.emplace_all
                     (List.map
                        (fun p =>
                           (fst p,
                            ToJson hash_gen_' dump' Artifact_ToJson' Node_ToJson'
                              Name_ToJson' ToHexString' NullForNonJson (snd p)))
                        m))).
      do 2 f_equal. apply List.map_ext_in. intros x Hx. f_equal.
      rewrite List.Forall_forall in IH. now apply IH.
  - destruct e; simpl; try discriminate; reflexivity.
Qed.

(** ** More runs of the engine on concrete data *)

Example example_Index :
  (Index (FromJson example_json) "a" no_collected,
   Index (FromJson example_json) "c" no_collected,
   Index_pos (FromJson (j_array [j_null; j_boolean true])) 1 no_collected,
   Index_pos (FromJson (j_array [j_null; j_boolean true])) 2 no_collected)
  = (inr (map_of [("c", string_t "x"); ("d", bool_t true)], no_collected),
     inl (ExpressionTypeError "Map does not contain key 'c'."),
     inr (bool_t true, no_collected),
     inl (ExpressionTypeError "List pos '2' is out of bounds.")).
Proof. vm_compute. reflexivity. Qed.

(** The serialisations of the example keep the keys of an object apart. *)
Lemma ToJson_wf_witness :
  Json.wf
    (ToJson example_hash_gen example_dump example_Artifact_ToJson
       example_Node_ToJson example_Name_ToJson example_ToHexString SerializeAll
       (list_t [artifact_t (Local "a.c" "main");
                node_t (Value (result_t example_result));
                result_t example_result;
                map_t [("b", none_t); ("a", none_t); ("b", bool_t true)]])).
Proof.
  apply (ToJson_wf example_hash_gen example_dump example_Artifact_ToJson
           example_Node_ToJson example_Name_ToJson example_ToHexString).
  - intros []; simpl; (split; [nodup_strings|repeat split]).
  - intros []; simpl; (split; [nodup_strings|repeat split]).
  - intros []; simpl; repeat split. nodup_strings.
Defined.

(** A map that holds a NaN is decoded from its JSON as it was. *)
Lemma FromJson_ToJson_roundtrip_witness :
  FromJson
    (ToJson example_hash_gen example_dump example_Artifact_ToJson
       example_Node_ToJson example_Name_ToJson example_ToHexString SerializeAll
       (map_t [("a", list_t [none_t; number_t S754_nan]); ("b", string_t "x")]))
  = map_t [("a", list_t [none_t; number_t S754_nan]); ("b", string_t "x")].
Proof.
  apply (FromJson_ToJson_roundtrip example_hash_gen example_dump
           example_Artifact_ToJson example_Node_ToJson example_Name_ToJson
           example_ToHexString).
  simpl. repeat split. repeat constructor.
Defined.

(** The hash generator of the example always finalises. *)
Lemma ToHash_returns_witness :
  exists digest,
    ToHash example_hash_gen example_dump example_Artifact_ToJson
      example_Node_ToJson example_Name_ToJson example_ToHexString
      (list_t [string_t "a"; map_t [("k", none_t)]])
    = Some digest.
Proof.
  apply (ToHash_returns example_hash_gen example_dump example_Artifact_ToJson
           example_Node_ToJson example_Name_ToJson example_ToHexString).
  intros hasher. simpl. discriminate.
Defined.

(** The example prints every number as [0], so that [1] and [2] have the
    same hash; then so have the lists and the maps that hold them. *)
Lemma ToHash_children_witness :
  ToHash example_hash_gen example_dump example_Artifact_ToJson
    example_Node_ToJson example_Name_ToJson example_ToHexString
    (list_t [example_one])
  = ToHash example_hash_gen example_dump example_Artifact_ToJson
      example_Node_ToJson example_Name_ToJson example_ToHexString
      (list_t [example_two])
  /\ ToHash example_hash_gen example_dump example_Artifact_ToJson
       example_Node_ToJson example_Name_ToJson example_ToHexString
       (map_t [("k", example_one)])
     = ToHash example_hash_gen example_dump example_Artifact_ToJson
         example_Node_ToJson example_Name_ToJson example_ToHexString
         (map_t [("k", example_two)]).
Proof.
  apply (ToHash_children example_hash_gen example_dump example_Artifact_ToJson
           example_Node_ToJson example_Name_ToJson example_ToHexString
           [example_one] [example_two]
           [("k", example_one)] [("k", example_two)]);
    reflexivity.
Defined.

(** What the reader sets for [src] is an object. *)
Lemma json_file_reader_sets_object_witness :
  Json.is_object (j_object []) = true
  /\ (exists root json_file_name,
         example_get_root "main" = Some root
         /\ example_get_name "main" = Some json_file_name)
  /\ Path.is_absolute (Path.lexically_normal "src") = false
  /\ Path.begin (Path.lexically_normal "src") <> "..".
Proof.
  apply (json_file_reader_sets_object example_json_parse example_get_root
           example_get_name true (ModuleName.mk "main" "src") (j_object [])).
  vm_compute. reflexivity.
Defined.

(** A root that holds every file, each with the content of [src/TARGETS]. *)
Definition example_full_root : FileRoot.t :=
  FileRoot.mk (fun _ => true) (fun _ => Some "{}").

Lemma json_file_reader_one_file_witness :
  json_file_reader example_json_parse example_get_root example_get_name true
    (ModuleName.mk "main" "src")
  = json_file_reader example_json_parse (fun _ => Some example_full_root)
      (fun _ => Some "TARGETS") true (ModuleName.mk "main" "src").
Proof.
  apply (json_file_reader_one_file example_json_parse
           example_get_root (fun _ => Some example_full_root)
           example_get_name (fun _ => Some "TARGETS") true
           (ModuleName.mk "main" "src") example_root example_full_root "TARGETS");
    reflexivity.
Defined.

(** An action that may fail and is not cached, in a rule tainted with
    ["test"]. *)
Definition example_test_call : LinkedMap.t Expression :=
  LinkedMap.make
    [("outs", list_t [string_t "log"]);
     ("out_dirs", list_t [string_t "report"]);
     ("cmd", list_t [string_t "run-tests"]);
     ("may_fail", list_t [string_t "test"]);
     ("fail_message", string_t "tests failed");
     ("no_cache", list_t [string_t "test"])].

Definition example_test_action : ActionDescription.t :=
  ActionDescription.mk ["log"] ["report"] ["run-tests"] kEmptyMapExpr
    (Some "tests failed") true kEmptyMapExpr "action:run-tests".

Example example_ACTION_may_fail :
  example_ACTION example_test_call
  = inr (map_t [("log", artifact_t (Action "action:run-tests" "log"));
                ("report", artifact_t (Action "action:run-tests" "report"))],
         mkCollectors [example_test_action] [] []).
Proof. vm_compute. reflexivity. Qed.

Example example_ACTION_not_tainted :
  example_ACTION
    (LinkedMap.make
       [("outs", list_t [string_t "log"]);
        ("cmd", list_t [string_t "run-tests"]);
        ("no_cache", list_t [string_t "flaky"])])
  = inl (EvaluationError
           ("no_cache contains entry " +:+ String "034"%char "flaky"
            +:+ String "034"%char " the the rule is not tainted with")).
Proof. vm_compute. reflexivity. Qed.


Lemma ACTION_taint_witness :
  (exists strings,
      default (list_t []) (LinkedMap.Find "may_fail" example_test_call)
      = list_t (List.map string_t strings)
      /\ List.Forall (fun s => s ∈ UserRule.Tainted example_rule) strings)
  /\ (exists strings,
         default (list_t []) (LinkedMap.Find "no_cache" example_test_call)
         = list_t (List.map string_t strings)
         /\ List.Forall (fun s => s ∈ UserRule.Tainted example_rule) strings).
Proof.
  assert (Hrun : example_ACTION example_test_call
                 = inr (map_t [("log", artifact_t (Action "action:run-tests" "log"));
                               ("report",
                                artifact_t (Action "action:run-tests" "report"))],
                        mkCollectors [example_test_action] [] []))
    by (vm_compute; reflexivity).
  split.
  - exact (ACTION_taint example_hash_gen example_dump example_Artifact_ToJson
             example_Node_ToJson example_Name_ToJson example_ToHexString
             example_tree_conflict example_createAction example_rule
             example_eval example_test_call Configuration.empty no_collected
             _ _ Hrun "may_fail" (or_introl Logic.eq_refl)).
  - exact (ACTION_taint example_hash_gen example_dump example_Artifact_ToJson
             example_Node_ToJson example_Name_ToJson example_ToHexString
             example_tree_conflict example_createAction example_rule
             example_eval example_test_call Configuration.empty no_collected
             _ _ Hrun "no_cache" (or_intror Logic.eq_refl)).
Defined.

(** The tree of [./a] and [a] holds one artifact, at [a]. *)
Lemma TREE_returns_witness :
  exists m,
    map_t [("./a", artifact_t (Local "x" "main"));
           ("a", artifact_t (Local "y" "main"))] = map_t m
    /\ ((exists k a,
            m = [(k, artifact_t a)]
            /\ is_dot_path (Path.lexically_normal k) = true
            /\ IsTree a = true
            /\ artifact_t (TreeArtifact "tree:a") = artifact_t a
            /\ mkCollectors [] [] [Tree.mk [("a", Local "x" "main")]]
               = no_collected)
        \/ (List.Forall
              (fun item =>
                 IsArtifact (snd item) = true
                 /\ is_dot_path (Path.lexically_normal (fst item)) = false) m
            /\ example_tree_conflict
                 (map_t [("./a", artifact_t (Local "x" "main"));
                         ("a", artifact_t (Local "y" "main"))]) = None
            /\ exists artifacts,
                artifact_t (TreeArtifact "tree:a")
                = artifact_t (TreeArtifact (example_Tree_Id (Tree.mk artifacts)))
                /\ mkCollectors [] [] [Tree.mk [("a", Local "x" "main")]]
                   = mkCollectors (actions no_collected) (blobs no_collected)
                       (trees no_collected ++ [Tree.mk artifacts])
                /\ List.NoDup (LinkedMap.keys artifacts)
                /\ forall p,
                    LinkedMap.Find p artifacts
                    = LinkedMap.Find p (staged_entries m))).
Proof.
  apply (TREE_returns example_hash_gen example_dump example_Artifact_ToJson
           example_Node_ToJson example_Name_ToJson example_ToHexString
           example_tree_conflict example_Tree_Id example_eval
           [("$1", map_t [("./a", artifact_t (Local "x" "main"));
                          ("a", artifact_t (Local "y" "main"))]);
            ("type", string_t "TREE")]
           Configuration.empty no_collected no_collected
           (mkCollectors [] [] [Tree.mk [("a", Local "x" "main")]])
           (map_t [("./a", artifact_t (Local "x" "main"));
                   ("a", artifact_t (Local "y" "main"))])
           (artifact_t (TreeArtifact "tree:a")));
    vm_compute; reflexivity.
Defined.

(** A result with one artifact that is also its runfile. *)
Definition example_result_call : LinkedMap.t Expression :=
  [("artifacts", map_t [("lib.a", artifact_t (Local "lib.a" "main"))]);
   ("runfiles", map_t [("lib.a", artifact_t (Local "lib.a" "main"))]);
   ("type", string_t "RESULT")].

Lemma RESULT_returns_iff_witness :
  RESULT example_hash_gen example_dump example_Artifact_ToJson
    example_Node_ToJson example_Name_ToJson example_ToHexString
    example_default_is_cacheable example_eval (map_t example_result_call)
    Configuration.empty no_collected
  = inr (result_t
           (make_TargetResult example_default_is_cacheable
              (map_t [("lib.a", artifact_t (Local "lib.a" "main"))])
              kEmptyMapExpr
              (map_t [("lib.a", artifact_t (Local "lib.a" "main"))])),
         no_collected).
Proof.
  apply (RESULT_returns_iff example_hash_gen example_dump example_Artifact_ToJson
           example_Node_ToJson example_Name_ToJson example_ToHexString
           example_default_is_cacheable example_eval example_result_call
           Configuration.empty
           no_collected no_collected no_collected no_collected no_collected
           (map_t [("lib.a", artifact_t (Local "lib.a" "main"))])
           (map_t [("lib.a", artifact_t (Local "lib.a" "main"))])
           kEmptyMapExpr
           (result_t
              (make_TargetResult example_default_is_cacheable
                 (map_t [("lib.a", artifact_t (Local "lib.a" "main"))])
                 kEmptyMapExpr
                 (map_t [("lib.a", artifact_t (Local "lib.a" "main"))])))
           Logic.eq_refl Logic.eq_refl Logic.eq_refl).
  split; [|now repeat split].
  exists [("lib.a", artifact_t (Local "lib.a" "main"))],
    [("lib.a", artifact_t (Local "lib.a" "main"))].
  now repeat split.
Defined.

Example example_RESULT_not_artifacts :
  RESULT example_hash_gen example_dump example_Artifact_ToJson
    example_Node_ToJson example_Name_ToJson example_ToHexString
    example_default_is_cacheable example_eval
    (map_t [("artifacts", map_t [("lib.a", string_t "lib.a")])])
    Configuration.empty no_collected
  = inl (EvaluationError
           ("artifacts has to be a map of artifacts, but found "
            +:+ String "034"%char "lib.a" +:+ String "034"%char " for lib.a")).
Proof. vm_compute. reflexivity. Qed.

(** An abstract node of type [library] with one source and one
    dependency. *)
Definition example_value_node : Expression :=
  node_t (Value (result_t example_result)).

Definition example_string_fields : LinkedMap.t Expression :=
  [("srcs", list_t [string_t "a.c"])].

Definition example_target_fields : LinkedMap.t Expression :=
  [("deps", list_t [example_value_node])].

Definition example_node_call : LinkedMap.t Expression :=
  [("node_type", string_t "library");
   ("string_fields", map_t example_string_fields);
   ("target_fields", map_t example_target_fields)].

Lemma ABSTRACT_NODE_returns_witness :
  exists node_type string_map target_map,
    string_t "library" = string_t node_type
    /\ map_t example_string_fields = map_t string_map
    /\ map_t example_target_fields = map_t target_map
    /\ node_t (Abstract "library" (map_t example_string_fields)
                 (map_t example_target_fields))
       = node_t (Abstract node_type (map_t example_string_fields)
                   (map_t example_target_fields))
    /\ no_collected = no_collected
    /\ List.Forall
         (fun entry =>
            exists l, snd entry = list_t l /\ forallb IsString l = true)
         string_map
    /\ List.Forall
         (fun entry =>
            exists l, snd entry = list_t l /\ forallb IsNode l = true)
         target_map
    /\ forall key, LinkedMap.contains key string_map = true ->
                   LinkedMap.contains key target_map = false.
Proof.
  apply (ABSTRACT_NODE_returns example_hash_gen example_dump
           example_Artifact_ToJson example_Node_ToJson example_Name_ToJson
           example_ToHexString example_eval example_node_call
           Configuration.empty
           no_collected no_collected no_collected no_collected no_collected
           (string_t "library") (map_t example_string_fields)
           (map_t example_target_fields)
           (node_t (Abstract "library" (map_t example_string_fields)
                      (map_t example_target_fields))));
    vm_compute; reflexivity.
Defined.

Example example_ABSTRACT_NODE_not_disjoint :
  ABSTRACT_NODE example_hash_gen example_dump example_Artifact_ToJson
    example_Node_ToJson example_Name_ToJson example_ToHexString example_eval
    (map_t [("node_type", string_t "library");
            ("string_fields", map_t [("deps", list_t [])]);
            ("target_fields", map_t example_target_fields)])
    Configuration.empty no_collected
  = inl (EvaluationError
           "string_fields and target_fields are not disjoint maps, found duplicate key: deps.").
Proof. vm_compute. reflexivity. Qed.

(** The value node of a result is analysed to that result. *)
Lemma VALUE_NODE_analysed_witness :
  exists result,
    result_t example_result = result_t result
    /\ example_value_node = node_t (Value (result_t example_result))
    /\ no_collected = no_collected
    /\ forall key rule_mapping,
        ConfiguredTarget.target key
        = Anonymous (map_t rule_mapping) example_value_node ->
        withTargetNode example_hash_gen example_dump example_Artifact_ToJson
          example_Node_ToJson example_Name_ToJson example_ToHexString key
        = inr [Set_ (AnalysedTarget.mk result [] [] [] ∅ ∅)].
Proof.
  apply (VALUE_NODE_analysed example_hash_gen example_dump
           example_Artifact_ToJson example_Node_ToJson example_Name_ToJson
           example_ToHexString example_eval
           [("$1", result_t example_result)] Configuration.empty
           no_collected no_collected no_collected
           (result_t example_result) example_value_node);
    reflexivity.
Defined.

(** A rule with one config field, one string field and one target field,
    applied to the abstract node above. *)
Definition example_library_rule : UserRule.t :=
  UserRule.mk ["os"] ["srcs"] ["deps"] [] ∅ (result_t example_result).

Definition example_rule_map : Expression :=
  map_t [("library",
          name_t (Named (mkNamedTarget "main" "rules" "library" kTarget)))].

Definition example_node_data : TargetData.t :=
  TargetData.mk []
    [("os", list_t [])]
    [("srcs", list_t [string_t "a.c"])]
    [("deps", list_t [name_t (Anonymous example_rule_map example_value_node)])]
    kEmptyList false.

Example example_FromTargetNode :
  FromTargetNode example_library_rule "library" (map_t example_string_fields)
    (map_t example_target_fields) example_rule_map
  = inr (inr example_node_data).
Proof. reflexivity. Qed.

Example example_FromTargetNode_misplaced :
  FromTargetNode example_library_rule "library" (map_t example_string_fields)
    (map_t [("srcs", list_t [])]) example_rule_map
  = inr (inl "Expected string field 'srcs' in string_fields of abstract node type 'library', and not in target_fields").
Proof. reflexivity. Qed.

Lemma FromTargetNode_data_witness :
  TargetData.target_vars example_node_data = []
  /\ TargetData.tainted_expr example_node_data = kEmptyList
  /\ TargetData.parse_target_names example_node_data = false
  /\ (forall f, List.In f (UserRule.ConfigFields example_library_rule) ->
        LinkedMap.Find f example_target_fields = None
        /\ LinkedMap.Find f (TargetData.config_exprs example_node_data)
           = Some (default kEmptyList (LinkedMap.Find f example_string_fields)))
  /\ (forall f, List.In f (UserRule.StringFields example_library_rule) ->
        LinkedMap.Find f example_target_fields = None
        /\ LinkedMap.Find f (TargetData.string_exprs example_node_data)
           = Some (default kEmptyList (LinkedMap.Find f example_string_fields)))
  /\ (forall f, List.In f (UserRule.TargetFields example_library_rule) ->
        LinkedMap.Find f example_string_fields = None
        /\ exists nodes,
            default kEmptyList (LinkedMap.Find f example_target_fields)
            = list_t nodes
            /\ LinkedMap.Find f (TargetData.target_exprs example_node_data)
               = Some (list_t
                         (List.map
                            (fun node_expr =>
                               name_t (Anonymous example_rule_map node_expr))
                            nodes))).
Proof.
  apply (FromTargetNode_data example_library_rule "library"
           example_string_fields example_target_fields example_rule_map
           example_node_data).
  reflexivity.
Defined.

Lemma FromTargetNode_returns_iff_witness :
  let run :=
    FromTargetNode example_library_rule "library" (map_t example_string_fields)
      (map_t example_target_fields) example_rule_map in
  let separated :=
    (forall f, List.In f (UserRule.ConfigFields example_library_rule)
               \/ List.In f (UserRule.StringFields example_library_rule) ->
               LinkedMap.contains f example_target_fields = false)
    /\ (forall f, List.In f (UserRule.TargetFields example_library_rule) ->
                  LinkedMap.contains f example_string_fields = false) in
  ((exists data, run = inr (inr data)) /\ separated)
  \/ ((exists msg, run = inr (inl msg)) /\ ~ separated).
Proof.
  apply (FromTargetNode_returns_iff example_library_rule "library"
           example_string_fields example_target_fields example_rule_map).
  intros f [<-|[]]. reflexivity.
Defined.

(** The string field [srcs] of a target, read by [FIELD]. *)
Definition example_srcs_data : TargetData.t :=
  TargetData.mk [] [] [("srcs", list_t [string_t "a.c"; string_t "b.c"])] []
    kEmptyList true.

Lemma FIELD_string_field_witness :
  (List.In "srcs" ["srcs"] ->
   LinkedMap.Find "srcs" (@nil (string * Expression)) = None ->
   exists strings collected,
     example_Evaluate
       (default none_t
          (LinkedMap.Find "srcs" (TargetData.string_exprs example_srcs_data)))
       Configuration.empty [] no_collected
     = inr (list_t (List.map string_t strings), collected)
     /\ FIELD example_hash_gen example_dump example_Artifact_ToJson
          example_Node_ToJson example_Name_ToJson example_ToHexString
          [("srcs", list_t [string_t "a.c"; string_t "b.c"])]
          example_eval (map_t [("name", string_t "srcs")]) Configuration.empty
          no_collected
        = inr (list_t (List.map string_t strings), no_collected))
  /\ (forall value,
        LinkedMap.Find "srcs" (@nil (string * Expression)) = Some value ->
        FIELD example_hash_gen example_dump example_Artifact_ToJson
          example_Node_ToJson example_Name_ToJson example_ToHexString
          [("srcs", list_t [string_t "a.c"; string_t "b.c"])]
          example_eval (map_t [("name", string_t "srcs")]) Configuration.empty
          no_collected
        = inr (value, no_collected)).
Proof.
  apply (FIELD_string_field example_hash_gen example_dump
           example_Artifact_ToJson example_Node_ToJson example_Name_ToJson
           example_ToHexString example_Evaluate
           ["srcs"] example_srcs_data Configuration.empty [] []
           [("srcs", list_t [string_t "a.c"; string_t "b.c"])]
           example_eval [("name", string_t "srcs")] Configuration.empty
           no_collected no_collected (string_t "srcs") "srcs");
    reflexivity.
Defined.

(** The target that [withDependencies] sets in the example, and the registry
    after it. *)
Definition example_analysed : AnalysedTarget.t :=
  AnalysedTarget.mk example_result [] [] [] ∅ ({[ "lint" ]} ∪ {[ "test" ]}).

Definition example_registry : ResultTargetMap.t :=
  [((ConfiguredTarget.target example_key, Configuration.empty), example_analysed)].

Lemma withDependencies_sets_witness :
  let deps :=
    associate_deps example_ConfiguredTarget_eqb [example_dep_key] [example_dep] in
  let effective_vars := effective_vars_of example_data example_rule deps in
  exists own params' result collected,
    example_getTainted ∅
      (Configuration.Prune (TargetData.target_vars example_data)
         (ConfiguredTarget.config example_key))
      (TargetData.tainted_expr example_data) = inr own
    /\ eval_string_fields example_hash_gen example_dump example_Artifact_ToJson
         example_Node_ToJson example_Name_ToJson example_ToHexString
         example_Evaluate
         (UserRule.StringFields example_rule) example_data
         (Configuration.Prune (TargetData.target_vars example_data)
            (ConfiguredTarget.config example_key))
         (string_fields_fcts example_obtainTargetByName example_keys_expr deps
            example_key) [] = inr params'
    /\ example_Evaluate (UserRule.Expression_ example_rule)
         (Configuration.Prune (UserRule.ConfigVars example_rule)
            (ConfiguredTarget.config example_key))
         (main_exp_fcts example_hash_gen example_dump example_Artifact_ToJson
            example_Node_ToJson example_Name_ToJson example_ToHexString
            example_tree_conflict example_obtainTarget example_createAction
            example_Tree_Id example_Blob_ComputeHash example_default_is_cacheable
            example_rule params' deps) no_collected
       = inr (result_t result, collected)
    /\ ResultTargetMap.Add example_same_key []
         (ConfiguredTarget.target example_key)
         (Configuration.Prune (elements effective_vars)
            (ConfiguredTarget.config example_key))
         (AnalysedTarget.mk result (actions collected) (blobs collected)
            (trees collected) effective_vars
            (own ∪ UserRule.Tainted example_rule))
       = (example_analysed, example_registry)
    /\ forall x,
        x ∈ effective_vars
        <-> List.In x (TargetData.target_vars example_data)
            \/ List.In x (UserRule.ConfigVars example_rule)
            \/ exists dep,
                List.In dep deps
                /\ x ∈ AnalysedTarget.Vars (snd dep)
                /\ Configuration.VariableFixed x
                     (ConfiguredTarget.config (fst dep)) = false.
Proof.
  apply (withDependencies_sets example_hash_gen example_dump
           example_Artifact_ToJson example_Node_ToJson example_Name_ToJson
           example_ToHexString example_tree_conflict example_getTainted
           example_obtainTarget example_obtainTargetByName example_keys_expr
           example_createAction example_Tree_Id example_Blob_ComputeHash
           example_default_is_cacheable example_ConfiguredTarget_eqb
           example_same_key example_Evaluate
           [example_dep_key] [example_dep] example_rule example_data example_key
           [] [] example_registry example_analysed).
  vm_compute. reflexivity.
Defined.

(** A dependency tainted with ["secret"] makes the analysis fail, and the
    registry stays empty. *)
Lemma withDependencies_failure_keeps_registry_witness :
  snd (example_withDependencies
         [AnalysedTarget.mk example_result [] [] [] ∅ {[ "secret" ]}])
  = [].
Proof.
  apply (withDependencies_failure_keeps_registry example_hash_gen example_dump
           example_Artifact_ToJson example_Node_ToJson example_Name_ToJson
           example_ToHexString example_tree_conflict example_getTainted
           example_obtainTarget example_obtainTargetByName example_keys_expr
           example_createAction example_Tree_Id example_Blob_ComputeHash
           example_default_is_cacheable example_ConfiguredTarget_eqb
           example_same_key example_Evaluate
           [example_dep_key]
           [AnalysedTarget.mk example_result [] [] [] ∅ {[ "secret" ]}]
           example_rule example_data example_key [] []).
  exists "Not tainted with all strings the dependencies are tainted with".
  vm_compute. reflexivity.
Defined.

(** A rule with a config field and a target field under two transitions,
    and an anonymous definition on the nodes that the dependencies of the
    target field provide. *)
Definition example_ParseEntityNameFromExpression (expr : Expression)
  (current : EntityName) : string + EntityName :=
  match expr, current with
  | string_t s, Named t =>
      inr (Named (mkNamedTarget (repository t) (module t) s kTarget))
  | _, _ => inl "not the name of a target"
  end.

Definition example_transition_rule : UserRule.t :=
  UserRule.mk ["os"] [] ["deps"] [] ∅ (result_t example_result).

Definition example_debug : Expression := map_t [("M", string_t "dbg")].
Definition example_optimised : Expression := map_t [("M", string_t "opt")].

Definition example_rule_fields : RuleFields.t :=
  RuleFields.mk [] []
    [("anon", AnonymousDefinition.mk "deps" "nodes" example_rule_map)]
    [("deps", list_t [example_debug; example_optimised]);
     ("anon", list_t [kEmptyMapExpr])].

Definition example_transition_data : TargetData.t :=
  TargetData.mk [] [("os", list_t [string_t "linux"])] []
    [("deps", list_t [string_t "lib"])] kEmptyList true.

Definition example_app_key : ConfiguredTarget.t :=
  ConfiguredTarget.mk (Named (mkNamedTarget "main" "src" "app" kTarget))
    (Configuration.mk [("OS", string_t "linux")]).

Definition example_lib : EntityName :=
  Named (mkNamedTarget "main" "src" "lib" kTarget).

Definition example_withRuleDefinition : Step RuleRequest :=
  withRuleDefinition example_hash_gen example_dump example_Artifact_ToJson
    example_Node_ToJson example_Name_ToJson example_ToHexString example_Evaluate
    example_ParseEntityNameFromExpression example_transition_rule
    example_rule_fields example_transition_data example_app_key.

Definition example_request : RuleRequest :=
  mkRuleRequest
    (Requests.mk
       [ConfiguredTarget.mk example_lib
          (Configuration.mk [("M", string_t "dbg"); ("OS", string_t "linux")]);
        ConfiguredTarget.mk example_lib
          (Configuration.mk [("M", string_t "opt"); ("OS", string_t "linux")])]
       [ConfiguredTarget.mk example_lib (Configuration.mk [("M", string_t "dbg")]);
        ConfiguredTarget.mk example_lib (Configuration.mk [("M", string_t "opt")])]
       [("deps", [0; 1])])
    [("os", list_t [string_t "linux"]); ("deps", list_t [name_t example_lib])]
    [("deps", list_t [example_debug; example_optimised]);
     ("anon", list_t [kEmptyMapExpr])].

Example example_withRuleDefinition_requests :
  example_withRuleDefinition = Done example_request.
Proof. vm_compute. reflexivity. Qed.

(** A transition that is no list of maps, and a target field whose
    evaluation is no list. *)
Example example_withRuleDefinition_no_transition :
  withRuleDefinition example_hash_gen example_dump example_Artifact_ToJson
    example_Node_ToJson example_Name_ToJson example_ToHexString example_Evaluate
    example_ParseEntityNameFromExpression example_transition_rule
    (RuleFields.mk [] [] [] [("deps", list_t [string_t "dbg"])])
    example_transition_data example_app_key
  = Logged ("While evaluating config transition for deps:"
            +:+ String "010"%char
                  ("expected list of dicts, but found ["
                   +:+ String "034"%char "dbg" +:+ String "034"%char ",]")).
Proof. vm_compute. reflexivity. Qed.

(** The two dependencies provide one node each. *)
Definition example_provider : AnalysedTarget.t :=
  AnalysedTarget.mk
    (mkTargetResult kEmptyMapExpr
       (map_t [("nodes", list_t [example_value_node])]) kEmptyMapExpr true)
    [] [] [] ∅ ∅.

Definition example_anonymous_name : EntityName :=
  Anonymous example_rule_map example_value_node.

Definition example_anonymous_keys : list ConfiguredTarget.t :=
  [ConfiguredTarget.mk example_anonymous_name
     (Configuration.mk [("OS", string_t "linux")]);
   ConfiguredTarget.mk example_anonymous_name
     (Configuration.mk [("OS", string_t "linux")])].

Definition example_transition_keys : list ConfiguredTarget.t :=
  [ConfiguredTarget.mk example_lib (Configuration.mk [("M", string_t "dbg")]);
   ConfiguredTarget.mk example_lib (Configuration.mk [("M", string_t "opt")]);
   ConfiguredTarget.mk example_anonymous_name Configuration.empty;
   ConfiguredTarget.mk example_anonymous_name Configuration.empty].

Definition example_rule_params : LinkedMap.underlying_map_t Expression :=
  [("os", list_t [string_t "linux"]);
   ("deps", list_t [name_t example_lib]);
   ("anon", list_t [name_t example_anonymous_name;
                    name_t example_anonymous_name])].

Example example_withRuleDefinition_anonymous :
  withRuleDefinition_anonymous example_hash_gen example_dump
    example_Artifact_ToJson example_Node_ToJson example_Name_ToJson
    example_ToHexString example_rule_fields example_app_key example_request
    [example_provider; example_provider]
  = Done (example_anonymous_keys, example_transition_keys, example_rule_params).
Proof. vm_compute. reflexivity. Qed.

(** With one value for two keys the continuation reads beyond the end of
    the values. *)
Example example_withRuleDefinition_anonymous_short :
  withRuleDefinition_anonymous example_hash_gen example_dump
    example_Artifact_ToJson example_Node_ToJson example_Name_ToJson
    example_ToHexString example_rule_fields example_app_key example_request
    [example_provider]
  = Undefined None.
Proof. vm_compute. reflexivity. Qed.

Lemma withRuleDefinition_keys_witness :
  (exists added,
      Requests.dependency_keys (requests example_request)
      = List.map (dependency_key example_app_key) added
      /\ Requests.transition_keys (requests example_request)
         = List.map transition_key added
      /\ List.Forall (fun dep => IsMap (snd dep) = true) added)
  /\ List.length (Requests.dependency_keys (requests example_request))
     = List.length (Requests.transition_keys (requests example_request))
  /\ List.map ConfiguredTarget.target
       (Requests.dependency_keys (requests example_request))
     = List.map ConfiguredTarget.target
         (Requests.transition_keys (requests example_request))
  /\ positions_in_range (requests example_request).
Proof.
  apply (withRuleDefinition_keys example_hash_gen example_dump
           example_Artifact_ToJson example_Node_ToJson example_Name_ToJson
           example_ToHexString example_Evaluate
           example_ParseEntityNameFromExpression example_transition_rule
           example_rule_fields example_transition_data example_app_key
           example_request).
  vm_compute. reflexivity.
Defined.

(** A dependency whose provides map is no map. *)
Definition example_no_provider : AnalysedTarget.t :=
  AnalysedTarget.mk
    (mkTargetResult kEmptyMapExpr (string_t "nodes") kEmptyMapExpr true)
    [] [] [] ∅ ∅.

Example example_withRuleDefinition_anonymous_throws :
  withRuleDefinition_anonymous example_hash_gen example_dump
    example_Artifact_ToJson example_Node_ToJson example_Name_ToJson
    example_ToHexString example_rule_fields example_app_key example_request
    [example_provider; example_no_provider]
  = Thrown (ExpressionTypeError "Expression is not of type 'map'.").
Proof. vm_compute. reflexivity. Qed.

Lemma withRuleDefinition_anonymous_defined_witness :
  defined
    (withRuleDefinition_anonymous example_hash_gen example_dump
       example_Artifact_ToJson example_Node_ToJson example_Name_ToJson
       example_ToHexString example_rule_fields example_app_key example_request
       [example_provider; example_no_provider])
  /\ throws_type_errors
       (withRuleDefinition_anonymous example_hash_gen example_dump
          example_Artifact_ToJson example_Node_ToJson example_Name_ToJson
          example_ToHexString example_rule_fields example_app_key
          example_request [example_provider; example_no_provider]).
Proof.
  apply (withRuleDefinition_anonymous_defined example_hash_gen example_dump
           example_Artifact_ToJson example_Node_ToJson example_Name_ToJson
           example_ToHexString example_Evaluate
           example_ParseEntityNameFromExpression example_transition_rule
           example_rule_fields example_transition_data example_app_key
           example_request [example_provider; example_no_provider]).
  - vm_compute. reflexivity.
  - reflexivity.
Defined.

Lemma withRuleDefinition_anonymous_keys_witness :
  (exists added,
      example_anonymous_keys = List.map (dependency_key example_app_key) added
      /\ example_transition_keys
         = Requests.transition_keys (requests example_request)
           ++ List.map transition_key added
      /\ List.Forall (fun dep => IsMap (snd dep) = true) added
      /\ List.Forall
           (anonymous_of (RuleFields.AnonymousDefinitions example_rule_fields))
           added)
  /\ List.length example_transition_keys
     = List.length
         (Requests.dependency_keys (requests example_request)
          ++ example_anonymous_keys)
  /\ List.map ConfiguredTarget.target example_transition_keys
     = List.map ConfiguredTarget.target
         (Requests.dependency_keys (requests example_request)
          ++ example_anonymous_keys).
Proof.
  apply (withRuleDefinition_anonymous_keys example_hash_gen example_dump
           example_Artifact_ToJson example_Node_ToJson example_Name_ToJson
           example_ToHexString example_Evaluate
           example_ParseEntityNameFromExpression example_transition_rule
           example_rule_fields example_transition_data example_app_key
           example_request [example_provider; example_provider]
           example_anonymous_keys example_transition_keys example_rule_params);
    vm_compute; reflexivity.
Defined.

Lemma withRuleDefinition_finish_associates_witness :
  List.length ([example_provider; example_provider] ++ [example_dep; example_dep])
  = List.length example_transition_keys
  /\ forall transition,
      List.In transition example_transition_keys ->
      exists entry,
        List.In entry
          (associate_deps example_ConfiguredTarget_eqb example_transition_keys
             ([example_provider; example_provider] ++ [example_dep; example_dep]))
        /\ (fst entry = transition
            \/ example_ConfiguredTarget_eqb transition (fst entry) = true).
Proof.
  refine (proj2 (withRuleDefinition_finish_associates example_hash_gen
                   example_dump example_Artifact_ToJson example_Node_ToJson
                   example_Name_ToJson example_ToHexString example_tree_conflict
                   example_getTainted example_obtainTarget
                   example_obtainTargetByName example_keys_expr
                   example_createAction example_Tree_Id example_Blob_ComputeHash
                   example_default_is_cacheable example_ConfiguredTarget_eqb
                   example_same_key example_Evaluate
                   example_ParseEntityNameFromExpression example_transition_rule
                   example_rule_fields example_transition_data example_app_key
                   example_request [example_provider; example_provider]
                   [example_dep; example_dep]
                   example_anonymous_keys example_transition_keys
                   example_rule_params [] _ _ _ _));
    vm_compute; reflexivity.
Defined.

Lemma withRuleDefinition_config_fields_witness :
  exists strings,
    LinkedMap.Find "os" (request_params example_request)
    = Some (list_t (List.map string_t strings)).
Proof.
  refine (withRuleDefinition_config_fields example_hash_gen example_dump
            example_Artifact_ToJson example_Node_ToJson example_Name_ToJson
            example_ToHexString example_Evaluate
            example_ParseEntityNameFromExpression example_transition_rule
            example_rule_fields example_transition_data example_app_key
            example_request _ "os" _).
  - vm_compute. reflexivity.
  - now left.
Defined.
